(** * Contour: name hasher, route visitor, resource caches, discovery server

  A shallow embedding of the parts of the Contour ingress controller that
  its specification makes testable, with the properties proved or refuted
  against the Go sources:

  - [internal/envoy/translator.go] : [hashname], [truncate], [addIngress],
                                     and the rest of the translator:
                                     [addService], [addEndpoints], their
                                     removals, [OnAdd], [OnUpdate], [OnDelete];
  - [internal/route/visitor.go]    : [hashname], [longestRouteFirst],
                                     [actionroute], [Visitor.Visit];
  - [internal/contour/adapter.go], [internal/contour/k8s.go] :
                                     the ingress-class filter, [OnAdd],
                                     [OnUpdate], [OnDelete], and
                                     [calculateIngressRouteMetric];
  - the virtual host cache file    : [getRequestTimeout], [longestRouteFirst],
                                     [pathToRouteMatch], [recomputevhost];
  - the resource cache file        : [clusterCache.Add], [Remove], [Values];
  - the three generations of the gRPC server : [fetch] and [stream].

  Go strings are byte strings: they are modelled by [string], whose
  characters are bytes, [len] is [String.length], and the comparison
  operators are the byte-wise lexicographic ones of [String.compare].
  Go [int] is modelled by [Z]; where a counter can leave the 64-bit range
  the wrap-around is written out.  A run-time panic (slice bounds out of
  range) is the result [None]. *)

From Stdlib Require Import ZArith Lia List Ascii String Sorted Permutation.
From stdpp Require Import gmap strings pretty sorting.

Local Open Scope Z_scope.
Local Set Warnings "-register-all".

(* ===================================================================== *)
(** * The Go library functions the sources call *)
(* ===================================================================== *)

Module Go.

(** [len(s)] for a string. *)
Definition len (s : string) : Z := Z.of_nat (String.length s).

(** [s[:k]]: panics unless [0 <= k <= len(s)]. *)
Definition slice_to (s : string) (k : Z) : option string :=
  if (0 <=? k) && (k <=? len s)
  then Some (String.substring 0 (Z.to_nat k) s)
  else None.

(** [strings.Join(s, sep)]. *)
Definition Join (s : list string) (sep : string) : string :=
  String.concat sep s.

(** [strconv.Itoa] and [strconv.FormatInt(_, 10)]: decimal digits, with a
    leading minus sign for negative numbers. *)
Definition Itoa (i : Z) : string := pretty i.
Definition FormatInt (i : Z) : string := pretty i.

(** Go's [int] on a 64-bit platform: the result of an arithmetic
    operation is reduced into [-2^63, 2^63). *)
Definition wrap64 (z : Z) : Z := (z + 2 ^ 63) mod 2 ^ 64 - 2 ^ 63.

(** String comparison operators. *)
Definition str_lt (a b : string) : bool := String.ltb a b.
Definition str_ge (a b : string) : bool := negb (String.ltb a b).

(** ** [sort]

    [insertionSort] of package [sort], on the whole slice:
<<
    for i := a + 1; i < b; i++ {
        for j := i; j > a && data.Less(j, j-1); j-- { data.Swap(j, j-1) }
    }
>>
    The prefix already sorted is kept reversed, so that the element that
    is moved left meets its neighbours in the order of the inner loop. *)
Section Sort.
Context {A : Type} (less : A -> A -> bool).

Fixpoint sift (x : A) (rev_prefix : list A) : list A :=
  match rev_prefix with
  | [] => [x]
  | y :: ys => if less x y then y :: sift x ys else x :: y :: ys
  end.

Definition insertionSort (l : list A) : list A :=
  rev (fold_left (fun acc x => sift x acc) l []).

(** [sort.Stable(data)] sorts blocks of 20 elements by [insertionSort]
    and merges the blocks; a slice of at most 20 elements is sorted by
    [insertionSort] alone.  On a longer slice the result is determined as
    long as the comparison orders the elements by a key, since the stable
    sort of a slice is unique ([stable_sorted_unique] below). *)
Definition Stable (l : list A) : list A := insertionSort l.

(** [sort.Sort(data)] is not stable.  The caches call it on entries
    with pairwise distinct names, where a sorted slice has one possible
    order of its elements. *)
Definition Sort (l : list A) : list A := insertionSort l.

(** [sort.Reverse(data)]: [Less(i, j)] is [data.Less(j, i)]. *)
Definition Reverse : A -> A -> bool := fun x y => less y x.
End Sort.

(** [sort.Search(n, f)]:
<<
    i, j := 0, n
    for i < j {
        h := int(uint(i+j) >> 1)
        if !f(h) { i = h + 1 } else { j = h }
    }
    return i
>>
    Each iteration shrinks [j - i], so [n] iterations are enough. *)
Fixpoint Search_loop (fuel : nat) (f : nat -> bool) (i j : nat) : nat :=
  match fuel with
  | O => i
  | S fuel' =>
      if (i <? j)%nat then
        let h := ((i + j) / 2)%nat in
        if negb (f h) then Search_loop fuel' f (h + 1)%nat j
        else Search_loop fuel' f i h
      else i
  end.

Definition Search (n : nat) (f : nat -> bool) : nat :=
  Search_loop n f 0%nat n.

(** A [range] loop whose body may panic: the state is threaded through the
    elements in order and a panic ends the loop. *)
Fixpoint foldM {A S : Type} (f : A -> S -> option S) (l : list A) (s : S)
  : option S :=
  match l with
  | [] => Some s
  | x :: l' => match f x s with Some s' => foldM f l' s' | None => None end
  end.

(** [strings.IndexAny(s, chars) == -1]: no byte of [s] is one of [chars]
    (all of them ASCII here). *)
Definition IndexAny_none (s : string) (chars : list ascii) : bool :=
  forallb (fun c => negb (existsb (Ascii.eqb c) chars))
          (list_ascii_of_string s).

End Go.

(* ===================================================================== *)
(** * [crypto/sha256] and [fmt.Sprintf("%x", _)] *)
(* ===================================================================== *)

Module SHA256.

Definition w32 (z : Z) : Z := z mod 2 ^ 32.
Definition add32 (a b : Z) : Z := w32 (a + b).
Definition rotr (n x : Z) : Z :=
  Z.lor (Z.shiftr x n) (w32 (Z.shiftl x (32 - n))).
Definition not32 (x : Z) : Z := Z.lxor x 4294967295.

Definition Ch (x y z : Z) := Z.lxor (Z.land x y) (Z.land (not32 x) z).
Definition Maj (x y z : Z) :=
  Z.lxor (Z.lxor (Z.land x y) (Z.land x z)) (Z.land y z).
Definition bsig0 x := Z.lxor (Z.lxor (rotr 2 x) (rotr 13 x)) (rotr 22 x).
Definition bsig1 x := Z.lxor (Z.lxor (rotr 6 x) (rotr 11 x)) (rotr 25 x).
Definition ssig0 x := Z.lxor (Z.lxor (rotr 7 x) (rotr 18 x)) (Z.shiftr x 3).
Definition ssig1 x := Z.lxor (Z.lxor (rotr 17 x) (rotr 19 x)) (Z.shiftr x 10).

(** The constants of FIPS 180-4 are defined from the prime numbers: the
    round constants are the first 32 bits of the fractional parts of the
    cube roots of the first 64 primes, the initial hash value those of the
    square roots of the first 8 primes. *)
Definition is_prime (p : Z) : bool :=
  forallb (fun d => negb (p mod Z.of_nat d =? 0)) (seq 2 (Z.to_nat p - 2)).

Definition primes : list Z :=
  List.filter is_prime (map Z.of_nat (seq 2 310)).

(** The integer part of the [k]-th root of [n], bit by bit from bit
    [bits - 1] down. *)
Fixpoint root (bits : nat) (k n acc : Z) : Z :=
  match bits with
  | O => acc
  | S bits' =>
      let candidate := acc + 2 ^ Z.of_nat bits' in
      if candidate ^ k <=? n then root bits' k n candidate
      else root bits' k n acc
  end.

Definition fractional_bits (k p : Z) : Z :=
  w32 (root 40 k (p * 2 ^ (32 * k)) 0).

Definition K : list Z := map (fractional_bits 3) (firstn 64 primes).

(** The eight working variables, and the digest. *)
Record state := State { h0 : Z; h1 : Z; h2 : Z; h3 : Z;
                        h4 : Z; h5 : Z; h6 : Z; h7 : Z }.

Definition init : state :=
  match map (fractional_bits 2) (firstn 8 primes) with
  | [a; b; c; d; e; f; g; h] => State a b c d e f g h
  | _ => State 0 0 0 0 0 0 0 0
  end.

Definition bytes_of (s : string) : list Z :=
  map (fun c => Z.of_N (N_of_ascii c)) (list_ascii_of_string s).

(** Padding: a byte 0x80, zero bytes up to 56 modulo 64, and the length
    of the message in bits as 8 big-endian bytes. *)
Definition be_bytes (n : nat) (z : Z) : list Z :=
  map (fun i => Z.land (Z.shiftr z (8 * Z.of_nat i)) 255) (rev (seq 0 n)).

Definition pad (msg : list Z) : list Z :=
  let n := Z.of_nat (length msg) in
  let zeros := Z.to_nat ((55 - n) mod 64) in
  msg ++ 128 :: repeat 0 zeros ++ be_bytes 8 (8 * n).

(** Big-endian 32-bit words of a byte sequence. *)
Fixpoint words (fuel : nat) (bs : list Z) : list Z :=
  match fuel, bs with
  | S fuel', a :: b :: c :: d :: rest =>
      (Z.shiftl a 24 + Z.shiftl b 16 + Z.shiftl c 8 + d) :: words fuel' rest
  | _, _ => []
  end.

(** The message schedule, kept with the latest word first. *)
Fixpoint schedule (n : nat) (w : list Z) : list Z :=
  match n with
  | O => w
  | S n' =>
      let x := add32 (add32 (ssig1 (nth 1 w 0)) (nth 6 w 0))
                     (add32 (ssig0 (nth 14 w 0)) (nth 15 w 0)) in
      schedule n' (x :: w)
  end.

Definition round (st : state) (kw : Z * Z) : state :=
  let '(State a b c d e f g h) := st in
  let t1 := add32 (add32 (add32 h (bsig1 e)) (add32 (Ch e f g) (fst kw)))
                  (snd kw) in
  let t2 := add32 (bsig0 a) (Maj a b c) in
  State (add32 t1 t2) a b c (add32 d t1) e f g.

Definition block (st : state) (ws : list Z) : state :=
  let w := rev (schedule 48 (rev ws)) in
  let '(State a b c d e f g h) := fold_left round (combine K w) st in
  State (add32 (h0 st) a) (add32 (h1 st) b) (add32 (h2 st) c)
        (add32 (h3 st) d) (add32 (h4 st) e) (add32 (h5 st) f)
        (add32 (h6 st) g) (add32 (h7 st) h).

Fixpoint blocks (fuel : nat) (st : state) (ws : list Z) : state :=
  match fuel with
  | O => st
  | S fuel' =>
      match ws with
      | [] => st
      | _ => blocks fuel' (block st (firstn 16 ws)) (skipn 16 ws)
      end
  end.

(** [sha256.Sum256([]byte(s))]. *)
Definition Sum256 (s : string) : state :=
  let bs := pad (bytes_of s) in
  let ws := words (length bs) bs in
  blocks (length ws) init ws.

(** [fmt.Sprintf("%x", digest)]: two lower-case hexadecimal digits for
    each of the 32 bytes. *)
Definition hexdigit (z : Z) : ascii :=
  nth (Z.to_nat z) (list_ascii_of_string "0123456789abcdef") "0"%char.

Definition nibble (w : Z) (i : Z) : ascii :=
  hexdigit (Z.land (Z.shiftr w (4 * i)) 15).

Definition hexword (w : Z) (rest : string) : string :=
  String (nibble w 7) (String (nibble w 6) (String (nibble w 5)
  (String (nibble w 4) (String (nibble w 3) (String (nibble w 2)
  (String (nibble w 1) (String (nibble w 0) rest))))))).

Definition hex (st : state) : string :=
  hexword (h0 st) (hexword (h1 st) (hexword (h2 st) (hexword (h3 st)
  (hexword (h4 st) (hexword (h5 st) (hexword (h6 st)
  (hexword (h7 st) EmptyString))))))).

Definition Sum256_hex (s : string) : string := hex (Sum256 s).

End SHA256.

(* ===================================================================== *)
(** * Data: the xDS messages, the Kubernetes objects, the DAG *)
(* ===================================================================== *)

(** [time.Duration]: a number of nanoseconds. *)
Definition Duration := Z.
Definition Second : Duration := 1000000000.

(** The messages of the Envoy v2 API that the sources build, with the
    fields the sources set. *)
Module Envoyapi.

(** The [oneof] of [RouteMatch.PathSpecifier]. *)
Inductive PathSpecifier :=
| RouteMatch_Prefix (Prefix : string)
| RouteMatch_Path (Path : string)
| RouteMatch_Regex (Regex : string).

Record RouteMatch := { PathSpecifier_of : PathSpecifier }.

(** [RouteAction]: [UseWebsocket] and [Timeout] are pointers, [None] is
    the nil pointer (field not set). *)
Record RouteAction := {
  Cluster : string;
  UseWebsocket : option bool;
  Timeout : option Duration
}.

(** The [oneof] of [Route.Action]. *)
Inductive Action :=
| Route_Route (Route : RouteAction)
| Route_Redirect (HttpsRedirect : bool).

Record Route := { Match : RouteMatch; Action_of : Action }.

Record VirtualHost := {
  vh_Name : string;
  Domains : list string;
  Routes : list Route
}.

Record RouteConfiguration := {
  rc_Name : string;
  VirtualHosts : list VirtualHost
}.

(** [DiscoveryResponse], with the resources already serialised. *)
Record Any := { any_TypeUrl : string; Value : string }.

Record DiscoveryResponse := {
  VersionInfo : string;
  Resources : list Any;
  TypeUrl : string;
  Nonce : string
}.

Record DiscoveryRequest := { req_TypeUrl : string; req_VersionInfo : string }.

End Envoyapi.

(** The Kubernetes objects the event handlers receive. *)
Module Kube.

Record ObjectMeta := {
  Namespace : string;
  Name : string;
  Annotations : gmap string string
}.

(** [intstr.IntOrString] and its [String] method. *)
Inductive IntOrString := FromInt (i : Z) | FromString (s : string).

Definition IntOrString_String (p : IntOrString) : string :=
  match p with FromInt i => Go.Itoa i | FromString s => s end.

Record IngressBackend := { ServiceName : string; ServicePort : IntOrString }.

Record HTTPIngressPath := { Path : string; Backend : IngressBackend }.

(** [IngressRule]: [HTTP] is a pointer, [None] is nil. *)
Record IngressRule := { Host : string; HTTP : option (list HTTPIngressPath) }.

Record IngressSpec := {
  spec_Backend : option IngressBackend;
  Rules : list IngressRule
}.

Record Ingress := { ing_Meta : ObjectMeta; Spec : IngressSpec }.

(** The dynamic type of an [interface{}] handed to [OnAdd], [OnUpdate] and
    [OnDelete]. *)
Inductive Object :=
| ObjIngress (i : Ingress)
| ObjIngressRoute (m : ObjectMeta)
| ObjService (m : ObjectMeta)
| ObjEndpoints (m : ObjectMeta)
| ObjSecret (m : ObjectMeta)
| ObjOther.

End Kube.

(** Modelled from the spec: package [internal/dag] is not among the
    sources.  Section 3 of the specification lists the vertices and their
    edges; the visitor reads them through [Visit], [FQDN], [Prefix],
    [Namespace], [Name] and the fields [Port], [Websocket], [HTTPSUpgrade]
    and [Timeout].  The children of a vertex are listed in the order in
    which [Visit] hands them to its callback. *)
Module Dag.

Record Service := { Namespace : string; Name : string; Port : Z }.

Record Route := {
  Prefix : string;
  Websocket : bool;
  HTTPSUpgrade : bool;
  Timeout : Duration
}.

Inductive Vertex :=
| VirtualHost (FQDN : string) (children : list Vertex)
| SecureVirtualHost (FQDN : string) (children : list Vertex)
| RouteVertex (r : Route) (children : list Vertex)
| ServiceVertex (s : Service)
| SecretVertex (namespace name : string).

(** [DAG.Visit] calls its argument on the roots, in this order. *)
Definition DAG := list Vertex.

End Dag.

(* ===================================================================== *)
(** * The name hasher *)
(* ===================================================================== *)

(** [hashname], [truncate] and [min] exist twice, in
  [internal/envoy/translator.go] and in [internal/route/visitor.go].
  Each copy is embedded from its own source text. *)

Module Envoy.

Definition min (a b : Z) : Z := if a >? b then b else a.

(** [truncate] truncates [s] to [l] length by replacing the end of [s]
    with [-suffix]. *)
Definition truncate (l : Z) (s suffix : string) : option string :=
  if l >=? Go.len s then Some s
  else if l <=? Go.len suffix then
    Go.slice_to suffix (min l (Go.len suffix))
  else
    match Go.slice_to s (l - Go.len suffix - 1) with
    | Some p => Some (p +:+ "-" +:+ suffix)
    | None => None
    end.

Definition shorthash : Z := 6.

(** The loop [for n := len(s) - 1; n >= 0; n--] of [hashname]; [k] is
    [n + 1].  The slice [s] is updated in place, and the division is
    Go's, which truncates. *)
Fixpoint hashname_loop (l : Z) (hash : string) (k : nat) (s : list string)
  : option string :=
  match k with
  | O => Go.slice_to hash (min (Go.len hash) l)
  | S n =>
      match s !! n, Go.slice_to hash shorthash with
      | Some sn, Some short =>
          match truncate (Z.quot l (Z.of_nat (length s))) sn short with
          | Some t =>
              let s' := <[n := t]> s in
              let r := Go.Join s' "/" in
              if l >? Go.len r then Some r
              else hashname_loop l hash n s'
          | None => None
          end
      | _, _ => None
      end
  end.

Definition hashname (l : Z) (s : list string) : option string :=
  let r := Go.Join s "/" in
  if l >? Go.len r then Some r
  else
    let hash := SHA256.Sum256_hex r in
    hashname_loop l hash (length s) s.

(** ** The rest of [translator.go] that [addIngress] runs *)

Import Envoyapi Kube.

Definition prefixmatch (prefix : string) : RouteMatch :=
  {| PathSpecifier_of := RouteMatch_Prefix prefix |}.

Definition regexmatch (regex : string) : RouteMatch :=
  {| PathSpecifier_of := RouteMatch_Regex regex |}.

Definition clusteraction (cluster : string) : Action :=
  Route_Route {| Cluster := cluster; UseWebsocket := None; Timeout := None |}.

(** The bytes of the raw string literal in [pathToRouteMatch]: an opening
    bracket, an opening parenthesis, a star and a backslash. *)
Definition regex_bytes : list ascii :=
  [ascii_of_nat 91; ascii_of_nat 40; ascii_of_nat 42; ascii_of_nat 92].

Definition pathToRouteMatch (p : HTTPIngressPath) : RouteMatch :=
  if String.eqb (Path p) "" then prefixmatch "/"
  else if Go.IndexAny_none (Path p) regex_bytes then prefixmatch (Path p)
  else regexmatch (Path p).

Definition ingressBackendToClusterName (i : Ingress) (b : IngressBackend)
  : option string :=
  hashname 60 [Namespace (ing_Meta i); ServiceName b;
               IntOrString_String (ServicePort b)].

(** [addIngress] acts on the virtual host cache through
    [t.VirtualHostCache.Add] only; the embedding returns the virtual hosts
    handed to [Add], in call order.  [Errorf] only logs. *)
Definition addIngress_path (i : Ingress) (p : HTTPIngressPath)
  (routes : list Route) : option (list Route) :=
  match ingressBackendToClusterName i (Backend p) with
  | Some cl =>
      Some (routes ++ [ {| Match := pathToRouteMatch p;
                           Action_of := clusteraction cl |} ])
  | None => None
  end.

Fixpoint addIngress_rules (i : Ingress) (rules : list IngressRule)
  (adds : list VirtualHost) : option (list VirtualHost) :=
  match rules with
  | [] => Some adds
  | rule :: rest =>
      match hashname 60 [Namespace (ing_Meta i); Name (ing_Meta i); Host rule]
      with
      | Some name =>
          match HTTP rule with
          | None => Some adds
          | Some paths =>
              match Go.foldM (addIngress_path i) paths [] with
              | Some routes =>
                  addIngress_rules i rest
                    (adds ++ [ {| vh_Name := name; Domains := [Host rule];
                                  Routes := routes |} ])
              | None => None
              end
          end
      | None => None
      end
  end.

(** The body of [addIngress] after the ingress-class guard. *)
Definition addIngress_admitted (i : Ingress) : option (list VirtualHost) :=
  match spec_Backend (Spec i) with
  | Some backend =>
      match hashname 60 [Namespace (ing_Meta i); Name (ing_Meta i)],
            ingressBackendToClusterName i backend with
      | Some name, Some cl =>
          Some [ {| vh_Name := name; Domains := ["*"];
                    Routes := [ {| Match := prefixmatch "/";
                                   Action_of := clusteraction cl |} ] |} ]
      | _, _ => None
      end
  | None => addIngress_rules i (Rules (Spec i)) []
  end.

Definition addIngress (i : Ingress) : option (list VirtualHost) :=
  match Annotations (ing_Meta i) !! "kubernetes.io/ingress.class" with
  | Some class =>
      if negb (String.eqb class "contour") then Some []
      else addIngress_admitted i
  | None => addIngress_admitted i
  end.

End Envoy.

Module Route.

Definition min (a b : Z) : Z := if a >? b then b else a.

Definition truncate (l : Z) (s suffix : string) : option string :=
  if l >=? Go.len s then Some s
  else if l <=? Go.len suffix then
    Go.slice_to suffix (min l (Go.len suffix))
  else
    match Go.slice_to s (l - Go.len suffix - 1) with
    | Some p => Some (p +:+ "-" +:+ suffix)
    | None => None
    end.

Definition shorthash : Z := 6.

Fixpoint hashname_loop (l : Z) (hash : string) (k : nat) (s : list string)
  : option string :=
  match k with
  | O => Go.slice_to hash (min (Go.len hash) l)
  | S n =>
      match s !! n, Go.slice_to hash shorthash with
      | Some sn, Some short =>
          match truncate (Z.quot l (Z.of_nat (length s))) sn short with
          | Some t =>
              let s' := <[n := t]> s in
              let r := Go.Join s' "/" in
              if l >? Go.len r then Some r
              else hashname_loop l hash n s'
          | None => None
          end
      | _, _ => None
      end
  end.

Definition hashname (l : Z) (s : list string) : option string :=
  let r := Go.Join s "/" in
  if l >? Go.len r then Some r
  else
    let hash := SHA256.Sum256_hex r in
    hashname_loop l hash (length s) s.

(** ** The route visitor *)

Import Envoyapi.

(** [longestRouteFirst.Less(i, j)], on the two elements. *)
Definition longestRouteFirst_Less (x y : Route) : bool :=
  match PathSpecifier_of (Match x) with
  | RouteMatch_Prefix a =>
      match PathSpecifier_of (Match y) with
      | RouteMatch_Prefix b => Go.str_lt a b
      | _ => false
      end
  | _ => false
  end.

(** [sort.Stable(sort.Reverse(longestRouteFirst(routes)))]. *)
Definition sortRoutes (routes : list Route) : list Route :=
  Go.Stable (Go.Reverse longestRouteFirst_Less) routes.

Definition prefixmatch (prefix : string) : RouteMatch :=
  {| PathSpecifier_of := RouteMatch_Prefix prefix |}.

(** [actionroute] computes the cluster route action.  The [switch] on
    [timeout] has the cases [0], [-1] and [default]. *)
Definition actionroute (namespace name : string) (port : Z) (ws : bool)
  (timeout : Duration) : option RouteAction :=
  match hashname 60 [namespace; name; Go.Itoa port] with
  | Some cluster =>
      Some {| Cluster := cluster;
              UseWebsocket := if ws then Some ws else None;
              Timeout := if timeout =? 0 then None
                         else if timeout =? -1 then Some 0
                         else Some timeout |}
  | None => None
  end.

(** The callback of [r.Visit]: a child whose dynamic type is a pointer to
    [dag.Service] is appended to [svcs], any other child is skipped. *)
Definition visitService (s : Dag.Vertex) (svcs : list Dag.Service)
  : list Dag.Service :=
  match s with
  | Dag.ServiceVertex s => svcs ++ [s]
  | _ => svcs
  end.

Definition collectServices (children : list Dag.Vertex) : list Dag.Service :=
  fold_left (fun svcs s => visitService s svcs) children [].

(** The callback that a [*dag.VirtualHost] runs on each child: it appends
    to [vhost.Routes]. *)
Definition visitRoute (r : Dag.Vertex) (routes : list Route)
  : option (list Route) :=
  match r with
  | Dag.RouteVertex r children =>
      match collectServices children with
      | [] => Some routes
      | svc0 :: _ =>
          match actionroute (Dag.Namespace svc0) (Dag.Name svc0)
                  (Dag.Port svc0) (Dag.Websocket r) (Dag.Timeout r) with
          | Some a =>
              let rr := {| Match := prefixmatch (Dag.Prefix r);
                           Action_of := Route_Route a |} in
              let rr := if Dag.HTTPSUpgrade r
                        then {| Match := Match rr;
                                Action_of := Route_Redirect true |}
                        else rr in
              Some (routes ++ [rr])
          | None => None
          end
      end
  | _ => Some routes
  end.

(** The callback that a [*dag.SecureVirtualHost] runs on each child. *)
Definition visitSecureRoute (r : Dag.Vertex) (routes : list Route)
  : option (list Route) :=
  match r with
  | Dag.RouteVertex r children =>
      match collectServices children with
      | [] => Some routes
      | svc0 :: _ =>
          match actionroute (Dag.Namespace svc0) (Dag.Name svc0)
                  (Dag.Port svc0) (Dag.Websocket r) (Dag.Timeout r) with
          | Some a =>
              Some (routes ++ [ {| Match := prefixmatch (Dag.Prefix r);
                                   Action_of := Route_Route a |} ])
          | None => None
          end
      end
  | _ => Some routes
  end.

(** The two route configurations under construction. *)
Record configs := {
  ingress_http : list VirtualHost;
  ingress_https : list VirtualHost
}.

(** The callback of [v.DAG.Visit]. *)
Definition visitVertex (vh : Dag.Vertex) (c : configs) : option configs :=
  match vh with
  | Dag.VirtualHost hostname children =>
      let domains := if negb (String.eqb hostname "*")
                     then [hostname; hostname +:+ ":80"] else [hostname] in
      match hashname 60 [hostname] with
      | Some name =>
          match Go.foldM visitRoute children [] with
          | Some routes =>
              if (length routes <? 1)%nat then Some c
              else Some {| ingress_http := ingress_http c ++
                             [ {| vh_Name := name; Domains := domains;
                                  Routes := sortRoutes routes |} ];
                           ingress_https := ingress_https c |}
          | None => None
          end
      | None => None
      end
  | Dag.SecureVirtualHost hostname children =>
      let domains := if negb (String.eqb hostname "*")
                     then [hostname; hostname +:+ ":443"] else [hostname] in
      match hashname 60 [hostname] with
      | Some name =>
          match Go.foldM visitSecureRoute children [] with
          | Some routes =>
              if (length routes <? 1)%nat then Some c
              else Some {| ingress_http := ingress_http c;
                           ingress_https := ingress_https c ++
                             [ {| vh_Name := name; Domains := domains;
                                  Routes := sortRoutes routes |} ] |}
          | None => None
          end
      | None => None
      end
  | _ => Some c
  end.

(** [Visitor.Visit]: the map with the two route configurations. *)
Definition Visit (dag : Dag.DAG) : option (gmap string RouteConfiguration) :=
  match Go.foldM visitVertex dag
          {| ingress_http := []; ingress_https := [] |} with
  | Some c =>
      Some (<["ingress_http" :=
               {| rc_Name := "ingress_http";
                  VirtualHosts := ingress_http c |}]>
            (<["ingress_https" :=
               {| rc_Name := "ingress_https";
                  VirtualHosts := ingress_https c |}]> ∅))
  | None => None
  end.

End Route.

(** The reference algorithm of the specification, section 4.1, in the
  specification's words.  Lengths are natural numbers and [x[0:l]] is the
  prefix of at most [l] characters. *)
Module Reference.

Definition prefix (l : nat) (x : string) : string := String.substring 0 l x.

(** "To fit a part into [l] characters with suffix [x]: if [l >= |s|]
    return [s]; if [l <= |x|] return [x[0:l]]; otherwise return
    [s[0:l-|x|-1] + "-" + x]." *)
Definition fit (l : nat) (s x : string) : string :=
  if (String.length s <=? l)%nat then s
  else if (l <=? String.length x)%nat then prefix l x
  else prefix (l - String.length x - 1) s +:+ "-" +:+ x.

(** "For [i] from [n-1] down to [0]: replace [s_i] with a truncation of
    itself to length [L/n] ...  After each replacement recompute [r]; if
    [|r| < L] return.  If all parts have been truncated and still
    [|r| >= L], return [h[0:L]]." *)
Fixpoint parts (L : nat) (h : string) (i : nat) (s : list string) : string :=
  match i with
  | O => prefix L h
  | S i' =>
      let s' := alter (fun si => fit (L / length s) si (prefix 6 h)) i' s in
      let r := String.concat "/" s' in
      if (String.length r <? L)%nat then r else parts L h i' s'
  end.

Definition hashname (L : nat) (s : list string) : string :=
  let r := String.concat "/" s in
  if (String.length r <? L)%nat then r
  else parts L (SHA256.Sum256_hex r) (length s) s.

End Reference.
(* ===================================================================== *)
(** * Package [contour]: the virtual host cache file *)
(* ===================================================================== *)

Module Virtualhost.

Import Envoyapi.

Definition requestTimeout : string := "contour.heptio.com/request-timeout".

(** "By default envoy applies a 15 second timeout to all backend requests.
    The explicit value 0 turns off the timeout." *)
Definition infiniteTimeout : Duration := 0.

Section RequestTimeout.

(** [time.ParseDuration] of the Go library; [None] is a non-nil error. *)
Variable ParseDuration : string -> option Duration.

(** [getRequestTimeout] returns the timeout and whether it is present. *)
Definition getRequestTimeout (annotations : gmap string string)
  : Duration * bool :=
  match annotations !! requestTimeout with
  | None => (0, false)
  | Some timeoutStr =>
      if String.eqb timeoutStr "" then (0, false)
      else if String.eqb timeoutStr "infinity" then (infiniteTimeout, true)
      else
        match ParseDuration timeoutStr with
        | None => (infiniteTimeout, true)
        | Some timeoutParsed => (timeoutParsed, true)
        end
  end.

End RequestTimeout.

(** [longestRouteFirst.Less(i, j)], on the two elements. *)
Definition longestRouteFirst_Less (x y : Route) : bool :=
  match PathSpecifier_of (Match x) with
  | RouteMatch_Prefix a =>
      match PathSpecifier_of (Match y) with
      | RouteMatch_Prefix b => Go.str_lt a b
      | _ => false
      end
  | _ => false
  end.

(** [sort.Stable(sort.Reverse(longestRouteFirst(vv.Routes)))], the last
    step of [recomputevhost] before [Add]. *)
Definition sortRoutes (routes : list Route) : list Route :=
  Go.Stable (Go.Reverse longestRouteFirst_Less) routes.

Definition prefixmatch (prefix : string) : RouteMatch :=
  {| PathSpecifier_of := RouteMatch_Prefix prefix |}.

Definition regexmatch (regex : string) : RouteMatch :=
  {| PathSpecifier_of := RouteMatch_Regex regex |}.

Definition clusteraction (cluster : string) : RouteAction :=
  {| Cluster := cluster; UseWebsocket := None; Timeout := None |}.


End Virtualhost.

(* ===================================================================== *)
(** * Package [contour]: the resource caches *)
(* ===================================================================== *)

(** [clusterCache], [clusterLoadAssignmentCache], [listenerCache] and
    [virtualHostCache] are four copies of one text, for four element types
    and their name fields ([Name], [ClusterName], [Name], [Name]).  The
    state of a cache is its slice [values]. *)
Module Cache.

Section Cache.

Context {T : Type} (Name : T -> string).

(** [clusterByName.Less]. *)
Definition byName (a b : T) : bool := Go.str_lt (Name a) (Name b).

(** [Values] returns a copy of the contents of the cache. *)
Definition Values (values : list T) : list T := [] ++ values.

(** The result of [sort.Search(len(values), func(i) bool
    { return values[i].Name >= name })], which only probes indices below
    [len(values)]. *)
Definition search (name : string) (values : list T) : nat :=
  Go.Search (length values)
    (fun i => match values !! i with
              | Some v => Go.str_ge (Name v) name
              | None => true
              end).

(** [i < len(values) && values[i].Name == name]. *)
Definition found (i : nat) (name : string) (values : list T) : bool :=
  match values !! i with
  | Some v => String.eqb (Name v) name
  | None => false
  end.

(** [Add] adds an entry to the cache.  If an entry with the same name
    exists, it is replaced. *)
Definition Add (c : T) (values : list T) : list T :=
  let values := Go.Sort byName values in
  let i := search (Name c) values in
  if found i (Name c) values then <[i := c]> values
  else Go.Sort byName (values ++ [c]).

(** [Remove] removes the named entry from the cache.  If the entry is not
    present in the cache, the operation is a no-op. *)
Definition Remove (name : string) (values : list T) : list T :=
  let values := Go.Sort byName values in
  let i := search name values in
  if found i name values then take i values ++ drop (i + 1) values
  else values.

(** The states of a cache: the empty one of a new cache, and those that
    [Add] and [Remove] lead to. *)
Inductive reachable : list T -> Prop :=
| reachable_new : reachable []
| reachable_Add c values : reachable values -> reachable (Add c values)
| reachable_Remove name values :
    reachable values -> reachable (Remove name values).

End Cache.

End Cache.

(* ===================================================================== *)
(** * The discovery servers *)
(* ===================================================================== *)

(** What the three generations of the gRPC server share: the messages
    they serialise, the errors that end a stream, and what a stream's
    [select] statement can observe. *)
Module Xds.

Section Messages.

(** The resource types of [go-control-plane], of which the servers read
    nothing but the name. *)
Context {Cluster ClusterLoadAssignment Listener VirtualHost : Type}.

(** The dynamic type of a [proto.Message]. *)
Inductive Message :=
| MsgCluster (c : Cluster)
| MsgClusterLoadAssignment (e : ClusterLoadAssignment)
| MsgListener (l : Listener)
| MsgVirtualHost (v : VirtualHost)
| MsgRouteConfiguration (Name : string) (VirtualHosts : list VirtualHost).

End Messages.

Arguments Message : clear implicits.

Inductive error :=
| MarshalError
| SendError
| RecvError
| Canceled
| Unimplemented (msg : string)
| NoResourcer (typeURL : string).

(** One turn of a stream's loop, as the environment decides it: either a
    version arrives on the channel, [Values] then returns [values] and
    [Send] succeeds or not, or the context is done. *)
Inductive Select (V : Type) :=
| Notified (version : Z) (values : V) (send_ok : bool)
| Done.

Arguments Notified {V}.
Arguments Done {V}.

(** Modelled from the spec: the type [Cond] behind [Register] is not
    among the sources.  "Each cache holds a monotone non-negative integer
    advanced whenever its contents change." *)
Record Cache (T : Type) := { cache_values : list T; cache_version : Z }.

Arguments cache_values {T}.
Arguments cache_version {T}.

Definition typePrefix : string := "type.googleapis.com/envoy.api.v2.".
Definition EndpointType : string := typePrefix +:+ "ClusterLoadAssignment".
Definition ClusterType : string := typePrefix +:+ "Cluster".
Definition RouteType : string := typePrefix +:+ "RouteConfiguration".
Definition ListenerType : string := typePrefix +:+ "Listener".

End Xds.

(** ** First generation: package [contour], one loop per resource type *)
Module ContourGrpc.

Import Envoyapi Xds.

Section Server.

Context {Cluster ClusterLoadAssignment Listener VirtualHost : Type}.
Abbreviation Message := (Message Cluster ClusterLoadAssignment Listener VirtualHost).

(** [proto.Marshal]; [None] is a non-nil error. *)
Variable Marshal : Message -> option string.

(** [for i := range v { data, err := proto.Marshal(v[i]); ...;
    resources = append(resources, ...) }]. *)
Fixpoint marshal_each (typeurl : string) (v : list Message)
  (resources : list Any) : list Any + error :=
  match v with
  | [] => inl resources
  | m :: v' =>
      match Marshal m with
      | None => inr MarshalError
      | Some data =>
          marshal_each typeurl v'
            (resources ++ [ {| any_TypeUrl := typeurl; Value := data |} ])
      end
  end.

Definition FetchClusters (req : DiscoveryRequest)
  : option DiscoveryResponse * option error :=
  (None, Some (Unimplemented "FetchClusters Unimplemented")).

Definition FetchEndpoints (req : DiscoveryRequest)
  : option DiscoveryResponse * option error :=
  (None, Some (Unimplemented "FetchEndpoints Unimplemented")).

Definition FetchListeners (req : DiscoveryRequest)
  : option DiscoveryResponse * option error :=
  (None, Some (Unimplemented "FetchListeners Unimplemented")).

Definition FetchRoutes (req : DiscoveryRequest)
  : option DiscoveryResponse * option error :=
  (None, Some (Unimplemented "FetchRoutes Unimplemented")).

(** The loop of [StreamClusters], [StreamEndpoints] and [StreamRoutes],
    which differ in how [resources] is built from [Values()] and in the
    type URL.  The result is the responses handed to [Send] with success,
    and the error the function returns with ([None] while it is blocked
    in [select]).  [nonce] is an [int]. *)
Fixpoint stream_loop {V : Type} (resources_of : V -> list Any + error)
  (typeurl : string) (events : list (Select V)) (last nonce : Z)
  : list DiscoveryResponse * option error :=
  match events with
  | [] => ([], None)
  | Done :: _ => ([], Some Canceled)
  | Notified version v send_ok :: events' =>
      let last := version in
      match resources_of v with
      | inr err => ([], Some err)
      | inl resources =>
          let nonce := Go.wrap64 (nonce + 1) in
          let out := {| VersionInfo := Go.FormatInt last;
                        Resources := resources;
                        TypeUrl := typeurl;
                        Nonce := Go.FormatInt nonce |} in
          if send_ok then
            let (outs, err) := stream_loop resources_of typeurl events'
                                 last nonce in
            (out :: outs, err)
          else ([], Some SendError)
      end
  end.

Definition StreamClusters (events : list (Select (list Cluster)))
  : list DiscoveryResponse * option error :=
  stream_loop (fun v => marshal_each ClusterType (map MsgCluster v) [])
              ClusterType events 0 0.

Definition StreamEndpoints
  (events : list (Select (list ClusterLoadAssignment)))
  : list DiscoveryResponse * option error :=
  stream_loop
    (fun v => marshal_each EndpointType (map MsgClusterLoadAssignment v) [])
    EndpointType events 0 0.

Definition StreamRoutes (events : list (Select (list VirtualHost)))
  : list DiscoveryResponse * option error :=
  stream_loop
    (fun v => marshal_each RouteType [MsgRouteConfiguration "ingress_http" v]
                           [])
    RouteType events 0 0.

(** [StreamListeners]: "The listener cache is static, so stream one time
    then sleep until the client disconnects."  [done] tells whether the
    context has been cancelled yet. *)
Definition StreamListeners (v : list Listener) (send_ok done : bool)
  : list DiscoveryResponse * option error :=
  let nonce := Go.wrap64 (0 + 1) in
  let version := 0 in
  match marshal_each ListenerType (map MsgListener v) [] with
  | inr err => ([], Some err)
  | inl resources =>
      let out := {| VersionInfo := Go.FormatInt version;
                    Resources := resources;
                    TypeUrl := ListenerType;
                    Nonce := Go.FormatInt nonce |} in
      if send_ok then ([out], if done then Some Canceled else None)
      else ([], Some SendError)
  end.

End Server.

End ContourGrpc.

(** ** Second generation: [internal/grpc/grpc.go] *)
Module Grpc.

Import Envoyapi Xds.

Section Server.

Context {Cluster ClusterLoadAssignment Listener VirtualHost : Type}.
Abbreviation Message := (Message Cluster ClusterLoadAssignment Listener VirtualHost).

Variable Marshal : Message -> option string.

(** "A resourcer provides resources formatted as []*any.Any": the results
    of its two methods. *)
Record resourcer := {
  Resources : list Any * option error;
  TypeURL : string
}.

(** The body shared by the [Resources] methods of [CDS], [EDS] and [LDS]:
    on an error the slice returned is nil. *)
Fixpoint marshal_all (typeurl : string) (v : list Message)
  : list Any * option error :=
  match v with
  | [] => ([], None)
  | m :: v' =>
      match Marshal m with
      | None => ([], Some MarshalError)
      | Some data =>
          match marshal_all typeurl v' with
          | (resources, None) =>
              ({| any_TypeUrl := typeurl; Value := data |} :: resources, None)
          | (_, Some err) => ([], Some err)
          end
      end
  end.

Definition CDS (c : Cache Cluster) : resourcer :=
  {| Resources := marshal_all ClusterType (map MsgCluster (cache_values c));
     TypeURL := ClusterType |}.

Definition EDS (c : Cache ClusterLoadAssignment) : resourcer :=
  {| Resources := marshal_all EndpointType
                    (map MsgClusterLoadAssignment (cache_values c));
     TypeURL := EndpointType |}.

Definition LDS (c : Cache Listener) : resourcer :=
  {| Resources := marshal_all ListenerType (map MsgListener (cache_values c));
     TypeURL := ListenerType |}.

Definition RDS (c : Cache VirtualHost) : resourcer :=
  {| Resources :=
       match Marshal (MsgRouteConfiguration "ingress_http" (cache_values c))
       with
       | None => ([], Some MarshalError)
       | Some data => ([ {| any_TypeUrl := RouteType; Value := data |} ], None)
       end;
     TypeURL := RouteType |}.

(** [fetch] returns a response for the current resourcer, typeurl, version
    and nonce. *)
Definition fetch (r : resourcer) (version nonce : Z)
  : DiscoveryResponse * option error :=
  let (resources, err) := Resources r in
  ({| VersionInfo := Go.FormatInt version;
      Envoyapi.Resources := resources;
      TypeUrl := TypeURL r;
      Nonce := Go.FormatInt nonce |}, err).

Definition FetchClusters (c : Cache Cluster) (req : DiscoveryRequest) :=
  fetch (CDS c) 0 0.
Definition FetchEndpoints (c : Cache ClusterLoadAssignment)
  (req : DiscoveryRequest) := fetch (EDS c) 0 0.
Definition FetchListeners (c : Cache Listener) (req : DiscoveryRequest) :=
  fetch (LDS c) 0 0.
Definition FetchRoutes (c : Cache VirtualHost) (req : DiscoveryRequest) :=
  fetch (RDS c) 0 0.

(** [stream]: at each notification the notifier [n] is in the state that
    the event carries. *)
Fixpoint stream_loop (events : list (Select resourcer)) (last nonce : Z)
  : list DiscoveryResponse * option error :=
  match events with
  | [] => ([], None)
  | Done :: _ => ([], Some Canceled)
  | Notified version n send_ok :: events' =>
      let last := version in
      match fetch n last nonce with
      | (_, Some err) => ([], Some err)
      | (out, None) =>
          if send_ok then
            let nonce := Go.wrap64 (nonce + 1) in
            let (outs, err) := stream_loop events' last nonce in
            (out :: outs, err)
          else ([], Some SendError)
      end
  end.

Definition stream (events : list (Select resourcer))
  : list DiscoveryResponse * option error :=
  stream_loop events 0 0.

End Server.

End Grpc.

(** ** Third generation: the [grpcServer] with registered resourcers, and
    [internal/grpc/resources.go] *)
Module GrpcServer.

Import Envoyapi Xds.

Section Server.

Context {Cluster ClusterLoadAssignment Listener VirtualHost : Type}.
Abbreviation Message := (Message Cluster ClusterLoadAssignment Listener VirtualHost).

(** The name fields that the [Less] methods compare. *)
Variable Cluster_Name : Cluster -> string.
Variable ClusterLoadAssignment_ClusterName : ClusterLoadAssignment -> string.
Variable Listener_Name : Listener -> string.
Variable VirtualHost_Name : VirtualHost -> string.

Variable Marshal : Message -> option string.

(** The caches of the [contour.Translator] that [newgrpcServer] points its
    resourcers at.  Each cache holds messages of its own type. *)
Record Translator := {
  ClusterCache : Cache Cluster;
  ClusterLoadAssignmentCache : Cache ClusterLoadAssignment;
  ListenerCache : Cache Listener;
  VirtualHostCache_HTTP : list VirtualHost;
  VirtualHostCache_HTTPS : list VirtualHost;
  VirtualHostCache_Cond : Z
}.

Definition clusterByName (a b : Cluster) : bool :=
  Go.str_lt (Cluster_Name a) (Cluster_Name b).
Definition clusterLoadAssignmentsByName (a b : ClusterLoadAssignment) : bool :=
  Go.str_lt (ClusterLoadAssignment_ClusterName a)
            (ClusterLoadAssignment_ClusterName b).
Definition listenersByName (a b : Listener) : bool :=
  Go.str_lt (Listener_Name a) (Listener_Name b).
Definition virtualHostsByName (a b : VirtualHost) : bool :=
  Go.str_lt (VirtualHost_Name a) (VirtualHost_Name b).

(** [Values] of [CDS], [EDS], [LDS]: "a sorted list". *)
Definition CDS_Values (t : Translator) : list Message :=
  map MsgCluster (Go.Stable clusterByName (cache_values (ClusterCache t))).
Definition EDS_Values (t : Translator) : list Message :=
  map MsgClusterLoadAssignment
      (Go.Stable clusterLoadAssignmentsByName
                 (cache_values (ClusterLoadAssignmentCache t))).
Definition LDS_Values (t : Translator) : list Message :=
  map MsgListener (Go.Stable listenersByName (cache_values (ListenerCache t))).

(** [RDS.Values]: the two route configurations, each with its virtual
    hosts sorted by name. *)
Definition toRouteVirtualHosts (ms : list VirtualHost) : list VirtualHost :=
  Go.Stable virtualHostsByName ms.

Definition RDS_Values (t : Translator) : list Message :=
  [ MsgRouteConfiguration "ingress_http"
      (toRouteVirtualHosts (VirtualHostCache_HTTP t));
    MsgRouteConfiguration "ingress_https"
      (toRouteVirtualHosts (VirtualHostCache_HTTPS t)) ].

(** The body of the four [Resources] methods: on an error the slice
    returned is nil. *)
Fixpoint marshal_all (typeurl : string) (v : list Message)
  : list Any * option error :=
  match v with
  | [] => ([], None)
  | m :: v' =>
      match Marshal m with
      | None => ([], Some MarshalError)
      | Some value =>
          match marshal_all typeurl v' with
          | (resources, None) =>
              ({| any_TypeUrl := typeurl; Value := value |} :: resources, None)
          | (_, Some err) => ([], Some err)
          end
      end
  end.

Definition googleApis : string := "type.googleapis.com/".
Definition typePrefix : string := googleApis +:+ "envoy.api.v2.".
Definition endpointType : string := typePrefix +:+ "ClusterLoadAssignment".
Definition clusterType : string := typePrefix +:+ "Cluster".
Definition routeType : string := typePrefix +:+ "RouteConfiguration".
Definition listenerType : string := typePrefix +:+ "Listener".

(** "A resourcer provides resources formatted as []types.Any."  It points
    at caches of the translator, whose state its methods read. *)
Record resourcer := {
  Resources : Translator -> list Any * option error;
  TypeURL : string
}.

Definition CDS : resourcer :=
  {| Resources := fun t => marshal_all clusterType (CDS_Values t);
     TypeURL := clusterType |}.
Definition EDS : resourcer :=
  {| Resources := fun t => marshal_all endpointType (EDS_Values t);
     TypeURL := endpointType |}.
Definition LDS : resourcer :=
  {| Resources := fun t => marshal_all listenerType (LDS_Values t);
     TypeURL := listenerType |}.
Definition RDS : resourcer :=
  {| Resources := fun t => marshal_all routeType (RDS_Values t);
     TypeURL := routeType |}.

(** The field [resources] that [newgrpcServer] builds. *)
Definition newgrpcServer : gmap string resourcer :=
  <[clusterType := CDS]> (<[endpointType := EDS]>
  (<[listenerType := LDS]> (<[routeType := RDS]> ∅))).

(** [fetch] handles a single [DiscoveryRequest]. *)
Definition fetch (s : gmap string resourcer) (t : Translator)
  (req : DiscoveryRequest) : option DiscoveryResponse * option error :=
  match s !! req_TypeUrl req with
  | None => (None, Some (NoResourcer (req_TypeUrl req)))
  | Some r =>
      let (resources, err) := Resources r t in
      (Some {| VersionInfo := "0";
               Envoyapi.Resources := resources;
               TypeUrl := TypeURL r;
               Nonce := "0" |}, err)
  end.

(** One turn of the loop of [stream]: [Recv] fails, or it returns a request
    and the [select] statement observes what [sel] says, the translator
    being in the state that the notification carries. *)
Inductive Turn :=
| RecvFails
| Received (req : DiscoveryRequest) (sel : Select Translator).

(** [stream] processes a stream of [DiscoveryRequest]s. *)
Fixpoint stream_loop (s : gmap string resourcer) (turns : list Turn)
  (last : Z) : list DiscoveryResponse * option error :=
  match turns with
  | [] => ([], None)
  | RecvFails :: _ => ([], Some RecvError)
  | Received req sel :: turns' =>
      match s !! req_TypeUrl req with
      | None => ([], Some (NoResourcer (req_TypeUrl req)))
      | Some r =>
          match sel with
          | Done => ([], Some Canceled)
          | Notified version t send_ok =>
              let last := version in
              match Resources r t with
              | (_, Some err) => ([], Some err)
              | (resources, None) =>
                  let resp := {| VersionInfo := "0";
                                 Envoyapi.Resources := resources;
                                 TypeUrl := TypeURL r;
                                 Nonce := "0" |} in
                  if send_ok then
                    let (outs, err) := stream_loop s turns' last in
                    (resp :: outs, err)
                  else ([], Some SendError)
              end
          end
      end
  end.

Definition stream (s : gmap string resourcer) (turns : list Turn)
  : list DiscoveryResponse * option error :=
  stream_loop s turns 0.

End Server.

End GrpcServer.

(* ===================================================================== *)
(** * The translator of [internal/envoy/translator.go] *)
(* ===================================================================== *)

(** The objects of [k8s.io/api/core/v1] that the translator reads, with
    the fields it reads.  A port number is an [int32]. *)
Module Core.

Record ServicePort := {
  sp_Name : string;
  Protocol : string;
  Port : Z;
  TargetPort : Kube.IntOrString
}.

Record Service := { svc_Meta : Kube.ObjectMeta; Ports : list ServicePort }.

Record EndpointAddress := { IP : string }.

Record EndpointPort := { ep_Name : string; ep_Port : Z }.

Record EndpointSubset := {
  Addresses : list EndpointAddress;
  sub_Ports : list EndpointPort
}.

Record Endpoints := {
  ep_Meta : Kube.ObjectMeta;
  Subsets : list EndpointSubset
}.

End Core.

(** The cluster and endpoint messages of the Envoy v2 API, with the fields
    the translator sets. *)
Module Clusterapi.

Inductive ApiConfigSource_ApiType :=
| ApiConfigSource_REST_LEGACY
| ApiConfigSource_REST
| ApiConfigSource_GRPC.

Record ApiConfigSource := {
  ApiType : ApiConfigSource_ApiType;
  acs_ClusterName : list string
}.

Record Cluster_EdsClusterConfig := {
  EdsConfig : ApiConfigSource;
  ServiceName : string
}.

Inductive Cluster_DiscoveryType :=
| Cluster_STATIC
| Cluster_STRICT_DNS
| Cluster_LOGICAL_DNS
| Cluster_EDS
| Cluster_ORIGINAL_DST.

Inductive Cluster_LbPolicy :=
| Cluster_ROUND_ROBIN
| Cluster_LEAST_REQUEST
| Cluster_RING_HASH
| Cluster_RANDOM
| Cluster_ORIGINAL_DST_LB.

(** [ConnectTimeout] is a [duration.Duration], of which the translator
    sets [Nanos]. *)
Record Cluster := {
  cl_Name : string;
  cl_Type : Cluster_DiscoveryType;
  EdsClusterConfig : Cluster_EdsClusterConfig;
  ConnectTimeout_Nanos : Z;
  LbPolicy : Cluster_LbPolicy
}.

Record Locality := { Region : string; Zone : string; SubZone : string }.

Inductive SocketAddress_Protocol := SocketAddress_TCP | SocketAddress_UDP.

(** An [LbEndpoint], down to its socket address; [PortValue] is a
    [uint32]. *)
Record LbEndpoint := {
  sa_Protocol : SocketAddress_Protocol;
  Address : string;
  PortValue : Z
}.

Record LocalityLbEndpoints := {
  Locality_of : Locality;
  LbEndpoints : list LbEndpoint
}.

(** [Policy.DropOverload] is a [float64]; the translator sets it to the
    constant zero, which is all that is recorded of it. *)
Record ClusterLoadAssignment_Policy := { DropOverload : Z }.

Record ClusterLoadAssignment := {
  cla_ClusterName : string;
  cla_Endpoints : list LocalityLbEndpoints;
  Policy : ClusterLoadAssignment_Policy
}.

End Clusterapi.

Module Translator.

Import Envoyapi Kube Core Clusterapi.

Definition nanosecond : Z := 1.
Definition microsecond : Z := 1000 * nanosecond.
Definition millisecond : Z := 1000 * microsecond.

(** The conversion [uint32(p.Port)] of an [int32]. *)
Definition uint32 (z : Z) : Z := z mod 2 ^ 32.

(** A call that the translator makes on one of its three caches.  The
    cache types of the package are not in this file; the functions below
    return the calls they make, in order.  [Errorf] only logs. *)
Inductive Call :=
| ClusterCache_Add (c : Cluster)
| ClusterCache_Remove (name : string)
| ClusterLoadAssignmentCache_Add (e : ClusterLoadAssignment)
| ClusterLoadAssignmentCache_Remove (name : string)
| VirtualHostCache_Add (v : VirtualHost)
| VirtualHostCache_Remove (name : string).

(** The cluster that [addService] builds under a name. *)
Definition cluster (name : string) (config : Cluster_EdsClusterConfig)
  : Cluster :=
  {| cl_Name := name;
     cl_Type := Cluster_EDS;
     EdsClusterConfig := config;
     ConnectTimeout_Nanos := 250 * millisecond;
     LbPolicy := Cluster_ROUND_ROBIN |}.

(** The body of the loop of [addService]; [adds] are the clusters handed
    to [t.ClusterCache.Add] so far. *)
Definition addService_port (svc : Service) (p : ServicePort)
  (adds : list Cluster) : option (list Cluster) :=
  if String.eqb (Protocol p) "TCP" then
    let config :=
      {| EdsConfig := {| ApiType := ApiConfigSource_GRPC;
                         acs_ClusterName := ["xds_cluster"] |};
         ServiceName := Namespace (svc_Meta svc) +:+ "/" +:+
                        Name (svc_Meta svc) +:+ "/" +:+
                        IntOrString_String (TargetPort p) |} in
    let named :=
      if negb (String.eqb (sp_Name p) "") then
        match Envoy.hashname 60 [Namespace (svc_Meta svc);
                                 Name (svc_Meta svc); sp_Name p] with
        | Some name => Some (adds ++ [cluster name config])
        | None => None
        end
      else Some adds in
    match named with
    | Some adds =>
        match Envoy.hashname 60 [Namespace (svc_Meta svc);
                                 Name (svc_Meta svc); Go.Itoa (Port p)] with
        | Some name => Some (adds ++ [cluster name config])
        | None => None
        end
    | None => None
    end
  else Some adds.

Definition addService (svc : Service) : option (list Cluster) :=
  Go.foldM (addService_port svc) (Ports svc) [].

(** [removeService]: the names handed to [t.ClusterCache.Remove]. *)
Definition removeService_port (svc : Service) (p : ServicePort)
  (removes : list string) : option (list string) :=
  if String.eqb (Protocol p) "TCP" then
    let named :=
      if negb (String.eqb (sp_Name p) "") then
        match Envoy.hashname 60 [Namespace (svc_Meta svc);
                                 Name (svc_Meta svc); sp_Name p] with
        | Some name => Some (removes ++ [name])
        | None => None
        end
      else Some removes in
    match named with
    | Some removes =>
        match Envoy.hashname 60 [Namespace (svc_Meta svc);
                                 Name (svc_Meta svc); Go.Itoa (Port p)] with
        | Some name => Some (removes ++ [name])
        | None => None
        end
    | None => None
    end
  else Some removes.

Definition removeService (svc : Service) : option (list string) :=
  Go.foldM (removeService_port svc) (Ports svc) [].

(** [addEndpoints]: the inner loop appends one [LbEndpoint] for each
    address to the one locality of the load assignment. *)
Definition addEndpoints_address (p : EndpointPort) (a : EndpointAddress)
  (lb : list LbEndpoint) : list LbEndpoint :=
  lb ++ [ {| sa_Protocol := SocketAddress_TCP;
             Address := IP a;
             PortValue := uint32 (ep_Port p) |} ].

Definition addEndpoints_port (e : Endpoints) (s : EndpointSubset)
  (p : EndpointPort) (adds : list ClusterLoadAssignment)
  : option (list ClusterLoadAssignment) :=
  match Envoy.hashname 60 [Namespace (ep_Meta e); Name (ep_Meta e);
                           Go.Itoa (ep_Port p)] with
  | Some name =>
      let cla :=
        {| cla_ClusterName := name;
           cla_Endpoints :=
             [ {| Locality_of := {| Region := "ap-southeast-2";
                                    Zone := "2b";
                                    SubZone := "banana" |};
                  LbEndpoints :=
                    fold_left (fun lb a => addEndpoints_address p a lb)
                              (Addresses s) [] |} ];
           Policy := {| DropOverload := 0 |} |} in
      Some (adds ++ [cla])
  | None => None
  end.

Definition addEndpoints_subset (e : Endpoints) (s : EndpointSubset)
  (adds : list ClusterLoadAssignment) : option (list ClusterLoadAssignment) :=
  if (length (Addresses s) =? 0)%nat || (length (sub_Ports s) =? 0)%nat
  then Some adds
  else Go.foldM (addEndpoints_port e s) (sub_Ports s) adds.

Definition addEndpoints (e : Endpoints)
  : option (list ClusterLoadAssignment) :=
  Go.foldM (addEndpoints_subset e) (Subsets e) [].

Definition removeEndpoints_port (e : Endpoints) (p : EndpointPort)
  (removes : list string) : option (list string) :=
  let named :=
    if negb (String.eqb (ep_Name p) "") then
      match Envoy.hashname 60 [Namespace (ep_Meta e); Name (ep_Meta e);
                               ep_Name p] with
      | Some name => Some (removes ++ [name])
      | None => None
      end
    else Some removes in
  match named with
  | Some removes =>
      match Envoy.hashname 60 [Namespace (ep_Meta e); Name (ep_Meta e);
                               Go.Itoa (ep_Port p)] with
      | Some name => Some (removes ++ [name])
      | None => None
      end
  | None => None
  end.

Definition removeEndpoints_subset (e : Endpoints) (s : EndpointSubset)
  (removes : list string) : option (list string) :=
  Go.foldM (removeEndpoints_port e) (sub_Ports s) removes.

Definition removeEndpoints (e : Endpoints) : option (list string) :=
  Go.foldM (removeEndpoints_subset e) (Subsets e) [].

(** [removeIngress]: the names handed to [t.VirtualHostCache.Remove]. *)
Definition removeIngress_rule (i : Ingress) (rule : IngressRule)
  (removes : list string) : option (list string) :=
  match Envoy.hashname 60 [Namespace (ing_Meta i); Name (ing_Meta i);
                           Host rule] with
  | Some name => Some (removes ++ [name])
  | None => None
  end.

Definition removeIngress (i : Ingress) : option (list string) :=
  match spec_Backend (Spec i) with
  | Some _ =>
      match Envoy.hashname 60 [Namespace (ing_Meta i); Name (ing_Meta i)] with
      | Some name => Some [name]
      | None => None
      end
  | None => Go.foldM (removeIngress_rule i) (Rules (Spec i)) []
  end.

(** The dynamic type of the [interface{}] handed to the translator;
    [DeletedFinalStateUnknown] is the tombstone of [client-go], which
    holds the object that was deleted. *)
Inductive Object :=
| ObjService (svc : Service)
| ObjEndpoints (e : Endpoints)
| ObjIngress (i : Ingress)
| DeletedFinalStateUnknown (Obj : Object)
| ObjOther.

Definition calls {A : Type} (call : A -> Call) (r : option (list A))
  : option (list Call) :=
  match r with Some l => Some (map call l) | None => None end.

Definition OnAdd (obj : Object) : option (list Call) :=
  match obj with
  | ObjService obj => calls ClusterCache_Add (addService obj)
  | ObjEndpoints obj =>
      calls ClusterLoadAssignmentCache_Add (addEndpoints obj)
  | ObjIngress obj => calls VirtualHostCache_Add (Envoy.addIngress obj)
  | _ => Some []
  end.

Definition OnUpdate (oldObj newObj : Object) : option (list Call) :=
  match newObj with
  | ObjService newObj => calls ClusterCache_Add (addService newObj)
  | ObjEndpoints newObj =>
      calls ClusterLoadAssignmentCache_Add (addEndpoints newObj)
  | ObjIngress newObj => calls VirtualHostCache_Add (Envoy.addIngress newObj)
  | _ => Some []
  end.

Fixpoint OnDelete (obj : Object) : option (list Call) :=
  match obj with
  | ObjService obj => calls ClusterCache_Remove (removeService obj)
  | ObjEndpoints obj =>
      calls ClusterLoadAssignmentCache_Remove (removeEndpoints obj)
  | ObjIngress obj => calls VirtualHostCache_Remove (removeIngress obj)
  | DeletedFinalStateUnknown Obj => OnDelete Obj
  | ObjOther => Some []
  end.

End Translator.

(* ===================================================================== *)
(** * Package [contour]: [recomputevhost] *)
(* ===================================================================== *)

Module Recompute.

(** [TLS] of [v1beta1.IngressSpec], which [validTLSSpecforVhost] reads,
    and the Ingress with it. *)
Record IngressTLS := { Hosts : list string; SecretName : string }.

Record Ingress := { ing : Kube.Ingress; TLS : list IngressTLS }.

Inductive VirtualHost_TlsRequirementType :=
| VirtualHost_NONE
| VirtualHost_EXTERNAL_ONLY
| VirtualHost_ALL.

(** [v2.VirtualHost], with the field [RequireTls] that [recomputevhost]
    sets. *)
Record VirtualHost := {
  Name : string;
  Domains : list string;
  Routes : list Envoyapi.Route;
  RequireTls : VirtualHost_TlsRequirementType
}.






(** The bytes of the raw string literal in [pathToRouteMatch]. *)
Definition regex_bytes : list ascii :=
  [ascii_of_nat 91; ascii_of_nat 40; ascii_of_nat 42; ascii_of_nat 92].

Definition pathToRouteMatch (p : Kube.HTTPIngressPath) : Envoyapi.RouteMatch :=
  if String.eqb (Kube.Path p) "" then Virtualhost.prefixmatch "/"
  else if Go.IndexAny_none (Kube.Path p) regex_bytes
       then Virtualhost.prefixmatch (Kube.Path p)
       else Virtualhost.regexmatch (Kube.Path p).

Section Recompute.

(** [hashname] of the package, which is not in this file; [None] is a
    panic. *)
Variable hashname : Z -> list string -> option string.

(** [time.ParseDuration]. *)
Variable ParseDuration : string -> option Duration.

Definition ingressBackendToClusterName (i : Kube.Ingress)
  (b : Kube.IngressBackend) : option string :=
  hashname 60 [Kube.Namespace (Kube.ing_Meta i); Kube.ServiceName b;
               Kube.IntOrString_String (Kube.ServicePort b)].











End Recompute.

End Recompute.

(* ===================================================================== *)
(** * [internal/contour/adapter.go]: the IngressRoute metrics *)
(* ===================================================================== *)

Module Metrics.

(** [metrics.Meta], the key of the counters. *)
Record Meta := { VHost : string; Namespace : string }.

#[global] Instance Meta_eq_dec : EqDecision Meta.
Proof. solve_decision. Defined.

#[global] Instance Meta_countable : Countable Meta :=
  inj_countable' (fun m => (VHost m, Namespace m))
                 (fun p => {| VHost := fst p; Namespace := snd p |})
                 (fun m => match m with Build_Meta _ _ => eq_refl end).

(** [metrics.IngressRouteMetric]: five maps of [int] counters. *)
Record IngressRouteMetric := {
  Invalid : gmap Meta Z;
  Valid : gmap Meta Z;
  Orphaned : gmap Meta Z;
  Total : gmap Meta Z;
  Root : gmap Meta Z
}.

(** What [calculateIngressRouteMetric] reads of an entry of
    [d.Statuses()]: its fields [Status] and [Vhost], the namespace of its
    [Object], and whether [Object.Spec.VirtualHost] is not nil. *)
Record Status := {
  Object_Namespace : string;
  Object_VirtualHost : bool;
  Status_of : string;
  Vhost : string
}.

(** [m[key]++] on a map of [int]: an absent key counts as zero. *)
Definition incr (m : gmap Meta Z) (key : Meta) : gmap Meta Z :=
  <[key := Go.wrap64 (match m !! key with Some n => n | None => 0 end
                      + 1)]> m.

Section Calculate.

(** The constants [dag.StatusValid], [dag.StatusInvalid] and
    [dag.StatusOrphaned], which are not in this file. *)
Variable StatusValid StatusInvalid StatusOrphaned : string.

(** The body of the loop over the statuses. *)
Definition count (v : Status) (m : IngressRouteMetric) : IngressRouteMetric :=
  let m :=
    if String.eqb (Status_of v) StatusValid then
      {| Invalid := Invalid m;
         Valid := incr (Valid m) {| VHost := Vhost v;
                                    Namespace := Object_Namespace v |};
         Orphaned := Orphaned m; Total := Total m; Root := Root m |}
    else if String.eqb (Status_of v) StatusInvalid then
      {| Invalid := incr (Invalid m) {| VHost := Vhost v;
                                        Namespace := Object_Namespace v |};
         Valid := Valid m;
         Orphaned := Orphaned m; Total := Total m; Root := Root m |}
    else if String.eqb (Status_of v) StatusOrphaned then
      {| Invalid := Invalid m; Valid := Valid m;
         Orphaned := incr (Orphaned m) {| VHost := "";
                                          Namespace := Object_Namespace v |};
         Total := Total m; Root := Root m |}
    else m in
  let m :=
    {| Invalid := Invalid m; Valid := Valid m; Orphaned := Orphaned m;
       Total := incr (Total m) {| VHost := "";
                                  Namespace := Object_Namespace v |};
       Root := Root m |} in
  if Object_VirtualHost v then
    {| Invalid := Invalid m; Valid := Valid m; Orphaned := Orphaned m;
       Total := Total m;
       Root := incr (Root m) {| VHost := "";
                                Namespace := Object_Namespace v |} |}
  else m.

(** [calculateIngressRouteMetric]; [statuses] are the values of
    [d.Statuses()], in the order in which the [range] statement yields
    them. *)
Definition calculateIngressRouteMetric (statuses : list Status)
  : IngressRouteMetric :=
  fold_left (fun m v => count v m) statuses
    {| Invalid := ∅; Valid := ∅; Orphaned := ∅; Total := ∅; Root := ∅ |}.

End Calculate.

End Metrics.

(* ===================================================================== *)
(** * The event handlers *)
(* ===================================================================== *)

(** An event handler acts on the state through the methods [Insert] and
    [Remove] of the embedded DAG (or builder) and through its own
    [update], none of which is decided in the files embedded here.  A
    handler returns the calls it makes, in order. *)
Module Handler.

Inductive Call :=
| Insert (obj : Kube.Object)
| Remove (obj : Kube.Object)
| update.

Section Run.

(** Any state with the three operations. *)
Context {State : Type}.
Variable dagInsert : Kube.Object -> State -> State.
Variable dagRemove : Kube.Object -> State -> State.
Variable dagUpdate : State -> State.

Definition call (st : State) (c : Call) : State :=
  match c with
  | Insert obj => dagInsert obj st
  | Remove obj => dagRemove obj st
  | update => dagUpdate st
  end.

Definition run (calls : list Call) (st : State) : State :=
  fold_left call calls st.

End Run.

End Handler.

(** [internal/contour/adapter.go] *)
Module Adapter.

Import Kube Handler.

Definition DEFAULT_INGRESS_CLASS : string := "contour".

(** The configuration of a [DAGAdapter]: "Contour's IngressClass.  If not
    set, defaults to DEFAULT_INGRESS_CLASS." *)
Record DAGAdapter := { IngressClass : string }.

Definition ingressClass (d : DAGAdapter) : string :=
  if negb (String.eqb (IngressClass d) "") then IngressClass d
  else DEFAULT_INGRESS_CLASS.

Definition validIngressClass (d : DAGAdapter) (obj : Object) : bool :=
  match obj with
  | ObjIngress i =>
      match Annotations (ing_Meta i) !! "kubernetes.io/ingress.class" with
      | Some class => String.eqb class (ingressClass d)
      | None => true
      end
  | _ => true
  end.

Definition OnDelete (d : DAGAdapter) (obj : Object) : list Call :=
  [Remove obj; update].

Definition OnAdd (d : DAGAdapter) (obj : Object) : list Call :=
  if negb (validIngressClass d obj) then []
  else [Insert obj; update].

Definition OnUpdate (d : DAGAdapter) (oldObj newObj : Object) : list Call :=
  let oldValid := validIngressClass d oldObj in
  let newValid := validIngressClass d newObj in
  if negb oldValid && negb newValid then []
  else if oldValid && negb newValid then OnDelete d oldObj
  else [Remove oldObj; Insert newObj; update].

End Adapter.

(** [internal/contour/k8s.go] *)
Module K8s.

Import Kube Handler.

Definition DEFAULT_INGRESS_CLASS : string := "contour".

Record ResourceEventHandler := { IngressClass : string }.

Definition ingressClass (reh : ResourceEventHandler) : string :=
  if negb (String.eqb (IngressClass reh) "") then IngressClass reh
  else DEFAULT_INGRESS_CLASS.

Definition validIngressClass (reh : ResourceEventHandler) (obj : Object)
  : bool :=
  match obj with
  | ObjIngress i =>
      match Annotations (ing_Meta i) !! "kubernetes.io/ingress.class" with
      | Some class => String.eqb class (ingressClass reh)
      | None => true
      end
  | _ => true
  end.

Definition OnDelete (reh : ResourceEventHandler) (obj : Object) : list Call :=
  [Remove obj; update].

Definition OnAdd (reh : ResourceEventHandler) (obj : Object) : list Call :=
  if negb (validIngressClass reh obj) then []
  else [Insert obj; update].

Definition OnUpdate (reh : ResourceEventHandler) (oldObj newObj : Object)
  : list Call :=
  let oldValid := validIngressClass reh oldObj in
  let newValid := validIngressClass reh newObj in
  if negb oldValid && negb newValid then []
  else if oldValid && negb newValid then OnDelete reh oldObj
  else [Remove oldObj; Insert newObj; update].

End K8s.

(* ===================================================================== *)
(** * The vocabulary of the properties *)
(* ===================================================================== *)

Import Envoyapi.

(** The prefix of a route that matches by prefix. *)
Definition prefix_of (r : Route) : string :=
  match PathSpecifier_of (Match r) with
  | RouteMatch_Prefix p => p
  | _ => ""
  end.

Definition is_prefix_route (r : Route) : bool :=
  match PathSpecifier_of (Match r) with
  | RouteMatch_Prefix _ => true
  | _ => false
  end.

(** What the specification asks for: no route has a longer prefix than a
    route before it. *)
Definition descending_prefix_length (routes : list Route) : Prop :=
  StronglySorted
    (fun a b => (String.length (prefix_of b) <= String.length (prefix_of a))%nat)
    routes.

(** What the code does: no route has a greater prefix, in the byte-wise
    order of strings, than a route before it. *)
Definition descending_prefix (routes : list Route) : Prop :=
  StronglySorted (fun a b => String.le (prefix_of b) (prefix_of a)) routes.

(** The comparison that [sort.Reverse(longestRouteFirst(_))] makes between
    routes that match by prefix. *)
Definition greater_prefix (x y : Route) : bool :=
  Go.str_lt (prefix_of y) (prefix_of x).

(** ** The declarative reading of a DAG *)

(** The services among the children of a vertex, in order. *)
Definition services_of (children : list Dag.Vertex) : list Dag.Service :=
  flat_map (fun v => match v with Dag.ServiceVertex s => [s] | _ => [] end)
           children.

(** A route vertex with at least one service among its children. *)
Definition serviced (v : Dag.Vertex) : bool :=
  match v with
  | Dag.RouteVertex _ children =>
      match services_of children with [] => false | _ => true end
  | _ => false
  end.

Definition vertex_children (v : Dag.Vertex) : list Dag.Vertex :=
  match v with
  | Dag.VirtualHost _ children => children
  | Dag.SecureVirtualHost _ children => children
  | Dag.RouteVertex _ children => children
  | _ => []
  end.

Definition vertex_host (v : Dag.Vertex) : string :=
  match v with
  | Dag.VirtualHost host _ => host
  | Dag.SecureVirtualHost host _ => host
  | _ => ""
  end.

(** A virtual host vertex, plain or secure, with a serviced route. *)
Definition plain_with_routes (v : Dag.Vertex) : bool :=
  match v with
  | Dag.VirtualHost _ children => existsb serviced children
  | _ => false
  end.

Definition secure_with_routes (v : Dag.Vertex) : bool :=
  match v with
  | Dag.SecureVirtualHost _ children => existsb serviced children
  | _ => false
  end.

(** The timeout field of a cluster action, for the timeout [t] of the DAG
    route: not set for [0], set to zero for the sentinel [-1], set to [t]
    otherwise. *)
Definition timeout_on_wire (t : Duration) (field : option Duration) : Prop :=
  (t = 0 -> field = None) /\
  (t = -1 -> field = Some 0) /\
  (t <> 0 -> t <> -1 -> field = Some t).

(** The route [rr] of the output was built from the route vertex [v]: [v]
    has a first service, [rr] matches by the prefix of [v], and its action
    is a redirect (on a plain virtual host, when the route asks for the
    upgrade to HTTPS) or else the cluster of that first service. *)
Definition built_from (secure : bool) (rr : Route) (v : Dag.Vertex) : Prop :=
  exists r children svc svcs,
    v = Dag.RouteVertex r children /\
    services_of children = svc :: svcs /\
    Match rr = Route.prefixmatch (Dag.Prefix r) /\
    if Dag.HTTPSUpgrade r && negb secure
    then Action_of rr = Route_Redirect true
    else exists a,
      Action_of rr = Route_Route a /\
      Route.hashname 60 [Dag.Namespace svc; Dag.Name svc;
                         Go.Itoa (Dag.Port svc)] = Some (Cluster a) /\
      UseWebsocket a = (if Dag.Websocket r then Some true else None) /\
      timeout_on_wire (Dag.Timeout r) (Timeout a).

(** The virtual host record [vh] of the output was built from the virtual
    host vertex [v]: its routes are the sorted slice of the routes built
    from the serviced route vertices of [v], of which there is one at
    least. *)
Definition emitted_by (secure : bool) (vh : VirtualHost) (v : Dag.Vertex)
  : Prop :=
  Route.hashname 60 [vertex_host v] = Some (vh_Name vh) /\
  exists out, out <> [] /\ Routes vh = Route.sortRoutes out /\
    Forall2 (built_from secure) out
            (List.filter serviced (vertex_children v)).

(** A DAG with the virtual host [example.com] and two routes, [/b] and
    [/aaa], to the service [default/kuard:80]. *)
Definition kuard : Dag.Vertex :=
  Dag.ServiceVertex {| Dag.Namespace := "default"; Dag.Name := "kuard";
                       Dag.Port := 80 |}.

Definition plain_route (prefix : string) : Dag.Route :=
  {| Dag.Prefix := prefix; Dag.Websocket := false;
     Dag.HTTPSUpgrade := false; Dag.Timeout := 0 |}.

Definition two_routes_dag : Dag.DAG :=
  [ Dag.VirtualHost "example.com"
      [ Dag.RouteVertex (plain_route "/b") [kuard];
        Dag.RouteVertex (plain_route "/aaa") [kuard] ] ].

(** ** The resource caches *)

(** The invariant of a cache: the names increase strictly. *)
Definition sorted_by_name {T : Type} (Name : T -> string) (values : list T)
  : Prop :=
  StronglySorted (fun a b => Go.str_lt (Name a) (Name b) = true) values.

(** A slice of entries whose first entry is the only one that can have
    the name, without that entry. *)
Definition without {T : Type} (Name : T -> string) (name : string)
  (l2 : list T) : list T :=
  match l2 with
  | v :: l2' => if String.eqb (Name v) name then l2' else l2
  | [] => []
  end.

(** ** The request timeout *)

(** Some values of [time.ParseDuration], to run [getRequestTimeout] on:
    the durations of the strings below, and the error on everything else
    (among which the empty string and "infinity").  It stands for the
    library function on these inputs only. *)
Definition sample_ParseDuration (s : string) : option Duration :=
  if String.eqb s "0" then Some 0
  else if String.eqb s "0s" then Some 0
  else if String.eqb s "15s" then Some (15 * Second)
  else if String.eqb s "90s" then Some (90 * Second)
  else if String.eqb s "1m30s" then Some (90 * Second)
  else None.

(** ** Sample objects *)

Definition meta_with_class (class : string) : Kube.ObjectMeta :=
  {| Kube.Namespace := "default"; Kube.Name := "kuard";
     Kube.Annotations := <["kubernetes.io/ingress.class" := class]> ∅ |}.

(** An Ingress of the class [nginx], with a default backend. *)
Definition nginx_ingress : Kube.Ingress :=
  {| Kube.ing_Meta := meta_with_class "nginx";
     Kube.Spec := {| Kube.spec_Backend :=
                       Some {| Kube.ServiceName := "kuard";
                               Kube.ServicePort := Kube.FromInt 80 |};
                     Kube.Rules := [] |} |}.

(** ** The discovery responses *)

(** The nonces of the responses sent on a stream, in order. *)
Definition nonces (outs : list DiscoveryResponse) : list string :=
  map Nonce outs.

(** Nonces that are the decimal encodings of integers that increase
    strictly. *)
Definition strictly_increasing (ns : list string) : Prop :=
  exists zs : list Z, StronglySorted Z.lt zs /\ ns = map Go.FormatInt zs.

(** The integers [start], [start + 1], ..., [n] of them. *)
Definition counting_from (start : Z) (n : nat) : list Z :=
  map (fun k => start + Z.of_nat k) (seq 0 n).

(** The entries of a response are the serialised entries of a snapshot,
    in the order of the snapshot. *)
Definition serialises {M : Type} (Marshal : M -> option string)
  (typeurl : string) (resources : list Any) (snapshot : list M) : Prop :=
  Forall2 (fun any m => any_TypeUrl any = typeurl /\
                        Marshal m = Some (Value any))
          resources snapshot.

(** A translator whose clusters, endpoints, listeners and virtual hosts
    are just names, with one cluster in the cluster cache at version 3;
    and the serialisation that writes the name. *)
Definition sample_Marshal (m : Xds.Message string string string string)
  : option string :=
  match m with
  | Xds.MsgCluster c => Some c
  | Xds.MsgClusterLoadAssignment e => Some e
  | Xds.MsgListener l => Some l
  | Xds.MsgVirtualHost v => Some v
  | Xds.MsgRouteConfiguration n _ => Some n
  end.

Definition sample_cache : Xds.Cache string :=
  {| Xds.cache_values := ["default/kuard/80"]; Xds.cache_version := 3 |}.

Definition sample_translator
  : @GrpcServer.Translator string string string string :=
  {| GrpcServer.ClusterCache := sample_cache;
     GrpcServer.ClusterLoadAssignmentCache :=
       {| Xds.cache_values := []; Xds.cache_version := 0 |};
     GrpcServer.ListenerCache :=
       {| Xds.cache_values := []; Xds.cache_version := 0 |};
     GrpcServer.VirtualHostCache_HTTP := [];
     GrpcServer.VirtualHostCache_HTTPS := [];
     GrpcServer.VirtualHostCache_Cond := 0 |}.

Definition sample_server : gmap string GrpcServer.resourcer :=
  GrpcServer.newgrpcServer id id id id sample_Marshal.

Definition cluster_request : DiscoveryRequest :=
  {| req_TypeUrl := "type.googleapis.com/envoy.api.v2.Cluster";
     req_VersionInfo := "" |}.

(** Two turns of a cluster stream: the versions 1 and 2 arrive, and both
    responses are sent. *)
Definition two_turns : list GrpcServer.Turn :=
  [ GrpcServer.Received cluster_request
      (Xds.Notified 1 sample_translator true);
    GrpcServer.Received cluster_request
      (Xds.Notified 2 sample_translator true) ].

(** ** The contents of a cache *)

(** The entries of a cache, by name. *)
Definition entries {T : Type} (Name : T -> string) (values : list T)
  : gmap string T :=
  list_to_map (map (fun v => (Name v, v)) values).

(** A run of [Add] calls and a run of [Remove] calls on one cache, in the
    order of the calls. *)
Definition Add_each {T : Type} (Name : T -> string) (cs : list T)
  (values : list T) : list T :=
  fold_left (fun values c => Cache.Add Name c values) cs values.

Definition Remove_each {T : Type} (Name : T -> string) (names : list string)
  (values : list T) : list T :=
  fold_left (fun values name => Cache.Remove Name name values) names values.

(** ** The event handlers *)

(** The call traces of a [DAGAdapter] and of a [ResourceEventHandler]:
    what one call of [OnAdd], [OnUpdate] or [OnDelete] makes of calls. *)
Inductive Adapter_trace (d : Adapter.DAGAdapter)
  : list Handler.Call -> Prop :=
| Adapter_OnAdd obj : Adapter_trace d (Adapter.OnAdd d obj)
| Adapter_OnUpdate oldObj newObj :
    Adapter_trace d (Adapter.OnUpdate d oldObj newObj)
| Adapter_OnDelete obj : Adapter_trace d (Adapter.OnDelete d obj).

Inductive K8s_trace (reh : K8s.ResourceEventHandler)
  : list Handler.Call -> Prop :=
| K8s_OnAdd obj : K8s_trace reh (K8s.OnAdd reh obj)
| K8s_OnUpdate oldObj newObj :
    K8s_trace reh (K8s.OnUpdate reh oldObj newObj)
| K8s_OnDelete obj : K8s_trace reh (K8s.OnDelete reh obj).

(** A trace that changes the state and then regenerates the caches once,
    as its last call. *)
Definition ends_with_one_update (calls : list Handler.Call) : Prop :=
  exists before, calls = before ++ [Handler.update] /\
                 ~ In Handler.update before.

(** ** The streams, response by response *)

(** The response [out] answers the notification [e]: [Send] took it, and
    it carries the version that arrived and the values of that moment,
    serialised in their order under the type URL of the stream. *)
Definition answers {M V : Type} (Marshal : M -> option string)
  (messages : V -> list M) (typeurl : string) (out : DiscoveryResponse)
  (e : Xds.Select V) : Prop :=
  exists version v,
    e = Xds.Notified version v true /\
    VersionInfo out = Go.FormatInt version /\
    TypeUrl out = typeurl /\
    serialises Marshal typeurl (Resources out) (messages v).

(** How a stream ends on the events that it has not answered: none is
    left, and the stream waits in [select]; or the first of them is the
    end of the context, a snapshot with a value that does not serialise,
    or a response that [Send] refuses. *)
Definition stops_at {M V : Type} (Marshal : M -> option string)
  (messages : V -> list M) (rest : list (Xds.Select V))
  (err : option Xds.error) : Prop :=
  match rest with
  | [] => err = None
  | Xds.Done :: _ => err = Some Xds.Canceled
  | Xds.Notified _ v send_ok :: _ =>
      (err = Some Xds.MarshalError /\
       exists m, In m (messages v) /\ Marshal m = None) \/
      (err = Some Xds.SendError /\ send_ok = false /\
       forall m, In m (messages v) -> Marshal m <> None)
  end.

(** The same for a stream of [internal/grpc/grpc.go], whose notifier is
    any [resourcer]. *)
Definition resourcer_answers (out : DiscoveryResponse)
  (e : Xds.Select Grpc.resourcer) : Prop :=
  exists version n,
    e = Xds.Notified version n true /\
    VersionInfo out = Go.FormatInt version /\
    TypeUrl out = Grpc.TypeURL n /\
    Grpc.Resources n = (Resources out, None).

Definition resourcer_stops_at (rest : list (Xds.Select Grpc.resourcer))
  (err : option Xds.error) : Prop :=
  match rest with
  | [] => err = None
  | Xds.Done :: _ => err = Some Xds.Canceled
  | Xds.Notified _ n send_ok :: _ =>
      (err <> None /\ snd (Grpc.Resources n) = err) \/
      (err = Some Xds.SendError /\ send_ok = false /\
       snd (Grpc.Resources n) = None)
  end.

(** The type URLs for which [newgrpcServer] registers a resourcer. *)
Definition registered (typeurl : string) : Prop :=
  typeurl = GrpcServer.clusterType \/ typeurl = GrpcServer.endpointType \/
  typeurl = GrpcServer.listenerType \/ typeurl = GrpcServer.routeType.

(** The response [out] answers the turn: the request of the turn names a
    registered type, a notification arrived, and [Send] took the response,
    which has the type URL of the request on itself and on each of its
    resources. *)
Definition turn_answered
  {Cluster ClusterLoadAssignment Listener VirtualHost : Type}
  (out : DiscoveryResponse)
  (turn : @GrpcServer.Turn Cluster ClusterLoadAssignment Listener
            VirtualHost) : Prop :=
  exists req version t,
    turn = GrpcServer.Received req (Xds.Notified version t true) /\
    registered (req_TypeUrl req) /\
    TypeUrl out = req_TypeUrl req /\
    Forall (fun any => any_TypeUrl any = req_TypeUrl req) (Resources out).

(** How a stream of the [grpcServer] ends on the turns it has not
    answered. *)
Definition turns_stop_at
  {Cluster ClusterLoadAssignment Listener VirtualHost : Type}
  (rest : list (@GrpcServer.Turn Cluster ClusterLoadAssignment Listener
                  VirtualHost))
  (err : option Xds.error) : Prop :=
  match rest with
  | [] => err = None
  | GrpcServer.RecvFails :: _ => err = Some Xds.RecvError
  | GrpcServer.Received req sel :: _ =>
      (~ registered (req_TypeUrl req) /\
       err = Some (Xds.NoResourcer (req_TypeUrl req))) \/
      (registered (req_TypeUrl req) /\
       match sel with
       | Xds.Done => err = Some Xds.Canceled
       | Xds.Notified _ _ send_ok =>
           err = Some Xds.MarshalError \/
           (send_ok = false /\ err = Some Xds.SendError)
       end)
  end.

(** ** Sorted snapshots *)

(** [sorted] is the stable sort of [original] by name: the same entries,
    in non-decreasing order of the names, entries of one name in the
    order they had. *)
Definition sorted_copy {T : Type} (Name : T -> string)
  (sorted original : list T) : Prop :=
  Permutation sorted original /\
  StronglySorted (fun a b => String.le (Name a) (Name b)) sorted /\
  forall name,
    List.filter (fun v => String.eqb (Name v) name) sorted =
    List.filter (fun v => String.eqb (Name v) name) original.

(** ** The route visitor *)

(** The domains of the virtual host for [host]: the host, and the host
    with the port of the listener unless the host is the wildcard. *)
Definition domains_for (port host : string) : list string :=
  if String.eqb host "*" then ["*"] else [host; host +:+ port].

Definition has_domains (port : string) (vh : VirtualHost) (v : Dag.Vertex)
  : Prop :=
  Domains vh = domains_for port (vertex_host v).

(** ** The translator *)

(** The cluster [c] is the one that [addService] builds for the port [p]
    of the service [svc] under the name [name]: an EDS cluster whose
    endpoints are looked up under namespace, name and target port. *)
Definition cluster_of_port (svc : Core.Service) (p : Core.ServicePort)
  (name : string) (c : Clusterapi.Cluster) : Prop :=
  Clusterapi.cl_Name c = name /\
  Clusterapi.cl_Type c = Clusterapi.Cluster_EDS /\
  Clusterapi.LbPolicy c = Clusterapi.Cluster_ROUND_ROBIN /\
  Clusterapi.ConnectTimeout_Nanos c = 250000000 /\
  Clusterapi.EdsConfig (Clusterapi.EdsClusterConfig c) =
    {| Clusterapi.ApiType := Clusterapi.ApiConfigSource_GRPC;
       Clusterapi.acs_ClusterName := ["xds_cluster"] |} /\
  Clusterapi.ServiceName (Clusterapi.EdsClusterConfig c) =
    Kube.Namespace (Core.svc_Meta svc) +:+ "/" +:+
    Kube.Name (Core.svc_Meta svc) +:+ "/" +:+
    Kube.IntOrString_String (Core.TargetPort p).

(** The names under which the port [p] of [svc] gets a cluster: its
    number, and its name if it has one. *)
Definition port_names (svc : Core.Service) (p : Core.ServicePort)
  (name : string) : Prop :=
  Envoy.hashname 60 [Kube.Namespace (Core.svc_Meta svc);
                     Kube.Name (Core.svc_Meta svc);
                     Go.Itoa (Core.Port p)] = Some name \/
  (Core.sp_Name p <> "" /\
   Envoy.hashname 60 [Kube.Namespace (Core.svc_Meta svc);
                      Kube.Name (Core.svc_Meta svc);
                      Core.sp_Name p] = Some name).

(** The load assignment [cla] is the one that [addEndpoints] builds for
    the port [p] of the subset [s]: one locality, with one endpoint for
    each address of the subset, in order, at the port. *)
Definition assignment_of_port (e : Core.Endpoints) (s : Core.EndpointSubset)
  (p : Core.EndpointPort) (cla : Clusterapi.ClusterLoadAssignment) : Prop :=
  Envoy.hashname 60 [Kube.Namespace (Core.ep_Meta e);
                     Kube.Name (Core.ep_Meta e);
                     Go.Itoa (Core.ep_Port p)]
    = Some (Clusterapi.cla_ClusterName cla) /\
  Clusterapi.cla_Endpoints cla =
    [ {| Clusterapi.Locality_of :=
           {| Clusterapi.Region := "ap-southeast-2";
              Clusterapi.Zone := "2b";
              Clusterapi.SubZone := "banana" |};
         Clusterapi.LbEndpoints :=
           map (fun a => {| Clusterapi.sa_Protocol :=
                              Clusterapi.SocketAddress_TCP;
                            Clusterapi.Address := Core.IP a;
                            Clusterapi.PortValue :=
                              Core.ep_Port p mod 2 ^ 32 |})
               (Core.Addresses s) |} ].

(** The ports of the subsets of [e] that have an address, each with its
    subset, in order. *)
Definition ready_ports (e : Core.Endpoints)
  : list (Core.EndpointSubset * Core.EndpointPort) :=
  flat_map (fun s => match Core.Addresses s with
                     | [] => []
                     | _ => map (pair s) (Core.sub_Ports s)
                     end)
           (Core.Subsets e).

(** Endpoints with one subset of two addresses and one port, and one
    subset without addresses. *)
Definition kuard_endpoints : Core.Endpoints :=
  {| Core.ep_Meta := {| Kube.Namespace := "default"; Kube.Name := "kuard";
                        Kube.Annotations := ∅ |};
     Core.Subsets :=
       [ {| Core.Addresses := [ {| Core.IP := "10.0.0.1" |};
                                {| Core.IP := "10.0.0.2" |} ];
            Core.sub_Ports := [ {| Core.ep_Name := "http";
                                   Core.ep_Port := 8080 |} ] |};
         {| Core.Addresses := [];
            Core.sub_Ports := [ {| Core.ep_Name := "";
                                   Core.ep_Port := 9090 |} ] |} ] |}.

(** A service with a named TCP port and a UDP port. *)
Definition kuard_service : Core.Service :=
  {| Core.svc_Meta := {| Kube.Namespace := "default"; Kube.Name := "kuard";
                         Kube.Annotations := ∅ |};
     Core.Ports :=
       [ {| Core.sp_Name := "http"; Core.Protocol := "TCP"; Core.Port := 80;
            Core.TargetPort := Kube.FromInt 8080 |};
         {| Core.sp_Name := "dns"; Core.Protocol := "UDP"; Core.Port := 53;
            Core.TargetPort := Kube.FromInt 53 |} ] |}.

(** An Ingress of no class whose default backend is the port [http] of
    the service [kuard]. *)
Definition kuard_ingress : Kube.Ingress :=
  {| Kube.ing_Meta := {| Kube.Namespace := "default"; Kube.Name := "kuard";
                         Kube.Annotations := ∅ |};
     Kube.Spec := {| Kube.spec_Backend :=
                       Some {| Kube.ServiceName := "kuard";
                               Kube.ServicePort := Kube.FromString "http" |};
                     Kube.Rules := [] |} |}.

(** The cluster of the port [80] of [kuard_service], and the load
    assignment of the port [8080] of the first subset of
    [kuard_endpoints]. *)
Definition kuard_cluster : Clusterapi.Cluster :=
  Translator.cluster "default/kuard/80"
    {| Clusterapi.EdsConfig :=
         {| Clusterapi.ApiType := Clusterapi.ApiConfigSource_GRPC;
            Clusterapi.acs_ClusterName := ["xds_cluster"] |};
       Clusterapi.ServiceName := "default/kuard/8080" |}.

Definition kuard_assignment : Clusterapi.ClusterLoadAssignment :=
  {| Clusterapi.cla_ClusterName := "default/kuard/8080";
     Clusterapi.cla_Endpoints :=
       [ {| Clusterapi.Locality_of :=
              {| Clusterapi.Region := "ap-southeast-2";
                 Clusterapi.Zone := "2b";
                 Clusterapi.SubZone := "banana" |};
            Clusterapi.LbEndpoints :=
              [ {| Clusterapi.sa_Protocol := Clusterapi.SocketAddress_TCP;
                   Clusterapi.Address := "10.0.0.1";
                   Clusterapi.PortValue := 8080 |};
                {| Clusterapi.sa_Protocol := Clusterapi.SocketAddress_TCP;
                   Clusterapi.Address := "10.0.0.2";
                   Clusterapi.PortValue := 8080 |} ] |} ];
     Clusterapi.Policy := {| Clusterapi.DropOverload := 0 |} |}.

(** The route that [addIngress] builds for a path of a rule. *)
Definition route_of_path (i : Kube.Ingress) (r : Route)
  (p : Kube.HTTPIngressPath) : Prop :=
  Match r = Envoy.pathToRouteMatch p /\
  exists cl, Envoy.ingressBackendToClusterName i (Kube.Backend p) = Some cl /\
             Action_of r = Envoy.clusteraction cl.

(** The virtual host that [addIngress] builds for a rule: named by
    namespace, name and host, for the one domain that is the host, with
    one route for each path of the rule, in order. *)
Definition vhost_of_rule (i : Kube.Ingress) (vh : VirtualHost)
  (rule : Kube.IngressRule) : Prop :=
  Envoy.hashname 60 [Kube.Namespace (Kube.ing_Meta i);
                     Kube.Name (Kube.ing_Meta i); Kube.Host rule]
    = Some (vh_Name vh) /\
  Domains vh = [Kube.Host rule] /\
  exists paths, Kube.HTTP rule = Some paths /\
                Forall2 (route_of_path i) (Routes vh) paths.

(** The rules before the first rule whose [HTTP] is nil. *)
Fixpoint leading_rules (rules : list Kube.IngressRule)
  : list Kube.IngressRule :=
  match rules with
  | [] => []
  | rule :: rest =>
      match Kube.HTTP rule with
      | Some _ => rule :: leading_rules rest
      | None => []
      end
  end.

(** The class annotation is absent or names [contour]. *)
Definition admitted_by_translator (i : Kube.Ingress) : Prop :=
  Kube.Annotations (Kube.ing_Meta i) !! "kubernetes.io/ingress.class" = None \/
  Kube.Annotations (Kube.ing_Meta i) !! "kubernetes.io/ingress.class"
    = Some "contour".

(** An Ingress with three rules, the second of which has no [HTTP]. *)
Definition three_rules_ingress : Kube.Ingress :=
  {| Kube.ing_Meta := {| Kube.Namespace := "default"; Kube.Name := "web";
                         Kube.Annotations := ∅ |};
     Kube.Spec :=
       {| Kube.spec_Backend := None;
          Kube.Rules :=
            [ {| Kube.Host := "a.example.com";
                 Kube.HTTP :=
                   Some [ {| Kube.Path := "/";
                             Kube.Backend :=
                               {| Kube.ServiceName := "kuard";
                                  Kube.ServicePort := Kube.FromInt 80 |} |} ]
              |};
              {| Kube.Host := "b.example.com"; Kube.HTTP := None |};
              {| Kube.Host := "c.example.com"; Kube.HTTP := Some [] |} ] |} |}.

(** A call that adds to a cache, a call that removes from one, and the
    removal from the same cache of the entry that a call adds. *)
Definition is_Add (c : Translator.Call) : Prop :=
  match c with
  | Translator.ClusterCache_Add _
  | Translator.ClusterLoadAssignmentCache_Add _
  | Translator.VirtualHostCache_Add _ => True
  | _ => False
  end.

Definition is_Remove (c : Translator.Call) : Prop :=
  match c with
  | Translator.ClusterCache_Remove _
  | Translator.ClusterLoadAssignmentCache_Remove _
  | Translator.VirtualHostCache_Remove _ => True
  | _ => False
  end.

Definition removal_of (c : Translator.Call) : Translator.Call :=
  match c with
  | Translator.ClusterCache_Add c =>
      Translator.ClusterCache_Remove (Clusterapi.cl_Name c)
  | Translator.ClusterLoadAssignmentCache_Add e =>
      Translator.ClusterLoadAssignmentCache_Remove
        (Clusterapi.cla_ClusterName e)
  | Translator.VirtualHostCache_Add v =>
      Translator.VirtualHostCache_Remove (vh_Name v)
  | c => c
  end.

(** ** [recomputevhost] *)




Section RecomputeVocabulary.

Variable hashname : Z -> list string -> option string.
Variable ParseDuration : string -> option Duration.




End RecomputeVocabulary.





(** ** The IngressRoute metrics *)

(** The number of the statuses that satisfy [P] and have the key [k]. *)
Definition tally (P : Metrics.Status -> bool)
  (key : Metrics.Status -> Metrics.Meta) (statuses : list Metrics.Status)
  (k : Metrics.Meta) : Z :=
  Z.of_nat (length (List.filter (fun v => P v && bool_decide (key v = k))
                                statuses)).

(** A counter of a Go map: a key is present once it has been counted. *)
Definition counted (n : Z) : option Z := if n =? 0 then None else Some n.

(** The two keys of a status: by virtual host and namespace, and by
    namespace alone. *)
Definition by_vhost (v : Metrics.Status) : Metrics.Meta :=
  {| Metrics.VHost := Metrics.Vhost v;
     Metrics.Namespace := Metrics.Object_Namespace v |}.

Definition by_namespace (v : Metrics.Status) : Metrics.Meta :=
  {| Metrics.VHost := ""; Metrics.Namespace := Metrics.Object_Namespace v |}.

Section MetricsVocabulary.

Variable StatusValid StatusInvalid StatusOrphaned : string.

(** The cases of the [switch], which are tried in order. *)
Definition is_valid (v : Metrics.Status) : bool :=
  String.eqb (Metrics.Status_of v) StatusValid.

Definition is_invalid (v : Metrics.Status) : bool :=
  negb (is_valid v) && String.eqb (Metrics.Status_of v) StatusInvalid.

Definition is_orphaned (v : Metrics.Status) : bool :=
  negb (is_valid v) && negb (is_invalid v) &&
  String.eqb (Metrics.Status_of v) StatusOrphaned.

End MetricsVocabulary.

(** The loop of a counter map on its own: the statuses that satisfy [P]
    are counted under their key. *)
Definition tally_map (P : Metrics.Status -> bool)
  (key : Metrics.Status -> Metrics.Meta) (statuses : list Metrics.Status)
  (m : gmap Metrics.Meta Z) : gmap Metrics.Meta Z :=
  fold_left (fun m v => if P v then Metrics.incr m (key v) else m) statuses m.

(** Three IngressRoutes of the namespace [default]: a valid root, an
    invalid root and an orphan. *)
Definition three_statuses : list Metrics.Status :=
  [ {| Metrics.Object_Namespace := "default";
       Metrics.Object_VirtualHost := true;
       Metrics.Status_of := "valid"; Metrics.Vhost := "a.example.com" |};
    {| Metrics.Object_Namespace := "default";
       Metrics.Object_VirtualHost := true;
       Metrics.Status_of := "invalid"; Metrics.Vhost := "b.example.com" |};
    {| Metrics.Object_Namespace := "default";
       Metrics.Object_VirtualHost := false;
       Metrics.Status_of := "orphaned"; Metrics.Vhost := "" |} ].

(** ** Paths *)

(** The four bytes that make a path a regular expression: the opening
    bracket, the opening parenthesis, the star and the backslash. *)
Definition regex_metacharacters : list ascii :=
  ["["%char; "("%char; "*"%char; "\"%char].

(* ===================================================================== *)
(** * Facts about strings and the digest *)
(* ===================================================================== *)

Lemma hex_length (st : SHA256.state) : String.length (SHA256.hex st) = 64%nat.
Proof. reflexivity. Qed.

Lemma Sum256_hex_length (s : string) : Go.len (SHA256.Sum256_hex s) = 64.
Proof. unfold Go.len, SHA256.Sum256_hex. now rewrite hex_length. Qed.

(** The constants, as FIPS 180-4 prints them. *)
Example K_first_last :
  nth 0 SHA256.K 0 = 0x428a2f98 /\ nth 63 SHA256.K 0 = 0xc67178f2 /\
  length SHA256.K = 64%nat /\
  SHA256.h0 SHA256.init = 0x6a09e667 /\ SHA256.h7 SHA256.init = 0x5be0cd19.
Proof. vm_compute. repeat split. Qed.

(** The test vectors of FIPS 180-4. *)
Example Sum256_empty :
  SHA256.Sum256_hex "" =
  "e3b0c44298fc1c149afbf4c8996fb92427ae41e4649b934ca495991b7852b855".
Proof. vm_compute. reflexivity. Qed.

Example Sum256_abc :
  SHA256.Sum256_hex "abc" =
  "ba7816bf8f01cfea414140de5dae2223b00361a396177a9cb410ff61f20015ad".
Proof. vm_compute. reflexivity. Qed.

Example Sum256_two_blocks :
  SHA256.Sum256_hex "abcdbcdecdefdefgefghfghighijhijkijkljklmklmnlmnomnopnopq" =
  "248d6a61d20638b8e5c026930c3e6039a33ce45964ff2167f6ecedd419db06c1".
Proof. vm_compute. reflexivity. Qed.

Lemma substring_0_length (n : nat) (s : string) :
  String.length (String.substring 0 n s) = Nat.min n (String.length s).
Proof.
  revert n. induction s as [|c s IH]; intros [|n]; simpl; auto.
Qed.

Lemma substring_0_all (n : nat) (s : string) :
  (String.length s <= n)%nat -> String.substring 0 n s = s.
Proof.
  revert n. induction s as [|c s IH]; intros [|n] H; simpl in *;
    try reflexivity; try lia.
  f_equal. apply IH. lia.
Qed.

Lemma slice_to_Some (s : string) (k : Z) :
  0 <= k <= Go.len s ->
  Go.slice_to s k = Some (String.substring 0 (Z.to_nat k) s).
Proof.
  intros [H0 H1]. unfold Go.slice_to.
  apply Z.leb_le in H0, H1. now rewrite H0, H1.
Qed.

Lemma slice_to_len (s r : string) (k : Z) :
  Go.slice_to s k = Some r -> Go.len r = k.
Proof.
  unfold Go.slice_to.
  destruct (0 <=? k) eqn:H0; simpl; [|discriminate].
  destruct (k <=? Go.len s) eqn:H1; [|discriminate].
  intros [= <-]. apply Z.leb_le in H0, H1. unfold Go.len in *.
  rewrite substring_0_length. lia.
Qed.

(* ===================================================================== *)
(** * The name hasher follows the reference algorithm *)
(* ===================================================================== *)

Lemma min_spec (a b : Z) : Envoy.min a b = Z.min a b.
Proof. unfold Envoy.min. destruct (a >? b) eqn:E; lia. Qed.

(** [truncate] on a length that is not negative is the truncation rule. *)
Lemma truncate_fit (l : Z) (s x : string) :
  0 <= l ->
  Envoy.truncate l s x = Some (Reference.fit (Z.to_nat l) s x).
Proof.
  intros Hl. unfold Envoy.truncate, Reference.fit, Reference.prefix, Go.len.
  destruct (l >=? Z.of_nat (String.length s)) eqn:E1.
  - assert ((String.length s <=? Z.to_nat l)%nat = true) as ->
      by (apply Nat.leb_le; lia).
    reflexivity.
  - assert ((String.length s <=? Z.to_nat l)%nat = false) as ->
      by (apply Nat.leb_gt; lia).
    destruct (l <=? Z.of_nat (String.length x)) eqn:E2.
    + assert ((Z.to_nat l <=? String.length x)%nat = true) as ->
        by (apply Nat.leb_le; lia).
      rewrite min_spec, slice_to_Some by (unfold Go.len; lia).
      do 2 f_equal. lia.
    + assert ((Z.to_nat l <=? String.length x)%nat = false) as ->
        by (apply Nat.leb_gt; lia).
      rewrite slice_to_Some by (unfold Go.len; lia).
      do 3 f_equal. lia.
Qed.

Lemma gt_ltb (l : Z) (r : string) :
  0 <= l ->
  (l >? Go.len r) = (String.length r <? Z.to_nat l)%nat.
Proof.
  intros Hl. unfold Go.len.
  destruct (String.length r <? Z.to_nat l)%nat eqn:E.
  - apply Nat.ltb_lt in E. lia.
  - apply Nat.ltb_ge in E. lia.
Qed.

Lemma quot_of_nat (l : Z) (n : nat) :
  0 <= l -> Z.to_nat (Z.quot l (Z.of_nat n)) = (Z.to_nat l / n)%nat.
Proof.
  intros Hl. destruct n as [|n].
  - simpl. now destruct l.
  - rewrite Z.quot_div_nonneg by lia.
    rewrite <- (Z2Nat.id l) at 1 by lia.
    rewrite <- Nat2Z.inj_div. apply Nat2Z.id.
Qed.

Lemma hashname_loop_reference (l : Z) (h : string) (k : nat)
  (s : list string) :
  0 <= l -> Go.len h = 64 -> (k <= length s)%nat ->
  Envoy.hashname_loop l h k s = Some (Reference.parts (Z.to_nat l) h k s).
Proof.
  intros Hl Hh. revert s. induction k as [|n IH]; intros s Hk; simpl.
  - rewrite min_spec, Hh. unfold Reference.prefix.
    destruct (Z.le_gt_cases l 64).
    + rewrite Z.min_r by lia. rewrite slice_to_Some by lia. reflexivity.
    + rewrite Z.min_l by lia. rewrite slice_to_Some by lia.
      unfold Go.len in Hh.
      rewrite !substring_0_all by lia. reflexivity.
  - destruct (lookup_lt_is_Some_2 s n) as [sn Hsn]; [lia|].
    rewrite Hsn. unfold Envoy.shorthash.
    rewrite slice_to_Some by lia.
    assert (0 <= Z.quot l (Z.of_nat (length s))) as Hq
      by (apply Z.quot_pos; lia).
    rewrite truncate_fit by exact Hq.
    rewrite quot_of_nat by exact Hl.
    change (Z.to_nat 6) with 6%nat. unfold Reference.prefix.
    set (f := fun si => Reference.fit (Z.to_nat l / length s) si
                          (String.substring 0 6 h)).
    assert (alter f n s = <[n := f sn]> s) as ->.
    { apply list_eq. intros j. destruct (decide (n = j)) as [<-|Hne].
      - rewrite list_lookup_alter_eq, Hsn.
        rewrite list_lookup_insert_eq by lia. reflexivity.
      - rewrite list_lookup_alter_ne, list_lookup_insert_ne by done.
        reflexivity. }
    unfold Go.Join. rewrite gt_ltb by exact Hl.
    destruct (String.length _ <? Z.to_nat l)%nat; [reflexivity|].
    apply IH. rewrite length_insert. lia.
Qed.

Lemma hashname_reference (l : Z) (s : list string) :
  0 <= l ->
  Envoy.hashname l s = Some (Reference.hashname (Z.to_nat l) s).
Proof.
  intros Hl. unfold Envoy.hashname, Reference.hashname, Go.Join.
  rewrite gt_ltb by exact Hl.
  destruct (String.length _ <? Z.to_nat l)%nat; [reflexivity|].
  apply hashname_loop_reference; auto using Sum256_hex_length.
Qed.

(** Whatever the length asked for, a result is no longer than it. *)
Lemma hashname_loop_bound (l : Z) (h : string) (k : nat) (s : list string)
  (r : string) :
  Envoy.hashname_loop l h k s = Some r -> Go.len r <= l.
Proof.
  revert s. induction k as [|n IH]; intros s; simpl.
  - intros H. apply slice_to_len in H. rewrite H, min_spec. lia.
  - destruct (s !! n) as [sn|]; [|discriminate].
    destruct (Go.slice_to h Envoy.shorthash) as [short|]; [|discriminate].
    destruct (Envoy.truncate _ sn short) as [t|]; [|discriminate].
    destruct (l >? Go.len (Go.Join (<[n:=t]> s) "/")) eqn:E.
    + intros [= <-]. lia.
    + apply IH.
Qed.

Lemma hashname_bound (l : Z) (s : list string) (r : string) :
  Envoy.hashname l s = Some r -> Go.len r <= l.
Proof.
  unfold Envoy.hashname.
  destruct (l >? Go.len (Go.Join s "/")) eqn:E.
  - intros [= <-]. lia.
  - apply hashname_loop_bound.
Qed.

(** A negative length makes the slice expressions panic. *)
Lemma hashname_negative (l : Z) (s : list string) :
  l < 0 -> Envoy.hashname l s = None.
Proof.
  intros Hl. destruct (Envoy.hashname l s) as [r|] eqn:E; [|reflexivity].
  apply hashname_bound in E. unfold Go.len in E. lia.
Qed.

(** The two copies are one function. *)
Lemma hashname_copies (l : Z) (s : list string) :
  Route.hashname l s = Envoy.hashname l s.
Proof. reflexivity. Qed.

Lemma hashname_total (l : Z) (s : list string) :
  0 <= l -> exists r, Envoy.hashname l s = Some r /\ Go.len r <= l.
Proof.
  intros Hl. eexists. split; [apply hashname_reference; exact Hl|].
  apply (hashname_bound l s). apply hashname_reference; exact Hl.
Qed.

(** The name hasher at work: a name under the limit, a single part
    replaced by the start of the digest, and a last part truncated to a
    third of the limit with the short hash for its end. *)
Example hashname_under_limit :
  Envoy.hashname 60 ["default"; "kuard"; "80"] = Some "default/kuard/80".
Proof. vm_compute. reflexivity. Qed.

Example hashname_digest :
  Envoy.hashname 12 ["gammagammagamma"] = Some "0d350ea5c204".
Proof. vm_compute. reflexivity. Qed.

Example hashname_truncated :
  Envoy.hashname 60
    ["default"; "my-sevice-name";
     "my-very-very-long-service-host-name.my.domainname"] =
  Some "default/my-sevice-name/my-very-very--665863".
Proof. vm_compute. reflexivity. Qed.

(** C1. For every target length [L] and every list of parts [s]: when [L]
    is a length (not negative) [hashname] returns exactly what the
    reference algorithm of section 4.1 returns; whenever it returns, the
    result is at most [L] characters long; and the copy in the route
    visitor is the same function as the copy in the translator, so equal
    inputs give equal names everywhere. *)
Theorem hashname_implements_reference (L : Z) (s : list string) :
  (0 <= L ->
   Envoy.hashname L s = Some (Reference.hashname (Z.to_nat L) s)) /\
  (forall r, Envoy.hashname L s = Some r -> Go.len r <= L) /\
  Route.hashname L s = Envoy.hashname L s.
Proof.
  split; [apply hashname_reference|].
  split; [intros r; apply hashname_bound|apply hashname_copies].
Qed.

Lemma hashname_implements_reference_witness :
  0 <= 19 /\
  Envoy.hashname 19 ["gammagamma"; "betabetabeta"] =
    Some (Reference.hashname (Z.to_nat 19) ["gammagamma"; "betabetabeta"]).
Proof.
  assert (0 <= 19) as H by lia.
  split; [exact H|].
  exact (proj1 (hashname_implements_reference 19
                  ["gammagamma"; "betabetabeta"]) H).
Defined.

(* ===================================================================== *)
(** * Facts about the sorting functions *)
(* ===================================================================== *)

Lemma sift_Permutation_any {A : Type} (less : A -> A -> bool) (x : A)
  (acc : list A) :
  Permutation (Go.sift less x acc) (x :: acc).
Proof.
  induction acc as [|y ys IH]; simpl; [reflexivity|].
  destruct (less x y); [|reflexivity].
  rewrite IH. apply perm_swap.
Qed.

Section SortFacts.

Context {A : Type} (less : A -> A -> bool).

Lemma sift_Permutation (x : A) (acc : list A) :
  Permutation (Go.sift less x acc) (x :: acc).
Proof. apply sift_Permutation_any. Qed.

Lemma fold_sift_Permutation (l acc : list A) :
  Permutation (fold_left (fun acc x => Go.sift less x acc) l acc)
              (rev l ++ acc).
Proof.
  revert acc. induction l as [|x l IH]; intros acc; simpl; [reflexivity|].
  rewrite IH, sift_Permutation, <- app_assoc. simpl.
  apply Permutation_app_head. reflexivity.
Qed.

Lemma insertionSort_Permutation (l : list A) :
  Permutation (Go.insertionSort less l) l.
Proof.
  unfold Go.insertionSort.
  rewrite <- Permutation_rev, fold_sift_Permutation, app_nil_r.
  symmetry. apply Permutation_rev.
Qed.

(** Two comparisons that agree on the elements of a slice sort it alike. *)
Lemma sift_ext (less' : A -> A -> bool) (x : A) (acc : list A) :
  (forall y, In y acc -> less x y = less' x y) ->
  Go.sift less x acc = Go.sift less' x acc.
Proof.
  induction acc as [|y ys IH]; intros H; simpl; [reflexivity|].
  rewrite <- (H y) by (left; reflexivity).
  destruct (less x y); [|reflexivity].
  f_equal. apply IH. intros z Hz. apply H. right. exact Hz.
Qed.

Lemma fold_sift_ext (less' : A -> A -> bool) (l acc : list A) :
  (forall x y, In x (l ++ acc) -> In y (l ++ acc) -> less x y = less' x y) ->
  fold_left (fun acc x => Go.sift less x acc) l acc =
  fold_left (fun acc x => Go.sift less' x acc) l acc.
Proof.
  revert acc. induction l as [|x l IH]; intros acc H; simpl; [reflexivity|].
  rewrite (sift_ext less' x acc).
  - apply IH. intros a b Ha Hb.
    assert (forall c, In c (l ++ Go.sift less' x acc) ->
                      In c ((x :: l) ++ acc)) as Hin.
    { intros c Hc. apply in_app_or in Hc. destruct Hc as [Hc|Hc].
      - simpl. right. apply in_or_app. left. exact Hc.
      - apply (Permutation_in _ (@sift_Permutation_any A less' x acc)) in Hc.
        destruct Hc as [<-|Hc]; [left; reflexivity|].
        simpl. right. apply in_or_app. right. exact Hc. }
    apply H; apply Hin; assumption.
  - intros y Hy. apply H; [left; reflexivity|].
    simpl. right. apply in_or_app. right. exact Hy.
Qed.

End SortFacts.

(** The slice that [insertionSort] leaves is sorted, for every comparison
    that is asymmetric and whose negation is transitive; equal elements
    keep their order. *)
Section SortOrder.

Context {A : Type} (less : A -> A -> bool).

Hypothesis less_asym : forall x y, less x y = true -> less y x = false.
Hypothesis nless_trans :
  forall x y z, less x y = false -> less y z = false -> less x z = false.

Lemma sift_sorted (x : A) (acc : list A) :
  StronglySorted (fun u v => less u v = false) acc ->
  StronglySorted (fun u v => less u v = false) (Go.sift less x acc).
Proof.
  induction 1 as [|y ys Hys IH Hy]; simpl.
  - constructor; constructor.
  - destruct (less x y) eqn:E.
    + constructor; [exact IH|].
      apply Forall_forall. intros z Hz. apply list_elem_of_In in Hz.
      apply (Permutation_in _ (sift_Permutation less x ys)) in Hz.
      destruct Hz as [<-|Hz]; [apply less_asym; exact E|].
      rewrite Forall_forall in Hy. apply Hy, list_elem_of_In, Hz.
    + constructor; [constructor; assumption|].
      constructor; [exact E|].
      eapply Forall_impl; [exact Hy|].
      intros z Hz. simpl in Hz. eapply nless_trans; eassumption.
Qed.

Lemma fold_sift_sorted (l acc : list A) :
  StronglySorted (fun u v => less u v = false) acc ->
  StronglySorted (fun u v => less u v = false)
    (fold_left (fun acc x => Go.sift less x acc) l acc).
Proof.
  revert acc. induction l as [|x l IH]; intros acc H; simpl; [exact H|].
  apply IH, sift_sorted, H.
Qed.

Lemma StronglySorted_rev (R : A -> A -> Prop) (l : list A) :
  StronglySorted R l -> StronglySorted (fun a b => R b a) (rev l).
Proof.
  induction 1 as [|x l Hl IH Hx]; simpl; [constructor|].
  apply StronglySorted_app_2; [|exact IH|repeat constructor].
  intros a b Ha Hb. apply list_elem_of_In in Ha, Hb.
  destruct Hb as [<-|[]]. apply in_rev in Ha.
  rewrite Forall_forall in Hx. apply Hx, list_elem_of_In, Ha.
Qed.

Lemma insertionSort_sorted (l : list A) :
  StronglySorted (fun a b => less b a = false) (Go.insertionSort less l).
Proof.
  unfold Go.insertionSort.
  apply (StronglySorted_rev (fun u v => less u v = false)).
  apply fold_sift_sorted. constructor.
Qed.

End SortOrder.

Section SortStable.

Context {A : Type} (less : A -> A -> bool) (P : A -> bool).

(** [P] selects elements none of which is less than another. *)
Hypothesis P_class : forall x y, P x = true -> P y = true -> less x y = false.

Lemma sift_filter (x : A) (acc : list A) :
  List.filter P (Go.sift less x acc) = List.filter P (x :: acc).
Proof.
  induction acc as [|y ys IH]; [reflexivity|].
  cbn [Go.sift]. destruct (less x y) eqn:E; [|reflexivity].
  cbn [List.filter] in *. rewrite IH.
  destruct (P x) eqn:Px, (P y) eqn:Py; try reflexivity.
  rewrite P_class in E by assumption. discriminate.
Qed.

Lemma fold_sift_filter (l acc : list A) :
  List.filter P (fold_left (fun acc x => Go.sift less x acc) l acc) =
  rev (List.filter P l) ++ List.filter P acc.
Proof.
  revert acc. induction l as [|x l IH]; intros acc; [reflexivity|].
  cbn [fold_left]. rewrite IH, sift_filter. cbn [List.filter].
  destruct (P x); [|reflexivity].
  cbn [rev]. rewrite <- app_assoc. reflexivity.
Qed.

Lemma filter_rev (l : list A) : List.filter P (rev l) = rev (List.filter P l).
Proof.
  induction l as [|x l IH]; [reflexivity|].
  cbn [rev List.filter]. rewrite List.filter_app, IH. cbn [List.filter].
  destruct (P x); [reflexivity|]. apply app_nil_r.
Qed.

Lemma insertionSort_stable (l : list A) :
  List.filter P (Go.insertionSort less l) = List.filter P l.
Proof.
  unfold Go.insertionSort.
  rewrite filter_rev, fold_sift_filter. cbn [List.filter].
  rewrite app_nil_r. apply rev_involutive.
Qed.

End SortStable.

(** A sorted slice is left as it is, and an element appended to a sorted
    slice is moved left past the elements it is less than. *)
Section SortSorted.

Context {A : Type} (less : A -> A -> bool).

Lemma fold_sift_sorted_id (l acc : list A) :
  StronglySorted (fun a b => less b a = false) (rev acc ++ l) ->
  fold_left (fun acc x => Go.sift less x acc) l acc = rev l ++ acc.
Proof.
  revert acc. induction l as [|x l IH]; intros acc H; [reflexivity|].
  cbn [fold_left].
  assert (Go.sift less x acc = x :: acc) as ->.
  { destruct acc as [|y ys]; [reflexivity|]. cbn [Go.sift].
    assert (less x y = false) as ->; [|reflexivity].
    apply (StronglySorted_app_1_elem_of _ _ _ y x) in H; [exact H| |].
    - apply list_elem_of_In, in_rev. rewrite rev_involutive. left. reflexivity.
    - left. }
  rewrite IH; cbn [rev]; rewrite <- app_assoc; [reflexivity|exact H].
Qed.

Lemma insertionSort_sorted_id (l : list A) :
  StronglySorted (fun a b => less b a = false) l ->
  Go.insertionSort less l = l.
Proof.
  intros H. unfold Go.insertionSort.
  rewrite fold_sift_sorted_id by exact H.
  rewrite app_nil_r. apply rev_involutive.
Qed.

Lemma sift_split (x : A) (acc : list A) :
  exists a1 a2, acc = a1 ++ a2 /\ Go.sift less x acc = a1 ++ x :: a2 /\
    Forall (fun y => less x y = true) a1 /\
    (forall y ys, a2 = y :: ys -> less x y = false).
Proof.
  induction acc as [|y ys IH].
  - exists [], []. repeat split; [constructor|discriminate].
  - cbn [Go.sift]. destruct (less x y) eqn:E.
    + destruct IH as (a1 & a2 & -> & -> & H1 & H2).
      exists (y :: a1), a2. repeat split; [constructor; assumption|exact H2].
    + exists [], (y :: ys). repeat split; [constructor|].
      intros ? ? [= <- <-]. exact E.
Qed.

Lemma insertionSort_snoc (l : list A) (x : A) :
  StronglySorted (fun a b => less b a = false) l ->
  exists l1 l2, l = l1 ++ l2 /\
    Go.insertionSort less (l ++ [x]) = l1 ++ x :: l2 /\
    Forall (fun y => less x y = true) l2 /\
    (forall y, last l1 = Some y -> less x y = false).
Proof.
  intros H. unfold Go.insertionSort.
  rewrite fold_left_app. cbn [fold_left].
  rewrite fold_sift_sorted_id by exact H. rewrite app_nil_r.
  destruct (sift_split x (rev l)) as (a1 & a2 & Hl & -> & H1 & H2).
  exists (rev a2), (rev a1). repeat split.
  - rewrite <- rev_app_distr, <- Hl. symmetry. apply rev_involutive.
  - rewrite rev_app_distr. cbn [rev]. rewrite <- app_assoc. reflexivity.
  - apply Forall_forall. intros y Hy. apply list_elem_of_In, in_rev in Hy.
    rewrite Forall_forall in H1. apply H1, list_elem_of_In, Hy.
  - intros y. destruct a2 as [|z zs]; [discriminate|].
    cbn [rev]. rewrite last_snoc. intros [= <-]. eapply H2. reflexivity.
Qed.

End SortSorted.

(* ===================================================================== *)
(** * The order of strings *)
(* ===================================================================== *)

Lemma ltb_leb (a b : string) : String.ltb a b = negb (String.leb b a).
Proof.
  unfold String.ltb, String.leb. rewrite (String.compare_antisym a b).
  destruct (String.compare b a); reflexivity.
Qed.

Lemma str_lt_asym (a b : string) :
  Go.str_lt a b = true -> Go.str_lt b a = false.
Proof.
  unfold Go.str_lt, String.ltb. rewrite (String.compare_antisym b a).
  destruct (String.compare a b); simpl; congruence.
Qed.

Lemma str_lt_false_le (a b : string) :
  Go.str_lt a b = false <-> String.le b a.
Proof.
  unfold Go.str_lt, String.le. rewrite ltb_leb.
  destruct (String.leb b a); simpl; intuition congruence.
Qed.

Lemma str_lt_true_iff (a b : string) :
  Go.str_lt a b = true <-> String.le a b /\ a <> b.
Proof.
  split.
  - intros H. split.
    + apply str_lt_false_le, str_lt_asym, H.
    + intros ->. apply str_lt_asym in H as H'. congruence.
  - intros [Hle Hne]. destruct (Go.str_lt a b) eqn:E; [reflexivity|].
    apply str_lt_false_le in E. destruct Hne.
    apply (anti_symm String.le); assumption.
Qed.

Lemma str_lt_irrefl (a : string) : Go.str_lt a a = false.
Proof. apply str_lt_false_le. reflexivity. Qed.

Lemma str_lt_trans (a b c : string) :
  Go.str_lt a b = true -> Go.str_lt b c = true -> Go.str_lt a c = true.
Proof.
  rewrite !str_lt_true_iff. intros [H1 N1] [H2 N2]. split.
  - etrans; eassumption.
  - intros ->. apply N1. apply (anti_symm String.le); assumption.
Qed.

(** A string that properly extends another one is greater. *)
Lemma str_lt_extends (p q : string) :
  q <> "" -> Go.str_lt p (p +:+ q) = true.
Proof.
  intros Hq. unfold Go.str_lt, String.ltb.
  induction p as [|c p IH]; simpl.
  - destruct q; [congruence|reflexivity].
  - unfold Ascii.compare. rewrite N.compare_refl. exact IH.
Qed.

(* ===================================================================== *)
(** * The order of the routes of a virtual host *)
(* ===================================================================== *)

Lemma Less_prefix_routes (x y : Route) :
  is_prefix_route x = true -> is_prefix_route y = true ->
  Go.Reverse Route.longestRouteFirst_Less x y = greater_prefix x y.
Proof.
  unfold Go.Reverse, Route.longestRouteFirst_Less, greater_prefix,
    prefix_of, is_prefix_route.
  destruct (PathSpecifier_of (Match x)), (PathSpecifier_of (Match y));
    congruence.
Qed.

Lemma sortRoutes_greater_prefix (routes : list Route) :
  Forall (fun r => is_prefix_route r = true) routes ->
  Route.sortRoutes routes = Go.insertionSort greater_prefix routes.
Proof.
  intros H. unfold Route.sortRoutes, Go.Stable, Go.insertionSort. f_equal.
  apply fold_sift_ext. intros x y Hx Hy. rewrite app_nil_r in Hx, Hy.
  rewrite Forall_forall in H.
  apply Less_prefix_routes; apply H, list_elem_of_In; assumption.
Qed.

Lemma sortRoutes_copies (routes : list Route) :
  Virtualhost.sortRoutes routes = Route.sortRoutes routes.
Proof. reflexivity. Qed.

Lemma sortRoutes_Permutation (routes : list Route) :
  Permutation (Route.sortRoutes routes) routes.
Proof. apply insertionSort_Permutation. Qed.

Lemma sortRoutes_descending (routes : list Route) :
  Forall (fun r => is_prefix_route r = true) routes ->
  descending_prefix (Route.sortRoutes routes).
Proof.
  intros H. rewrite sortRoutes_greater_prefix by exact H.
  unfold descending_prefix.
  assert (StronglySorted (fun a b => greater_prefix b a = false)
            (Go.insertionSort greater_prefix routes)) as Hs.
  { apply insertionSort_sorted.
    - intros x y. unfold greater_prefix. apply str_lt_asym.
    - intros x y z. unfold greater_prefix. rewrite !str_lt_false_le.
      intros H1 H2. etrans; eassumption. }
  induction Hs as [|a l Hl IH Ha]; constructor; [exact IH|].
  eapply Forall_impl; [exact Ha|].
  intros b Hb. simpl in Hb. apply str_lt_false_le. exact Hb.
Qed.

Lemma sortRoutes_stable (p : string) (routes : list Route) :
  Forall (fun r => is_prefix_route r = true) routes ->
  List.filter (fun r => String.eqb (prefix_of r) p) (Route.sortRoutes routes) =
  List.filter (fun r => String.eqb (prefix_of r) p) routes.
Proof.
  intros H. rewrite sortRoutes_greater_prefix by exact H.
  apply insertionSort_stable. intros x y Hx Hy.
  apply String.eqb_eq in Hx, Hy. unfold greater_prefix.
  rewrite Hx, Hy. apply str_lt_irrefl.
Qed.

(** The stable sort of a slice is unique: two permutations of each other
    that are both in descending order of a key and list the elements of
    every key in the same order are equal.  So [sort.Stable], whatever its
    algorithm, returns on a slice of prefix routes what [sortRoutes]
    returns. *)
Section StableUnique.

Context {A : Type} (key : A -> string).

Lemma stable_sorted_unique (l1 l2 : list A) :
  Permutation l1 l2 ->
  StronglySorted (fun a b => String.le (key b) (key a)) l1 ->
  StronglySorted (fun a b => String.le (key b) (key a)) l2 ->
  (forall k, List.filter (fun a => String.eqb (key a) k) l1 =
             List.filter (fun a => String.eqb (key a) k) l2) ->
  l1 = l2.
Proof.
  revert l2. induction l1 as [|x l1 IH]; intros l2 Hp H1 H2 Hf.
  - symmetry. apply Permutation_nil. exact Hp.
  - destruct l2 as [|y l2].
    { symmetry in Hp. apply Permutation_nil in Hp. discriminate. }
    apply StronglySorted_inv in H1 as [H1 Hx].
    apply StronglySorted_inv in H2 as [H2 Hy].
    rewrite Forall_forall in Hx, Hy.
    assert (key x = key y) as Hk.
    { assert (In x (y :: l2)) as Hxin
        by (apply (Permutation_in _ Hp); left; reflexivity).
      assert (In y (x :: l1)) as Hyin
        by (apply (Permutation_in _ (Permutation_sym Hp)); left; reflexivity).
      destruct Hxin as [->|Hxin]; [reflexivity|].
      destruct Hyin as [->|Hyin]; [reflexivity|].
      apply (anti_symm String.le).
      - apply Hy, list_elem_of_In, Hxin.
      - apply Hx, list_elem_of_In, Hyin. }
    assert (x = y) as ->.
    { specialize (Hf (key x)). cbn [List.filter] in Hf.
      rewrite String.eqb_refl, <- Hk, String.eqb_refl in Hf.
      congruence. }
    f_equal. apply IH.
    + eapply Permutation_cons_inv, Hp.
    + exact H1.
    + exact H2.
    + intros k. specialize (Hf k). cbn [List.filter] in Hf.
      destruct (String.eqb (key y) k); congruence.
Qed.

End StableUnique.

Lemma sortRoutes_unique (routes sorted : list Route) :
  Forall (fun r => is_prefix_route r = true) routes ->
  Permutation sorted routes ->
  descending_prefix sorted ->
  (forall p, List.filter (fun r => String.eqb (prefix_of r) p) sorted =
             List.filter (fun r => String.eqb (prefix_of r) p) routes) ->
  sorted = Route.sortRoutes routes.
Proof.
  intros Hf Hp Hs Hst. apply (stable_sorted_unique prefix_of).
  - rewrite Hp. symmetry. apply sortRoutes_Permutation.
  - exact Hs.
  - apply sortRoutes_descending, Hf.
  - intros k. rewrite Hst. symmetry. apply sortRoutes_stable, Hf.
Qed.

(** A route that does not match by prefix compares as neither less nor
    greater, and keeps the routes on either side of it apart: the slice
    below is left as it is, [/a] before [/b]. *)
Example sortRoutes_regex_between :
  Virtualhost.sortRoutes
    [ {| Match := Virtualhost.prefixmatch "/a";
         Action_of := Route_Redirect true |};
      {| Match := Virtualhost.regexmatch "/[0-9]+";
         Action_of := Route_Redirect true |};
      {| Match := Virtualhost.prefixmatch "/b";
         Action_of := Route_Redirect true |} ] =
    [ {| Match := Virtualhost.prefixmatch "/a";
         Action_of := Route_Redirect true |};
      {| Match := Virtualhost.regexmatch "/[0-9]+";
         Action_of := Route_Redirect true |};
      {| Match := Virtualhost.prefixmatch "/b";
         Action_of := Route_Redirect true |} ].
Proof. reflexivity. Qed.

(* ===================================================================== *)
(** * What the route visitor emits *)
(* ===================================================================== *)

Lemma timeout_on_wire_intro (t : Duration) :
  timeout_on_wire t (if t =? 0 then None
                     else if t =? -1 then Some 0 else Some t).
Proof.
  unfold timeout_on_wire. repeat split.
  - intros ->. reflexivity.
  - intros ->. reflexivity.
  - intros H0 H1.
    assert ((t =? 0) = false) as -> by lia.
    assert ((t =? -1) = false) as -> by lia. reflexivity.
Qed.

Lemma actionroute_total (namespace name : string) (port : Z) (ws : bool)
  (t : Duration) :
  exists a, Route.actionroute namespace name port ws t = Some a /\
            Route.hashname 60 [namespace; name; Go.Itoa port]
              = Some (Cluster a) /\
            UseWebsocket a = (if ws then Some true else None) /\
            timeout_on_wire t (Timeout a).
Proof.
  unfold Route.actionroute.
  destruct (hashname_total 60 [namespace; name; Go.Itoa port])
    as (c & Hc & _); [lia|].
  rewrite hashname_copies, Hc. eexists. split; [reflexivity|].
  split; [reflexivity|]. simpl.
  split; [destruct ws; reflexivity|apply timeout_on_wire_intro].
Qed.

Lemma collectServices_acc (children : list Dag.Vertex)
  (svcs : list Dag.Service) :
  fold_left (fun svcs s => Route.visitService s svcs) children svcs =
  svcs ++ services_of children.
Proof.
  revert svcs. induction children as [|c cs IH]; intros svcs; simpl.
  - now rewrite app_nil_r.
  - rewrite IH. destruct c; simpl; rewrite <- ?app_assoc; reflexivity.
Qed.

Lemma collectServices_services_of (children : list Dag.Vertex) :
  Route.collectServices children = services_of children.
Proof. unfold Route.collectServices. apply collectServices_acc. Qed.

(** The callback of a plain virtual host: a serviced route vertex appends
    one route, any other vertex appends nothing. *)
Lemma visitRoute_spec (v : Dag.Vertex) (routes : list Route) :
  exists out, Route.visitRoute v routes = Some (routes ++ out) /\
    Forall2 (built_from false) out (List.filter serviced [v]).
Proof.
  destruct v as [h ch|h ch|r ch|s|ns n]; simpl;
    try (exists []; rewrite app_nil_r; split; [reflexivity|constructor]).
  rewrite collectServices_services_of.
  destruct (services_of ch) as [|svc0 svcs] eqn:E.
  - exists []. rewrite app_nil_r. split; [reflexivity|constructor].
  - destruct (actionroute_total (Dag.Namespace svc0) (Dag.Name svc0)
                (Dag.Port svc0) (Dag.Websocket r) (Dag.Timeout r))
      as (a & -> & Hc & Hw & Ht).
    eexists [_]. split; [reflexivity|].
    constructor; [|constructor].
    exists r, ch, svc0, svcs.
    split; [reflexivity|]. split; [exact E|].
    destruct (Dag.HTTPSUpgrade r); simpl.
    + split; reflexivity.
    + split; [reflexivity|]. exists a. auto.
Qed.

(** The callback of a secure virtual host. *)
Lemma visitSecureRoute_spec (v : Dag.Vertex) (routes : list Route) :
  exists out, Route.visitSecureRoute v routes = Some (routes ++ out) /\
    Forall2 (built_from true) out (List.filter serviced [v]).
Proof.
  destruct v as [h ch|h ch|r ch|s|ns n]; simpl;
    try (exists []; rewrite app_nil_r; split; [reflexivity|constructor]).
  rewrite collectServices_services_of.
  destruct (services_of ch) as [|svc0 svcs] eqn:E.
  - exists []. rewrite app_nil_r. split; [reflexivity|constructor].
  - destruct (actionroute_total (Dag.Namespace svc0) (Dag.Name svc0)
                (Dag.Port svc0) (Dag.Websocket r) (Dag.Timeout r))
      as (a & -> & Hc & Hw & Ht).
    eexists [_]. split; [reflexivity|].
    constructor; [|constructor].
    exists r, ch, svc0, svcs.
    split; [reflexivity|]. split; [exact E|].
    split; [reflexivity|].
    rewrite andb_false_r. exists a. auto.
Qed.

(** The routes a callback collects from the children of a virtual host. *)
Lemma foldM_routes (secure : bool)
  (f : Dag.Vertex -> list Route -> option (list Route))
  (Hf : forall v routes, exists out, f v routes = Some (routes ++ out) /\
          Forall2 (built_from secure) out (List.filter serviced [v]))
  (children : list Dag.Vertex) (routes : list Route) :
  exists out, Go.foldM f children routes = Some (routes ++ out) /\
    Forall2 (built_from secure) out (List.filter serviced children).
Proof.
  revert routes. induction children as [|c cs IH]; intros routes.
  - exists []. rewrite app_nil_r. split; [reflexivity|constructor].
  - cbn [Go.foldM]. destruct (Hf c routes) as (o1 & -> & H1).
    destruct (IH (routes ++ o1)) as (o2 & -> & H2).
    exists (o1 ++ o2). rewrite app_assoc. split; [reflexivity|].
    change (c :: cs) with ([c] ++ cs).
    rewrite List.filter_app. apply Forall2_app; assumption.
Qed.

Lemma existsb_filter {A : Type} (f : A -> bool) (l : list A) :
  existsb f l = match List.filter f l with [] => false | _ => true end.
Proof.
  induction l as [|x l IH]; [reflexivity|].
  simpl. destruct (f x); [reflexivity|exact IH].
Qed.

Lemma visitVertex_spec (v : Dag.Vertex) (c : Route.configs) :
  exists http https,
    Route.visitVertex v c =
      Some {| Route.ingress_http := Route.ingress_http c ++ http;
              Route.ingress_https := Route.ingress_https c ++ https |} /\
    Forall2 (emitted_by false) http (List.filter plain_with_routes [v]) /\
    Forall2 (emitted_by true) https (List.filter secure_with_routes [v]).
Proof.
  destruct c as [ch cs].
  destruct v as [h children|h children|r children|s|ns n];
    cbn [Route.visitVertex List.filter plain_with_routes secure_with_routes];
    try (exists [], []; rewrite !app_nil_r; repeat split; constructor).
  - destruct (hashname_total 60 [h]) as (name & Hn & _); [lia|].
    rewrite hashname_copies, Hn.
    destruct (foldM_routes false Route.visitRoute visitRoute_spec children [])
      as (out & -> & Hp).
    rewrite existsb_filter. cbn [app].
    destruct out as [|r0 out].
    + cbn [length Nat.ltb Nat.leb]. inversion Hp.
      exists [], []. rewrite !app_nil_r. repeat split; constructor.
    + cbn [length Nat.ltb Nat.leb].
      destruct (List.filter serviced children) as [|s0 ss] eqn:E;
        [inversion Hp|].
      eexists [_], []. rewrite app_nil_r. split; [reflexivity|].
      split; [|constructor]. constructor; [|constructor].
      split; [exact Hn|].
      exists (r0 :: out). cbn [vertex_children]. rewrite E.
      repeat split; [discriminate|exact Hp].
  - destruct (hashname_total 60 [h]) as (name & Hn & _); [lia|].
    rewrite hashname_copies, Hn.
    destruct (foldM_routes true Route.visitSecureRoute visitSecureRoute_spec
                children []) as (out & -> & Hp).
    rewrite existsb_filter. cbn [app].
    destruct out as [|r0 out].
    + cbn [length Nat.ltb Nat.leb]. inversion Hp.
      exists [], []. rewrite !app_nil_r. repeat split; constructor.
    + cbn [length Nat.ltb Nat.leb].
      destruct (List.filter serviced children) as [|s0 ss] eqn:E;
        [inversion Hp|].
      eexists [], [_]. rewrite app_nil_r. split; [reflexivity|].
      split; [constructor|]. constructor; [|constructor].
      split; [exact Hn|].
      exists (r0 :: out). cbn [vertex_children]. rewrite E.
      repeat split; [discriminate|exact Hp].
Qed.

Lemma foldM_visitVertex (dag : Dag.DAG) (c : Route.configs) :
  exists http https,
    Go.foldM Route.visitVertex dag c =
      Some {| Route.ingress_http := Route.ingress_http c ++ http;
              Route.ingress_https := Route.ingress_https c ++ https |} /\
    Forall2 (emitted_by false) http (List.filter plain_with_routes dag) /\
    Forall2 (emitted_by true) https (List.filter secure_with_routes dag).
Proof.
  revert c. induction dag as [|v dag IH]; intros c.
  - exists [], []. rewrite !app_nil_r. destruct c.
    repeat split; constructor.
  - cbn [Go.foldM].
    destruct (visitVertex_spec v c) as (h1 & s1 & -> & Hh1 & Hs1).
    destruct (IH {| Route.ingress_http := Route.ingress_http c ++ h1;
                    Route.ingress_https := Route.ingress_https c ++ s1 |})
      as (h2 & s2 & -> & Hh2 & Hs2).
    exists (h1 ++ h2), (s1 ++ s2). cbn [Route.ingress_http Route.ingress_https].
    rewrite !app_assoc. split; [reflexivity|].
    change (v :: dag) with ([v] ++ dag). rewrite !List.filter_app.
    split; apply Forall2_app; assumption.
Qed.

(** [Visit] returns for every DAG, and its two route configurations hold
    one virtual host for each virtual host vertex with a serviced route,
    in the order of the visit. *)
Lemma Visit_spec (dag : Dag.DAG) :
  exists m http https,
    Route.Visit dag = Some m /\
    m !! "ingress_http" =
      Some {| rc_Name := "ingress_http"; VirtualHosts := http |} /\
    m !! "ingress_https" =
      Some {| rc_Name := "ingress_https"; VirtualHosts := https |} /\
    Forall2 (emitted_by false) http (List.filter plain_with_routes dag) /\
    Forall2 (emitted_by true) https (List.filter secure_with_routes dag).
Proof.
  unfold Route.Visit.
  destruct (foldM_visitVertex dag
              {| Route.ingress_http := []; Route.ingress_https := [] |})
    as (http & https & -> & Hh & Hs).
  cbn [Route.ingress_http Route.ingress_https app].
  eexists _, http, https. split; [reflexivity|].
  split; [apply lookup_insert_eq|].
  split; [|split; assumption].
  rewrite lookup_insert_ne by discriminate. apply lookup_insert_eq.
Qed.

Lemma Forall2_In_l {A B : Type} (R : A -> B -> Prop) (l1 : list A)
  (l2 : list B) (x : A) :
  Forall2 R l1 l2 -> In x l1 -> exists y, In y l2 /\ R x y.
Proof.
  induction 1 as [|a b l1 l2 Hab _ IH]; intros []; subst.
  - exists b. split; [left; reflexivity|exact Hab].
  - destruct IH as (y & Hy & Hxy); [assumption|].
    exists y. split; [right; exact Hy|exact Hxy].
Qed.

Lemma built_from_prefix_route (secure : bool) (rr : Route) (v : Dag.Vertex) :
  built_from secure rr v -> is_prefix_route rr = true.
Proof.
  intros (r & ch & svc & svcs & _ & _ & Hm & _).
  unfold is_prefix_route. rewrite Hm. reflexivity.
Qed.

Lemma emitted_by_prefix_routes (secure : bool) (vh : VirtualHost)
  (v : Dag.Vertex) :
  emitted_by secure vh v ->
  exists out, Routes vh = Route.sortRoutes out /\
              Forall (fun r => is_prefix_route r = true) out.
Proof.
  intros (_ & out & _ & Hr & Hf). exists out. split; [exact Hr|].
  apply Forall_forall. intros rr Hrr. apply list_elem_of_In in Hrr.
  destruct (Forall2_In_l _ _ _ _ Hf Hrr) as (y & _ & Hy).
  eapply built_from_prefix_route, Hy.
Qed.

Lemma services_of_In (children : list Dag.Vertex) (s : Dag.Service) :
  In s (services_of children) -> In (Dag.ServiceVertex s) children.
Proof.
  unfold services_of. rewrite in_flat_map.
  intros (v & Hv & Hs). destruct v; try contradiction.
  destruct Hs as [<-|[]]. exact Hv.
Qed.

(** Every route of an emitted virtual host was built from a serviced route
    vertex under a virtual host vertex of the DAG. *)
Lemma emitted_route_origin (secure : bool) (P : Dag.Vertex -> bool)
  (vhs : list VirtualHost) (dag : Dag.DAG) (vh : VirtualHost) (rr : Route) :
  Forall2 (emitted_by secure) vhs (List.filter P dag) ->
  In vh vhs -> In rr (Routes vh) ->
  exists v rv, In v dag /\ In rv (vertex_children v) /\
               built_from secure rr rv.
Proof.
  intros HF Hvh Hrr.
  destruct (Forall2_In_l _ _ _ _ HF Hvh) as (v & Hv & _ & out & _ & Hr & Hb).
  apply filter_In in Hv as [Hv _].
  rewrite Hr in Hrr.
  apply (Permutation_in _ (sortRoutes_Permutation out)) in Hrr.
  destruct (Forall2_In_l _ _ _ _ Hb Hrr) as (rv & Hrv & Hbuilt).
  apply filter_In in Hrv as [Hrv _].
  exists v, rv. auto.
Qed.

Lemma emitted_by_nonempty (secure : bool) (vh : VirtualHost)
  (v : Dag.Vertex) :
  emitted_by secure vh v -> Routes vh <> [].
Proof.
  intros (_ & out & Hne & -> & _) H. apply Hne.
  apply Permutation_nil. rewrite <- H.
  apply sortRoutes_Permutation.
Qed.

(* ===================================================================== *)
(** * The claims about the route visitor *)
(* ===================================================================== *)

(** In a slice in descending order of prefix, a route comes before every
    route whose prefix it properly extends: the longest match is first. *)
Lemma descending_prefix_longest_first (routes : list Route) :
  descending_prefix routes ->
  forall l1 a l2 b l3, routes = l1 ++ a :: l2 ++ b :: l3 ->
  forall q, q <> "" -> prefix_of b <> prefix_of a +:+ q.
Proof.
  intros Hs l1 a l2 b l3 -> q Hq Hb.
  apply StronglySorted_app_1_r in Hs.
  apply StronglySorted_inv in Hs as [_ Ha].
  rewrite Forall_forall in Ha.
  assert (String.le (prefix_of b) (prefix_of a)) as Hle.
  { apply Ha, list_elem_of_In, in_or_app. right. left. reflexivity. }
  pose proof (str_lt_extends (prefix_of a) q Hq) as Hlt.
  rewrite <- Hb in Hlt. apply str_lt_true_iff in Hlt as [Hle' Hne].
  apply Hne. apply (anti_symm String.le); assumption.
Qed.

Lemma emitted_by_descending (secure : bool) (vh : VirtualHost)
  (v : Dag.Vertex) :
  emitted_by secure vh v ->
  Forall (fun r => is_prefix_route r = true) (Routes vh) /\
  descending_prefix (Routes vh).
Proof.
  intros H. destruct (emitted_by_prefix_routes _ _ _ H) as (out & -> & Hf).
  split.
  - apply Forall_forall. intros r Hr. apply list_elem_of_In in Hr.
    apply (Permutation_in _ (sortRoutes_Permutation out)) in Hr.
    rewrite Forall_forall in Hf. apply Hf, list_elem_of_In, Hr.
  - apply sortRoutes_descending, Hf.
Qed.

(** C2, as the code has it.  The routes of every virtual host that the
    route visitor emits, in [ingress_http] and in [ingress_https], all
    match by prefix and are in descending byte-wise order of their prefix
    strings, not of the prefix lengths.  The sort of both copies of
    [longestRouteFirst] permutes a slice of prefix routes into that order
    and keeps routes with identical prefixes in the order they had; and in
    such an order a route never follows a route whose prefix it properly
    extends. *)
Theorem routes_in_descending_prefix_order :
  (forall dag : Dag.DAG, exists m http https,
     Route.Visit dag = Some m /\
     m !! "ingress_http" =
       Some {| rc_Name := "ingress_http"; VirtualHosts := http |} /\
     m !! "ingress_https" =
       Some {| rc_Name := "ingress_https"; VirtualHosts := https |} /\
     forall vh, In vh (http ++ https) ->
       Forall (fun r => is_prefix_route r = true) (Routes vh) /\
       descending_prefix (Routes vh)) /\
  (forall routes : list Route,
     Forall (fun r => is_prefix_route r = true) routes ->
     Virtualhost.sortRoutes routes = Route.sortRoutes routes /\
     Permutation (Route.sortRoutes routes) routes /\
     descending_prefix (Route.sortRoutes routes) /\
     forall p, List.filter (fun r => String.eqb (prefix_of r) p)
                           (Route.sortRoutes routes) =
               List.filter (fun r => String.eqb (prefix_of r) p) routes) /\
  (forall routes : list Route, descending_prefix routes ->
     forall l1 a l2 b l3, routes = l1 ++ a :: l2 ++ b :: l3 ->
     forall q, q <> "" -> prefix_of b <> prefix_of a +:+ q).
Proof.
  split; [|split].
  - intros dag.
    destruct (Visit_spec dag) as (m & http & https & Hm & Hh & Hs & Fh & Fs).
    exists m, http, https. repeat (split; [assumption|]).
    intros vh Hvh. apply in_app_or in Hvh. destruct Hvh as [Hvh|Hvh].
    + destruct (Forall2_In_l _ _ _ _ Fh Hvh) as (v & _ & Hv).
      eapply emitted_by_descending, Hv.
    + destruct (Forall2_In_l _ _ _ _ Fs Hvh) as (v & _ & Hv).
      eapply emitted_by_descending, Hv.
  - intros routes H.
    split; [apply sortRoutes_copies|].
    split; [apply sortRoutes_Permutation|].
    split; [apply sortRoutes_descending, H|].
    intros p. apply sortRoutes_stable, H.
  - apply descending_prefix_longest_first.
Qed.

Lemma routes_in_descending_prefix_order_witness :
  Forall (fun r => is_prefix_route r = true)
    [ {| Match := Route.prefixmatch "/";
         Action_of := Route_Redirect true |};
      {| Match := Route.prefixmatch "/api";
         Action_of := Route_Redirect true |} ] /\
  descending_prefix
    (Route.sortRoutes
       [ {| Match := Route.prefixmatch "/";
            Action_of := Route_Redirect true |};
         {| Match := Route.prefixmatch "/api";
            Action_of := Route_Redirect true |} ]).
Proof.
  assert (Forall (fun r => is_prefix_route r = true)
            [ {| Match := Route.prefixmatch "/";
                 Action_of := Route_Redirect true |};
              {| Match := Route.prefixmatch "/api";
                 Action_of := Route_Redirect true |} ]) as H
    by (repeat constructor).
  split; [exact H|].
  exact (proj1 (proj2 (proj2
           (proj1 (proj2 routes_in_descending_prefix_order) _ H)))).
Defined.

(** C2, as the specification states it, fails: the visitor emits the
    routes [/b] and [/aaa] of [example.com] in this order, the shorter
    prefix first. *)
Lemma routes_not_in_descending_length :
  exists m rc vh,
    Route.Visit two_routes_dag = Some m /\
    m !! "ingress_http" = Some rc /\
    In vh (VirtualHosts rc) /\
    map prefix_of (Routes vh) = ["/b"; "/aaa"] /\
    ~ descending_prefix_length (Routes vh).
Proof.
  unfold Route.Visit.
  assert (Go.foldM Route.visitVertex two_routes_dag
            {| Route.ingress_http := []; Route.ingress_https := [] |} =
          Some {| Route.ingress_http :=
                    [ {| vh_Name := "example.com";
                         Domains := ["example.com"; "example.com:80"];
                         Routes :=
                           [ {| Match := Route.prefixmatch "/b";
                                Action_of := Route_Route
                                  {| Cluster := "default/kuard/80";
                                     UseWebsocket := None;
                                     Timeout := None |} |};
                             {| Match := Route.prefixmatch "/aaa";
                                Action_of := Route_Route
                                  {| Cluster := "default/kuard/80";
                                     UseWebsocket := None;
                                     Timeout := None |} |} ] |} ];
                  Route.ingress_https := [] |}) as ->
    by (vm_compute; reflexivity).
  cbn [Route.ingress_http Route.ingress_https].
  eexists _, _, _. split; [reflexivity|].
  split; [apply lookup_insert_eq|].
  split; [left; reflexivity|].
  split; [reflexivity|].
  intros Hs. apply StronglySorted_inv in Hs as [_ Hs].
  apply Forall_inv in Hs. vm_compute in Hs. lia.
Qed.

(** C5. The cluster action that [actionroute] builds for the timeout [t]
    has no timeout field for [t = 0], a timeout field of zero for the
    sentinel [t = -1], and a timeout field of exactly [t] for any other
    [t]; and every cluster action in the output of the route visitor
    carries the timeout field so derived from the timeout of the DAG route
    it was built from. *)
Theorem route_action_timeout :
  (forall (namespace name : string) (port : Z) (ws : bool) (t : Duration),
     exists a, Route.actionroute namespace name port ws t = Some a /\
               timeout_on_wire t (Timeout a)) /\
  (forall dag : Dag.DAG, exists m http https,
     Route.Visit dag = Some m /\
     m !! "ingress_http" =
       Some {| rc_Name := "ingress_http"; VirtualHosts := http |} /\
     m !! "ingress_https" =
       Some {| rc_Name := "ingress_https"; VirtualHosts := https |} /\
     forall vh rr a,
       In vh (http ++ https) -> In rr (Routes vh) ->
       Action_of rr = Route_Route a ->
       exists v r children,
         In v dag /\ In (Dag.RouteVertex r children) (vertex_children v) /\
         Match rr = Route.prefixmatch (Dag.Prefix r) /\
         timeout_on_wire (Dag.Timeout r) (Timeout a)).
Proof.
  split.
  - intros namespace name port ws t.
    destruct (actionroute_total namespace name port ws t)
      as (a & Ha & _ & _ & Ht).
    exists a. split; assumption.
  - intros dag.
    destruct (Visit_spec dag) as (m & http & https & Hm & Hh & Hs & Fh & Fs).
    exists m, http, https. repeat (split; [assumption|]).
    intros vh rr a Hvh Hrr Ha.
    assert (exists secure v rv, In v dag /\ In rv (vertex_children v) /\
                                built_from secure rr rv)
      as (secure & v & rv & Hv & Hrv & Hb).
    { apply in_app_or in Hvh. destruct Hvh as [Hvh|Hvh].
      - destruct (emitted_route_origin _ _ _ _ _ _ Fh Hvh Hrr)
          as (v & rv & H). exists false, v, rv. exact H.
      - destruct (emitted_route_origin _ _ _ _ _ _ Fs Hvh Hrr)
          as (v & rv & H). exists true, v, rv. exact H. }
    destruct Hb as (r & children & svc & svcs & -> & _ & Hmatch & Hact).
    exists v, r, children. repeat (split; [assumption|]).
    destruct (Dag.HTTPSUpgrade r && negb secure).
    + congruence.
    + destruct Hact as (a' & Ha' & _ & _ & Ht). congruence.
Qed.

Lemma route_action_timeout_witness :
  exists a, Route.actionroute "default" "kuard" 80 false (-1) = Some a /\
            Timeout a = Some 0.
Proof.
  destruct (proj1 route_action_timeout "default" "kuard" 80 false (-1))
    as (a & Ha & _ & Hinf & _).
  exists a. split; [exact Ha|]. apply Hinf. reflexivity.
Defined.

(** C8. [Visit] returns for every DAG.  [ingress_http] holds exactly one
    virtual host for each plain virtual host vertex that has a route with
    a service, and [ingress_https] one for each such secure vertex, in the
    order of the visit; the routes of an emitted virtual host are those
    built from the route vertices that have a service, so a route vertex
    without services leaves no route and a virtual host vertex without
    serviced routes leaves no virtual host.  Hence no emitted virtual host
    is empty and every emitted route comes from a route vertex of the DAG
    with a service below it. *)
Theorem emitted_routes_have_services (dag : Dag.DAG) :
  exists m http https,
    Route.Visit dag = Some m /\
    m !! "ingress_http" =
      Some {| rc_Name := "ingress_http"; VirtualHosts := http |} /\
    m !! "ingress_https" =
      Some {| rc_Name := "ingress_https"; VirtualHosts := https |} /\
    Forall2 (emitted_by false) http (List.filter plain_with_routes dag) /\
    Forall2 (emitted_by true) https (List.filter secure_with_routes dag) /\
    forall vh, In vh (http ++ https) ->
      Routes vh <> [] /\
      forall rr, In rr (Routes vh) ->
        exists v r children svc,
          In v dag /\ In (Dag.RouteVertex r children) (vertex_children v) /\
          In (Dag.ServiceVertex svc) children /\
          Match rr = Route.prefixmatch (Dag.Prefix r).
Proof.
  destruct (Visit_spec dag) as (m & http & https & Hm & Hh & Hs & Fh & Fs).
  exists m, http, https. repeat (split; [assumption|]).
  intros vh Hvh.
  assert (exists secure P, Forall2 (emitted_by secure)
            (if secure then https else http) (List.filter P dag) /\
            In vh (if secure then https else http))
    as (secure & P & HF & Hin).
  { apply in_app_or in Hvh. destruct Hvh as [Hvh|Hvh].
    - exists false, plain_with_routes. auto.
    - exists true, secure_with_routes. auto. }
  split.
  - destruct (Forall2_In_l _ _ _ _ HF Hin) as (v & _ & Hv).
    eapply emitted_by_nonempty, Hv.
  - intros rr Hrr.
    destruct (emitted_route_origin _ _ _ _ _ _ HF Hin Hrr)
      as (v & rv & Hv & Hrv & r & children & svc & svcs & -> & Hsv & Hmatch & _).
    exists v, r, children, svc. repeat (split; [assumption|]).
    split; [|exact Hmatch].
    apply services_of_In. rewrite Hsv. left. reflexivity.
Qed.

Lemma emitted_routes_have_services_witness :
  exists m http https,
    Route.Visit two_routes_dag = Some m /\
    m !! "ingress_http" =
      Some {| rc_Name := "ingress_http"; VirtualHosts := http |} /\
    m !! "ingress_https" =
      Some {| rc_Name := "ingress_https"; VirtualHosts := https |} /\
    length http = 1%nat /\ length https = 0%nat.
Proof.
  destruct (emitted_routes_have_services two_routes_dag)
    as (m & http & https & Hm & Hh & Hs & Fh & Fs & _).
  exists m, http, https. repeat (split; [assumption|]).
  apply Forall2_length in Fh, Fs. split; assumption.
Defined.

(* ===================================================================== *)
(** * The resource caches *)
(* ===================================================================== *)

(** [sort.Search] returns the boundary of a predicate that is false below
    it and true from it on. *)
Lemma Search_loop_boundary (fuel : nat) (f : nat -> bool) (i j p : nat) :
  (i <= p <= j)%nat -> (j - i <= fuel)%nat ->
  (forall k, (i <= k < p)%nat -> f k = false) ->
  (forall k, (p <= k < j)%nat -> f k = true) ->
  Go.Search_loop fuel f i j = p.
Proof.
  revert i j. induction fuel as [|fuel IH]; intros i j Hp Hfuel Hlo Hhi.
  - simpl. lia.
  - cbn [Go.Search_loop]. destruct (i <? j)%nat eqn:E.
    + apply Nat.ltb_lt in E.
      assert (i <= (i + j) / 2 < j)%nat as Hh.
      { split.
        - apply Nat.div_le_lower_bound; lia.
        - apply Nat.Div0.div_lt_upper_bound; lia. }
      destruct (f ((i + j) / 2)%nat) eqn:Ef; cbn [negb].
      * apply IH; try lia.
        -- destruct (le_lt_dec p ((i + j) / 2)) as [Hle|Hlt]; [lia|].
           rewrite Hlo in Ef by lia. discriminate.
        -- intros k Hk. apply Hlo. lia.
        -- intros k Hk. apply Hhi. lia.
      * apply IH; try lia.
        -- destruct (le_lt_dec p ((i + j) / 2)) as [Hle|Hlt]; [|lia].
           rewrite Hhi in Ef by lia. discriminate.
        -- intros k Hk. apply Hlo. lia.
        -- intros k Hk. apply Hhi. lia.
    + apply Nat.ltb_ge in E. lia.
Qed.

Lemma sift_app_pass {A : Type} (less : A -> A -> bool) (x : A)
  (a b : list A) :
  Forall (fun y => less x y = true) a ->
  Go.sift less x (a ++ b) = a ++ Go.sift less x b.
Proof.
  induction 1 as [|y a Hy _ IH]; [reflexivity|].
  cbn [app Go.sift]. rewrite Hy, IH. reflexivity.
Qed.

Lemma sift_stop {A : Type} (less : A -> A -> bool) (x : A) (b : list A) :
  Forall (fun y => less x y = false) b -> Go.sift less x b = x :: b.
Proof.
  destruct 1 as [|y b Hy _]; [reflexivity|].
  cbn [Go.sift]. rewrite Hy. reflexivity.
Qed.

(** Appending to a sorted slice and sorting again inserts the element. *)
Lemma insertionSort_insert {A : Type} (less : A -> A -> bool) (x : A)
  (l1 l2 : list A) :
  StronglySorted (fun a b => less b a = false) (l1 ++ l2) ->
  Forall (fun y => less x y = false) l1 ->
  Forall (fun y => less x y = true) l2 ->
  Go.insertionSort less ((l1 ++ l2) ++ [x]) = l1 ++ x :: l2.
Proof.
  intros Hs H1 H2. unfold Go.insertionSort.
  rewrite fold_left_app. cbn [fold_left].
  rewrite fold_sift_sorted_id by exact Hs.
  rewrite app_nil_r, rev_app_distr.
  rewrite sift_app_pass by (apply Forall_rev; exact H2).
  rewrite sift_stop by (apply Forall_rev; exact H1).
  rewrite rev_app_distr. cbn [rev]. rewrite !rev_involutive.
  rewrite <- app_assoc. reflexivity.
Qed.

Section CacheFacts.

Context {T : Type} (Name : T -> string).

Lemma sorted_by_name_nondecreasing (values : list T) :
  sorted_by_name Name values ->
  StronglySorted (fun a b => Cache.byName Name b a = false) values.
Proof.
  induction 1 as [|a l Hl IH Ha]; constructor; [exact IH|].
  eapply Forall_impl; [exact Ha|].
  intros b Hb. apply str_lt_asym. exact Hb.
Qed.

Lemma Sort_sorted (values : list T) :
  sorted_by_name Name values -> Go.Sort (Cache.byName Name) values = values.
Proof.
  intros H. apply insertionSort_sorted_id, sorted_by_name_nondecreasing, H.
Qed.

(** A sorted slice splits, at any name, into the entries below the name
    and the entries from the name on. *)
Lemma split_at_name (name : string) (values : list T) :
  sorted_by_name Name values ->
  exists l1 l2, values = l1 ++ l2 /\
    Forall (fun v => Go.str_lt (Name v) name = true) l1 /\
    Forall (fun v => Go.str_lt (Name v) name = false) l2.
Proof.
  induction 1 as [|a l Hl IH Ha].
  - exists [], []. repeat split; constructor.
  - destruct (Go.str_lt (Name a) name) eqn:E.
    + destruct IH as (l1 & l2 & -> & H1 & H2).
      exists (a :: l1), l2. repeat split; [constructor; assumption|exact H2].
    + exists [], (a :: l). repeat split; [constructor|].
      constructor; [exact E|].
      eapply Forall_impl; [exact Ha|]. intros b Hb. simpl in Hb.
      apply str_lt_false_le. apply str_lt_false_le in E.
      etrans; [exact E|]. apply str_lt_true_iff in Hb. apply Hb.
Qed.

Lemma search_split (name : string) (l1 l2 : list T) :
  Forall (fun v => Go.str_lt (Name v) name = true) l1 ->
  Forall (fun v => Go.str_lt (Name v) name = false) l2 ->
  Cache.search Name name (l1 ++ l2) = length l1.
Proof.
  intros H1 H2. unfold Cache.search, Go.Search.
  apply Search_loop_boundary.
  - rewrite length_app. lia.
  - lia.
  - intros k Hk. rewrite lookup_app_l by lia.
    destruct (lookup_lt_is_Some_2 l1 k) as [v Hv]; [lia|]. rewrite Hv.
    rewrite Forall_forall in H1. unfold Go.str_ge.
    rewrite H1; [reflexivity|]. eapply list_elem_of_lookup_2, Hv.
  - intros k Hk. rewrite length_app in Hk. rewrite lookup_app_r by lia.
    destruct (lookup_lt_is_Some_2 l2 (k - length l1)) as [v Hv]; [lia|].
    rewrite Hv. rewrite Forall_forall in H2. unfold Go.str_ge.
    rewrite H2; [reflexivity|]. eapply list_elem_of_lookup_2, Hv.
Qed.

Lemma found_split (name : string) (l1 l2 : list T) :
  Cache.found Name (length l1) name (l1 ++ l2) =
  match l2 with v :: _ => String.eqb (Name v) name | [] => false end.
Proof.
  unfold Cache.found. rewrite lookup_app_r by lia.
  rewrite Nat.sub_diag. destruct l2; reflexivity.
Qed.

Lemma Remove_split (name : string) (l1 l2 : list T) :
  sorted_by_name Name (l1 ++ l2) ->
  Forall (fun v => Go.str_lt (Name v) name = true) l1 ->
  Forall (fun v => Go.str_lt (Name v) name = false) l2 ->
  Cache.Remove Name name (l1 ++ l2) = l1 ++ without Name name l2.
Proof.
  intros Hs H1 H2. unfold Cache.Remove.
  rewrite Sort_sorted by exact Hs.
  rewrite search_split by assumption. rewrite found_split.
  destruct l2 as [|v l2]; [reflexivity|]. cbn [without].
  destruct (String.eqb (Name v) name); [|reflexivity].
  rewrite take_app_length.
  rewrite drop_app_ge by lia.
  replace (length l1 + 1 - length l1)%nat with 1%nat by lia. reflexivity.
Qed.

Lemma Add_split (c : T) (l1 l2 : list T) :
  sorted_by_name Name (l1 ++ l2) ->
  Forall (fun v => Go.str_lt (Name v) (Name c) = true) l1 ->
  Forall (fun v => Go.str_lt (Name v) (Name c) = false) l2 ->
  Cache.Add Name c (l1 ++ l2) = l1 ++ c :: without Name (Name c) l2.
Proof.
  intros Hs H1 H2. unfold Cache.Add.
  rewrite Sort_sorted by exact Hs.
  rewrite search_split by assumption. rewrite found_split.
  destruct l2 as [|v l2].
  - rewrite app_nil_r in *. cbn [without].
    rewrite <- (app_nil_r l1) at 1.
    unfold Go.Sort. rewrite insertionSort_insert.
    + reflexivity.
    + rewrite app_nil_r. apply sorted_by_name_nondecreasing, Hs.
    + eapply Forall_impl; [exact H1|]. intros y Hy.
      apply str_lt_asym. exact Hy.
    + constructor.
  - cbn [without]. destruct (String.eqb (Name v) (Name c)) eqn:E.
    + rewrite insert_app_r_alt by lia. rewrite Nat.sub_diag. reflexivity.
    + unfold Go.Sort. rewrite insertionSort_insert.
      * reflexivity.
      * apply sorted_by_name_nondecreasing, Hs.
      * eapply Forall_impl; [exact H1|]. intros y Hy.
        apply str_lt_asym. exact Hy.
      * apply String.eqb_neq in E.
        apply StronglySorted_app_1_r in Hs.
        apply StronglySorted_inv in Hs as [_ Hv].
        apply Forall_inv in H2 as Hvc.
        assert (Go.str_lt (Name c) (Name v) = true) as Hcv.
        { apply str_lt_true_iff. split; [|congruence].
          apply str_lt_false_le. exact Hvc. }
        constructor; [exact Hcv|].
        eapply Forall_impl; [exact Hv|]. intros y Hy. simpl in Hy.
        unfold Cache.byName. eapply str_lt_trans; eassumption.
Qed.

End CacheFacts.

Section CacheInvariant.

Context {T : Type} (Name : T -> string).

Lemma without_above (name : string) (l2 : list T) :
  sorted_by_name Name l2 ->
  Forall (fun v => Go.str_lt (Name v) name = false) l2 ->
  sorted_by_name Name (without Name name l2) /\
  Forall (fun v => Go.str_lt name (Name v) = true) (without Name name l2).
Proof.
  intros Hs H2. destruct l2 as [|v l2]; [split; constructor|].
  cbn [without]. apply StronglySorted_inv in Hs as [Hs Hv].
  apply Forall_inv in H2 as Hvn.
  destruct (String.eqb (Name v) name) eqn:E.
  - apply String.eqb_eq in E. subst name. split; assumption.
  - apply String.eqb_neq in E.
    assert (Go.str_lt name (Name v) = true) as Hlt.
    { apply str_lt_true_iff. split; [|congruence].
      apply str_lt_false_le. exact Hvn. }
    split; [constructor; assumption|].
    constructor; [exact Hlt|].
    eapply Forall_impl; [exact Hv|]. intros y Hy. simpl in Hy.
    eapply str_lt_trans; eassumption.
Qed.

Lemma sorted_insert (c : T) (l1 w : list T) :
  sorted_by_name Name l1 -> sorted_by_name Name w ->
  Forall (fun v => Go.str_lt (Name v) (Name c) = true) l1 ->
  Forall (fun v => Go.str_lt (Name c) (Name v) = true) w ->
  sorted_by_name Name (l1 ++ c :: w).
Proof.
  intros Hl Hw H1 Hc. apply StronglySorted_app_2.
  - intros x1 x2 Hx1 Hx2. rewrite Forall_forall in H1, Hc.
    apply list_elem_of_In in Hx2. destruct Hx2 as [<-|Hx2].
    + apply H1, Hx1.
    + eapply str_lt_trans; [apply H1, Hx1|apply Hc, list_elem_of_In, Hx2].
  - exact Hl.
  - constructor; assumption.
Qed.

Lemma sorted_remove (l1 w : list T) (name : string) :
  sorted_by_name Name l1 -> sorted_by_name Name w ->
  Forall (fun v => Go.str_lt (Name v) name = true) l1 ->
  Forall (fun v => Go.str_lt name (Name v) = true) w ->
  sorted_by_name Name (l1 ++ w).
Proof.
  intros Hl Hw H1 Hc. apply StronglySorted_app_2; [|assumption..].
  intros x1 x2 Hx1 Hx2. rewrite Forall_forall in H1, Hc.
  eapply str_lt_trans; [apply H1, Hx1|apply Hc, Hx2].
Qed.

Lemma Add_sorted (c : T) (values : list T) :
  sorted_by_name Name values -> sorted_by_name Name (Cache.Add Name c values).
Proof.
  intros Hs. destruct (split_at_name Name (Name c) values Hs)
    as (l1 & l2 & -> & H1 & H2).
  rewrite Add_split by assumption.
  destruct (without_above (Name c) l2) as [Hw Hc];
    [eapply StronglySorted_app_1_r, Hs|exact H2|].
  apply sorted_insert; try assumption.
  eapply StronglySorted_app_1_l, Hs.
Qed.

Lemma Remove_sorted (name : string) (values : list T) :
  sorted_by_name Name values ->
  sorted_by_name Name (Cache.Remove Name name values).
Proof.
  intros Hs. destruct (split_at_name Name name values Hs)
    as (l1 & l2 & -> & H1 & H2).
  rewrite Remove_split by assumption.
  destruct (without_above name l2) as [Hw Hc];
    [eapply StronglySorted_app_1_r, Hs|exact H2|].
  eapply sorted_remove; try eassumption.
  eapply StronglySorted_app_1_l, Hs.
Qed.

(** Every state of a cache is sorted by name, without duplicates. *)
Lemma reachable_sorted (values : list T) :
  Cache.reachable Name values -> sorted_by_name Name values.
Proof.
  induction 1; [constructor|apply Add_sorted|apply Remove_sorted]; assumption.
Qed.

(** [Add] then [Remove] of the name leaves what [Remove] alone leaves. *)
Lemma Remove_Add (c : T) (values : list T) :
  sorted_by_name Name values ->
  Cache.Remove Name (Name c) (Cache.Add Name c values) =
  Cache.Remove Name (Name c) values.
Proof.
  intros Hs. destruct (split_at_name Name (Name c) values Hs)
    as (l1 & l2 & -> & H1 & H2).
  rewrite Add_split by assumption.
  destruct (without_above (Name c) l2) as [Hw Hc];
    [eapply StronglySorted_app_1_r, Hs|exact H2|].
  rewrite (Remove_split Name (Name c) l1 (c :: without Name (Name c) l2)).
  - rewrite Remove_split by assumption.
    cbn [without]. rewrite String.eqb_refl. reflexivity.
  - apply sorted_insert; try assumption.
    eapply StronglySorted_app_1_l, Hs.
  - exact H1.
  - constructor; [apply str_lt_irrefl|].
    eapply Forall_impl; [exact Hc|]. intros y Hy. apply str_lt_asym, Hy.
Qed.

Lemma Remove_absent (name : string) (values : list T) :
  sorted_by_name Name values ->
  (forall v, In v values -> Name v <> name) ->
  Cache.Remove Name name values = values.
Proof.
  intros Hs Habs. destruct (split_at_name Name name values Hs)
    as (l1 & l2 & -> & H1 & H2).
  rewrite Remove_split by assumption. f_equal.
  destruct l2 as [|v l2]; [reflexivity|]. cbn [without].
  destruct (String.eqb (Name v) name) eqn:E; [|reflexivity].
  apply String.eqb_eq in E. destruct (Habs v); [|exact E].
  apply in_or_app. right. left. reflexivity.
Qed.

Lemma Remove_present (name : string) (values : list T) :
  sorted_by_name Name values ->
  (exists v, In v values /\ Name v = name) ->
  S (length (Cache.Remove Name name values)) = length values.
Proof.
  intros Hs (v & Hv & Hn). destruct (split_at_name Name name values Hs)
    as (l1 & l2 & -> & H1 & H2).
  rewrite Remove_split by assumption. rewrite !length_app.
  apply in_app_or in Hv. destruct Hv as [Hv|Hv].
  - rewrite Forall_forall in H1. apply list_elem_of_In, H1 in Hv.
    rewrite Hn, str_lt_irrefl in Hv. discriminate.
  - destruct l2 as [|u l2]; [contradiction|]. cbn [without].
    destruct (String.eqb (Name u) name) eqn:E; [simpl; lia|].
    apply String.eqb_neq in E. destruct Hv as [->|Hv]; [congruence|].
    apply StronglySorted_app_1_r in Hs.
    apply StronglySorted_inv in Hs as [_ Hu].
    rewrite Forall_forall in Hu. apply list_elem_of_In, Hu in Hv.
    apply Forall_inv in H2. rewrite Hn in Hv. congruence.
Qed.

End CacheInvariant.

(** C3, as the code has it.  In every state of a cache (the empty cache
    and what [Add] and [Remove] make of it), [Add(X)] followed by
    [Remove(X.name)] leaves the cache as [Remove(X.name)] alone leaves it.
    The snapshot after the two calls equals the snapshot before them when
    no entry named [X.name] was present; when one was present, [Add] has
    replaced it and [Remove] has removed the replacement, and the second
    snapshot is one entry shorter. *)
Theorem Add_Remove_round_trip {T : Type} (Name : T -> string) (X : T)
  (values : list T) :
  Cache.reachable Name values ->
  Cache.Values (Cache.Remove Name (Name X) (Cache.Add Name X values)) =
    Cache.Values (Cache.Remove Name (Name X) values) /\
  ((forall v, In v values -> Name v <> Name X) ->
   Cache.Values (Cache.Remove Name (Name X) (Cache.Add Name X values)) =
     Cache.Values values) /\
  ((exists v, In v values /\ Name v = Name X) ->
   S (length (Cache.Values
                (Cache.Remove Name (Name X) (Cache.Add Name X values)))) =
     length (Cache.Values values)).
Proof.
  intros Hr. apply reachable_sorted in Hr. unfold Cache.Values. cbn [app].
  rewrite Remove_Add by exact Hr. split; [reflexivity|]. split.
  - intros Habs. apply Remove_absent; assumption.
  - intros Hpres. apply Remove_present; assumption.
Qed.

Lemma Add_Remove_round_trip_witness :
  Cache.reachable fst (Cache.Add fst ("b", 2%nat) []) /\
  Cache.Values
    (Cache.Remove fst "a"
       (Cache.Add fst ("a", 1%nat) (Cache.Add fst ("b", 2%nat) []))) =
  Cache.Values (Cache.Add fst ("b", 2%nat) []).
Proof.
  assert (Cache.reachable fst (Cache.Add fst ("b", 2%nat) [])) as H
    by (apply Cache.reachable_Add, Cache.reachable_new).
  split; [exact H|].
  apply (proj1 (proj2 (Add_Remove_round_trip fst ("a", 1%nat) _ H))).
  vm_compute. intros v [<-|[]]. discriminate.
Defined.

(** C3, as the specification states it, fails when an entry of the name
    is present: the cache that holds the entry [("a", 1)] is empty after
    [Add(("a", 2))] and [Remove("a")]. *)
Lemma Add_Remove_loses_entry :
  Cache.reachable fst (Cache.Add fst ("a", 1%nat) []) /\
  Cache.Values (Cache.Add fst ("a", 1%nat) []) = [("a", 1%nat)] /\
  Cache.Values
    (Cache.Remove fst "a"
       (Cache.Add fst ("a", 2%nat) (Cache.Add fst ("a", 1%nat) []))) = [] /\
  Cache.Values
    (Cache.Remove fst "a"
       (Cache.Add fst ("a", 2%nat) (Cache.Add fst ("a", 1%nat) []))) <>
  Cache.Values (Cache.Add fst ("a", 1%nat) []).
Proof.
  split; [apply Cache.reachable_Add, Cache.reachable_new|].
  split; [reflexivity|]. split; [reflexivity|].
  vm_compute. discriminate.
Qed.

(* ===================================================================== *)
(** * The request-timeout annotation *)
(* ===================================================================== *)

Section RequestTimeoutFacts.

Variable ParseDuration : string -> option Duration.

(** Two facts about [time.ParseDuration]: it rejects the empty string
    ("time: invalid duration") and the string "infinity", which does not
    start with a sign, a digit or a period. *)
Hypothesis ParseDuration_empty : ParseDuration "" = None.
Hypothesis ParseDuration_infinity : ParseDuration "infinity" = None.

(** C4. [getRequestTimeout] on any annotation map: no timeout when the key
    is absent or its value is empty; the infinite timeout, present, for
    the value "infinity"; the parsed duration, present, for a value that
    parses; the infinite timeout, present, for a value that fails to
    parse.  The infinite timeout is 0, not 15 seconds. *)
Theorem getRequestTimeout_rules (annotations : gmap string string) :
  (annotations !! Virtualhost.requestTimeout = None \/
   annotations !! Virtualhost.requestTimeout = Some "" ->
   Virtualhost.getRequestTimeout ParseDuration annotations = (0, false)) /\
  (annotations !! Virtualhost.requestTimeout = Some "infinity" ->
   Virtualhost.getRequestTimeout ParseDuration annotations =
     (Virtualhost.infiniteTimeout, true)) /\
  (forall value d,
     annotations !! Virtualhost.requestTimeout = Some value ->
     ParseDuration value = Some d ->
     Virtualhost.getRequestTimeout ParseDuration annotations = (d, true)) /\
  (forall value,
     annotations !! Virtualhost.requestTimeout = Some value ->
     value <> "" ->
     ParseDuration value = None ->
     Virtualhost.getRequestTimeout ParseDuration annotations =
       (Virtualhost.infiniteTimeout, true)) /\
  Virtualhost.infiniteTimeout = 0 /\
  Virtualhost.infiniteTimeout <> 15 * Second.
Proof.
  unfold Virtualhost.getRequestTimeout.
  split; [|split; [|split; [|split; [|split]]]].
  - intros [-> | ->]; reflexivity.
  - intros ->. reflexivity.
  - intros value d -> Hd.
    destruct (String.eqb_spec value "") as [->|_]; [congruence|].
    destruct (String.eqb_spec value "infinity") as [->|_]; [congruence|].
    rewrite Hd. reflexivity.
  - intros value -> Hne Hd.
    destruct (String.eqb_spec value "") as [->|_]; [congruence|].
    destruct (String.eqb_spec value "infinity") as [->|_]; [reflexivity|].
    rewrite Hd. reflexivity.
  - reflexivity.
  - discriminate.
Qed.

End RequestTimeoutFacts.

Lemma getRequestTimeout_rules_witness :
  Virtualhost.getRequestTimeout sample_ParseDuration
    (<[Virtualhost.requestTimeout := "1m30s"]> ∅) = (90 * Second, true).
Proof.
  apply (proj1 (proj2 (proj2
           (getRequestTimeout_rules sample_ParseDuration
              eq_refl eq_refl
              (<[Virtualhost.requestTimeout := "1m30s"]> ∅))))
           "1m30s" (90 * Second)).
  - apply lookup_insert_eq.
  - reflexivity.
Defined.

(* ===================================================================== *)
(** * The ingress-class filter *)
(* ===================================================================== *)

Import Kube Handler.

Lemma Adapter_valid_ingress (d : Adapter.DAGAdapter) (i : Ingress) :
  Adapter.validIngressClass d (ObjIngress i) = true <->
  Annotations (ing_Meta i) !! "kubernetes.io/ingress.class" = None \/
  Annotations (ing_Meta i) !! "kubernetes.io/ingress.class" =
    Some (Adapter.ingressClass d).
Proof.
  cbn [Adapter.validIngressClass].
  destruct (Annotations (ing_Meta i) !! "kubernetes.io/ingress.class")
    as [class|]; [|intuition].
  rewrite String.eqb_eq. split.
  - intros ->. right. reflexivity.
  - intros [H|H]; congruence.
Qed.

Lemma K8s_valid_ingress (reh : K8s.ResourceEventHandler) (i : Ingress) :
  K8s.validIngressClass reh (ObjIngress i) = true <->
  Annotations (ing_Meta i) !! "kubernetes.io/ingress.class" = None \/
  Annotations (ing_Meta i) !! "kubernetes.io/ingress.class" =
    Some (K8s.ingressClass reh).
Proof.
  cbn [K8s.validIngressClass].
  destruct (Annotations (ing_Meta i) !! "kubernetes.io/ingress.class")
    as [class|]; [|intuition].
  rewrite String.eqb_eq. split.
  - intros ->. right. reflexivity.
  - intros [H|H]; congruence.
Qed.

(** C7. [OnAdd] of an Ingress makes the calls [Insert] and [update] if
    and only if the ingress-class annotation is absent or equal to the
    configured class, and makes no call at all otherwise, so that the
    state, whatever it is, stays as it was.  The configured class is the
    field [IngressClass], or "contour" when the field is empty.  The same
    holds of both handlers, and of [addIngress] of the translator, whose
    class is "contour". *)
Theorem ingress_class_admission :
  (forall (d : Adapter.DAGAdapter) (i : Ingress),
     (Adapter.OnAdd d (ObjIngress i) = [Insert (ObjIngress i); update] <->
      Annotations (ing_Meta i) !! "kubernetes.io/ingress.class" = None \/
      Annotations (ing_Meta i) !! "kubernetes.io/ingress.class" =
        Some (Adapter.ingressClass d)) /\
     (Adapter.OnAdd d (ObjIngress i) = [] <->
      exists class,
        Annotations (ing_Meta i) !! "kubernetes.io/ingress.class" = Some class
        /\ class <> Adapter.ingressClass d) /\
     (Adapter.IngressClass d = "" -> Adapter.ingressClass d = "contour") /\
     (Adapter.IngressClass d <> "" ->
      Adapter.ingressClass d = Adapter.IngressClass d)) /\
  (forall (reh : K8s.ResourceEventHandler) (i : Ingress),
     (K8s.OnAdd reh (ObjIngress i) = [Insert (ObjIngress i); update] <->
      Annotations (ing_Meta i) !! "kubernetes.io/ingress.class" = None \/
      Annotations (ing_Meta i) !! "kubernetes.io/ingress.class" =
        Some (K8s.ingressClass reh)) /\
     (K8s.OnAdd reh (ObjIngress i) = [] <->
      exists class,
        Annotations (ing_Meta i) !! "kubernetes.io/ingress.class" = Some class
        /\ class <> K8s.ingressClass reh) /\
     (K8s.IngressClass reh = "" -> K8s.ingressClass reh = "contour") /\
     (K8s.IngressClass reh <> "" ->
      K8s.ingressClass reh = K8s.IngressClass reh)) /\
  (forall (State : Type) (dagInsert dagRemove : Object -> State -> State)
          (dagUpdate : State -> State) (st : State)
          (d : Adapter.DAGAdapter) (reh : K8s.ResourceEventHandler)
          (i : Ingress) (class : string),
     Annotations (ing_Meta i) !! "kubernetes.io/ingress.class" = Some class ->
     (class <> Adapter.ingressClass d ->
      run dagInsert dagRemove dagUpdate (Adapter.OnAdd d (ObjIngress i)) st
        = st) /\
     (class <> K8s.ingressClass reh ->
      run dagInsert dagRemove dagUpdate (K8s.OnAdd reh (ObjIngress i)) st
        = st)) /\
  (forall i : Ingress,
     (Annotations (ing_Meta i) !! "kubernetes.io/ingress.class" = None \/
      Annotations (ing_Meta i) !! "kubernetes.io/ingress.class" =
        Some "contour" ->
      Envoy.addIngress i = Envoy.addIngress_admitted i) /\
     (forall class,
        Annotations (ing_Meta i) !! "kubernetes.io/ingress.class" = Some class
        -> class <> "contour" -> Envoy.addIngress i = Some [])).
Proof.
  split; [|split; [|split]].
  - intros d i. pose proof (Adapter_valid_ingress d i) as Hv.
    unfold Adapter.OnAdd.
    destruct (Adapter.validIngressClass d (ObjIngress i)) eqn:E; cbn [negb].
    + split; [split; [intros _; apply Hv; reflexivity|reflexivity]|].
      split.
      * split; [discriminate|]. intros (class & Hc & Hne).
        destruct (proj1 Hv eq_refl) as [H|H]; congruence.
      * unfold Adapter.ingressClass. split.
        -- intros ->. reflexivity.
        -- intros Hne. apply String.eqb_neq in Hne. rewrite Hne. reflexivity.
    + split; [split; [discriminate|intros H; apply Hv in H; discriminate]|].
      split.
      * split; [|reflexivity]. intros _.
        cbn [Adapter.validIngressClass] in E.
        destruct (Annotations (ing_Meta i) !! "kubernetes.io/ingress.class")
          as [class|]; [|discriminate].
        exists class. split; [reflexivity|]. apply String.eqb_neq, E.
      * unfold Adapter.ingressClass. split.
        -- intros ->. reflexivity.
        -- intros Hne. apply String.eqb_neq in Hne. rewrite Hne. reflexivity.
  - intros reh i. pose proof (K8s_valid_ingress reh i) as Hv.
    unfold K8s.OnAdd.
    destruct (K8s.validIngressClass reh (ObjIngress i)) eqn:E; cbn [negb].
    + split; [split; [intros _; apply Hv; reflexivity|reflexivity]|].
      split.
      * split; [discriminate|]. intros (class & Hc & Hne).
        destruct (proj1 Hv eq_refl) as [H|H]; congruence.
      * unfold K8s.ingressClass. split.
        -- intros ->. reflexivity.
        -- intros Hne. apply String.eqb_neq in Hne. rewrite Hne. reflexivity.
    + split; [split; [discriminate|intros H; apply Hv in H; discriminate]|].
      split.
      * split; [|reflexivity]. intros _.
        cbn [K8s.validIngressClass] in E.
        destruct (Annotations (ing_Meta i) !! "kubernetes.io/ingress.class")
          as [class|]; [|discriminate].
        exists class. split; [reflexivity|]. apply String.eqb_neq, E.
      * unfold K8s.ingressClass. split.
        -- intros ->. reflexivity.
        -- intros Hne. apply String.eqb_neq in Hne. rewrite Hne. reflexivity.
  - intros State dagInsert dagRemove dagUpdate st d reh i class Hc.
    unfold Adapter.OnAdd, K8s.OnAdd.
    cbn [Adapter.validIngressClass K8s.validIngressClass]. rewrite Hc.
    split; intros Hne; apply String.eqb_neq in Hne; rewrite Hne; reflexivity.
  - intros i. unfold Envoy.addIngress. split.
    + intros [-> | ->]; reflexivity.
    + intros class -> Hne. apply String.eqb_neq in Hne. rewrite Hne.
      reflexivity.
Qed.

Lemma ingress_class_admission_witness :
  Adapter.OnAdd {| Adapter.IngressClass := "" |} (ObjIngress nginx_ingress)
    = [].
Proof.
  apply (proj1 (proj2 (proj1 ingress_class_admission
                         {| Adapter.IngressClass := "" |} nginx_ingress))).
  exists "nginx". split; [reflexivity|]. vm_compute. discriminate.
Defined.

(** C10. An object that is not an Ingress passes the class filter of both
    handlers whatever its annotations are: [OnAdd] inserts it and updates,
    and [OnUpdate] to it removes the old object, inserts it and updates.
    An object that the filter rejects is an Ingress. *)
Theorem non_ingress_always_admitted :
  (forall obj : Object,
     (forall i, obj <> ObjIngress i) ->
     (forall d : Adapter.DAGAdapter,
        Adapter.validIngressClass d obj = true /\
        Adapter.OnAdd d obj = [Insert obj; update] /\
        forall oldObj,
          Adapter.OnUpdate d oldObj obj = [Remove oldObj; Insert obj; update])
     /\
     (forall reh : K8s.ResourceEventHandler,
        K8s.validIngressClass reh obj = true /\
        K8s.OnAdd reh obj = [Insert obj; update] /\
        forall oldObj,
          K8s.OnUpdate reh oldObj obj = [Remove oldObj; Insert obj; update]))
  /\
  (forall (d : Adapter.DAGAdapter) (reh : K8s.ResourceEventHandler)
          (obj : Object),
     Adapter.validIngressClass d obj = false \/
     K8s.validIngressClass reh obj = false ->
     exists i, obj = ObjIngress i).
Proof.
  split.
  - intros obj Hobj.
    assert (forall d, Adapter.validIngressClass d obj = true) as Ha.
    { intros d. destruct obj as [i| | | | |]; try reflexivity.
      destruct (Hobj i). reflexivity. }
    assert (forall reh, K8s.validIngressClass reh obj = true) as Hk.
    { intros reh. destruct obj as [i| | | | |]; try reflexivity.
      destruct (Hobj i). reflexivity. }
    split.
    + intros d. split; [apply Ha|].
      unfold Adapter.OnAdd, Adapter.OnUpdate. rewrite Ha.
      split; [reflexivity|]. intros oldObj.
      rewrite !andb_false_r. reflexivity.
    + intros reh. split; [apply Hk|].
      unfold K8s.OnAdd, K8s.OnUpdate. rewrite Hk.
      split; [reflexivity|]. intros oldObj.
      rewrite !andb_false_r. reflexivity.
  - intros d reh obj H. destruct obj as [i| | | | |];
      try (destruct H; discriminate).
    exists i. reflexivity.
Qed.

Lemma non_ingress_always_admitted_witness :
  Adapter.OnAdd {| Adapter.IngressClass := "" |}
    (ObjService (meta_with_class "nginx")) =
  [Insert (ObjService (meta_with_class "nginx")); update].
Proof.
  assert (forall i, ObjService (meta_with_class "nginx") <> ObjIngress i)
    as H by (intros i; discriminate).
  exact (proj1 (proj2 (proj1 (proj1 non_ingress_always_admitted _ H)
                         {| Adapter.IngressClass := "" |}))).
Defined.

(* ===================================================================== *)
(** * The nonces of a stream *)
(* ===================================================================== *)

Import Xds.

Lemma wrap64_small (z : Z) : - 2 ^ 63 <= z < 2 ^ 63 -> Go.wrap64 z = z.
Proof.
  intros H. unfold Go.wrap64.
  rewrite Z.mod_small by lia. lia.
Qed.

Lemma counting_from_cons (start : Z) (n : nat) :
  counting_from start (S n) = start :: counting_from (start + 1) n.
Proof.
  unfold counting_from. cbn [seq map]. f_equal; [lia|].
  rewrite <- seq_shift, map_map. apply map_ext. intros k. lia.
Qed.

Lemma counting_from_sorted (start : Z) (n : nat) :
  StronglySorted Z.lt (counting_from start n).
Proof.
  revert start. induction n as [|n IH]; intros start.
  - constructor.
  - rewrite counting_from_cons. constructor; [apply IH|].
    apply Forall_forall. intros z Hz. apply list_elem_of_In in Hz.
    unfold counting_from in Hz. apply in_map_iff in Hz as (k & <- & _). lia.
Qed.

Lemma counting_strictly_increasing (start : Z) (n : nat) :
  strictly_increasing (map Go.FormatInt (counting_from start n)).
Proof.
  exists (counting_from start n). split; [apply counting_from_sorted|].
  reflexivity.
Qed.

(** A constant nonce is not strictly increasing once it is sent twice. *)
Lemma repeated_nonce (n : string) (ns : list string) :
  ~ strictly_increasing (n :: n :: ns).
Proof.
  intros (zs & Hs & Hz).
  destruct zs as [|a [|b zs]]; try discriminate.
  injection Hz as Ha Hb _. rewrite Ha in Hb.
  apply (inj pretty) in Hb. subst b.
  apply StronglySorted_inv in Hs as [_ Hs]. apply Forall_inv in Hs. lia.
Qed.

(** The first generation counts before it sends: 1, 2, 3, ... *)
Lemma ContourGrpc_stream_loop_nonces {V : Type}
  (resources_of : V -> list Any + error) (typeurl : string)
  (events : list (Select V)) (last nonce : Z) :
  0 <= nonce -> nonce + Z.of_nat (length events) < 2 ^ 63 ->
  let outs := fst (ContourGrpc.stream_loop resources_of typeurl events
                     last nonce) in
  (length outs <= length events)%nat /\
  nonces outs = map Go.FormatInt (counting_from (nonce + 1) (length outs)).
Proof.
  revert last nonce. induction events as [|e events IH]; intros last nonce H0 H.
  - split; [apply le_n|reflexivity].
  - cbn [ContourGrpc.stream_loop]. cbn [length] in H.
    destruct e as [version v send_ok|]; [|split; [cbn; lia|reflexivity]].
    destruct (resources_of v) as [resources|err];
      [|split; [cbn; lia|reflexivity]].
    destruct send_ok; [|split; [cbn; lia|reflexivity]].
    rewrite wrap64_small by lia.
    specialize (IH version (nonce + 1)).
    destruct (ContourGrpc.stream_loop resources_of typeurl events version
                (nonce + 1)) as [outs err].
    cbn [fst length] in *.
    destruct IH as [IH1 IH2]; [lia|lia|].
    split; [lia|].
    rewrite counting_from_cons. cbn [nonces map Nonce].
    f_equal. exact IH2.
Qed.

(** The second generation counts after it has sent: 0, 1, 2, ... *)
Lemma Grpc_stream_loop_nonces (events : list (Select Grpc.resourcer))
  (last nonce : Z) :
  0 <= nonce -> nonce + Z.of_nat (length events) < 2 ^ 63 ->
  let outs := fst (Grpc.stream_loop events last nonce) in
  (length outs <= length events)%nat /\
  nonces outs = map Go.FormatInt (counting_from nonce (length outs)).
Proof.
  revert last nonce. induction events as [|e events IH]; intros last nonce H0 H.
  - split; [apply le_n|reflexivity].
  - cbn [Grpc.stream_loop]. cbn [length] in H.
    destruct e as [version n send_ok|]; [|split; [cbn; lia|reflexivity]].
    unfold Grpc.fetch. destruct (Grpc.Resources n) as [resources [err|]];
      [split; [cbn; lia|reflexivity]|].
    destruct send_ok; [|split; [cbn; lia|reflexivity]].
    rewrite wrap64_small by lia.
    specialize (IH version (nonce + 1)).
    destruct (Grpc.stream_loop events version (nonce + 1)) as [outs err].
    cbn [fst length] in *.
    destruct IH as [IH1 IH2]; [lia|lia|].
    split; [lia|].
    rewrite counting_from_cons. cbn [nonces map Nonce].
    f_equal. exact IH2.
Qed.

(** The third generation does not count. *)
Lemma GrpcServer_stream_loop_nonces
  {Cluster ClusterLoadAssignment Listener VirtualHost : Type}
  (s : gmap string (@GrpcServer.resourcer Cluster ClusterLoadAssignment
                      Listener VirtualHost))
  (turns : list GrpcServer.Turn) (last : Z) :
  Forall (fun out => Nonce out = "0" /\ VersionInfo out = "0")
         (fst (GrpcServer.stream_loop s turns last)).
Proof.
  revert last. induction turns as [|turn turns IH]; intros last.
  - constructor.
  - cbn [GrpcServer.stream_loop].
    destruct turn as [|req sel]; [constructor|].
    destruct (s !! req_TypeUrl req) as [r|]; [|constructor].
    destruct sel as [version t send_ok|]; [|constructor].
    destruct (GrpcServer.Resources r t) as [resources [err|]]; [constructor|].
    destruct send_ok; [|constructor].
    specialize (IH version).
    destruct (GrpcServer.stream_loop s turns version) as [outs err].
    constructor; [split; reflexivity|exact IH].
Qed.

(** C6, as the code has it.  On a stream of the servers that keep a nonce
    counter, the nonces of the responses sent are the decimal encodings of
    consecutive integers, hence strictly increasing: 1, 2, 3, ... in the
    first generation ([StreamClusters], [StreamEndpoints], [StreamRoutes];
    [StreamListeners] sends one response at most), and 0, 1, 2, ... in
    [stream] of the second generation.  The counter is an [int], and the
    statement is for streams of fewer than [2^63] turns.  [stream] of the
    third generation keeps no counter: each of its responses carries the
    nonce "0". *)
Theorem stream_nonces
  {Cluster ClusterLoadAssignment Listener VirtualHost : Type}
  (Marshal : Message Cluster ClusterLoadAssignment Listener VirtualHost
             -> option string) :
  (forall events : list (Select (list Cluster)),
     Z.of_nat (length events) < 2 ^ 63 ->
     let outs := fst (ContourGrpc.StreamClusters Marshal events) in
     nonces outs = map Go.FormatInt (counting_from 1 (length outs)) /\
     strictly_increasing (nonces outs)) /\
  (forall events : list (Select (list ClusterLoadAssignment)),
     Z.of_nat (length events) < 2 ^ 63 ->
     let outs := fst (ContourGrpc.StreamEndpoints Marshal events) in
     nonces outs = map Go.FormatInt (counting_from 1 (length outs)) /\
     strictly_increasing (nonces outs)) /\
  (forall events : list (Select (list VirtualHost)),
     Z.of_nat (length events) < 2 ^ 63 ->
     let outs := fst (ContourGrpc.StreamRoutes Marshal events) in
     nonces outs = map Go.FormatInt (counting_from 1 (length outs)) /\
     strictly_increasing (nonces outs)) /\
  (forall (v : list Listener) (send_ok done : bool),
     let outs := fst (ContourGrpc.StreamListeners Marshal v send_ok done) in
     (length outs <= 1)%nat /\
     nonces outs = map Go.FormatInt (counting_from 1 (length outs)) /\
     strictly_increasing (nonces outs)) /\
  (forall events : list (Select Grpc.resourcer),
     Z.of_nat (length events) < 2 ^ 63 ->
     let outs := fst (Grpc.stream events) in
     nonces outs = map Go.FormatInt (counting_from 0 (length outs)) /\
     strictly_increasing (nonces outs)) /\
  (forall (s : gmap string (@GrpcServer.resourcer Cluster
                              ClusterLoadAssignment Listener VirtualHost))
          (turns : list GrpcServer.Turn),
     Forall (fun out => Nonce out = "0") (fst (GrpcServer.stream s turns))).
Proof.
  assert (forall (V : Type) (resources_of : V -> list Any + error)
            (typeurl : string) (events : list (Select V)),
            Z.of_nat (length events) < 2 ^ 63 ->
            let outs := fst (ContourGrpc.stream_loop resources_of typeurl
                               events 0 0) in
            nonces outs = map Go.FormatInt (counting_from 1 (length outs)) /\
            strictly_increasing (nonces outs)) as Hloop.
  { intros V resources_of typeurl events H.
    destruct (ContourGrpc_stream_loop_nonces resources_of typeurl events 0 0)
      as [_ Hn]; [lia|lia|].
    cbn zeta. split; [exact Hn|]. rewrite Hn.
    apply counting_strictly_increasing. }
  split; [intros events; apply Hloop|].
  split; [intros events; apply Hloop|].
  split; [intros events; apply Hloop|].
  split; [|split].
  - intros v send_ok done. unfold ContourGrpc.StreamListeners.
    destruct (ContourGrpc.marshal_each Marshal ListenerType
                (map MsgListener v) []) as [resources|err].
    + destruct send_ok; cbn [fst length nonces map Nonce].
      * split; [lia|]. split; [reflexivity|].
        apply (counting_strictly_increasing 1 1).
      * split; [lia|]. split; [reflexivity|].
        apply (counting_strictly_increasing 1 0).
    + cbn [fst length nonces map]. split; [lia|]. split; [reflexivity|].
      apply (counting_strictly_increasing 1 0).
  - intros events H.
    destruct (Grpc_stream_loop_nonces events 0 0) as [_ Hn]; [lia|lia|].
    unfold Grpc.stream. cbn zeta. split; [exact Hn|]. rewrite Hn.
    apply counting_strictly_increasing.
  - intros s turns. unfold GrpcServer.stream.
    eapply Forall_impl; [apply GrpcServer_stream_loop_nonces|].
    intros out [H _]. exact H.
Qed.

Lemma stream_nonces_witness :
  nonces (fst (ContourGrpc.StreamClusters sample_Marshal
                 [Notified 1 ["a"] true; Notified 2 ["a"; "b"] true]))
  = ["1"; "2"].
Proof.
  assert (Z.of_nat (length [Notified 1 ["a"] true;
                            Notified 2 ["a"; "b"] true]) < 2 ^ 63) as H
    by (vm_compute; reflexivity).
  rewrite (proj1 (proj1 (stream_nonces sample_Marshal) _ H)).
  reflexivity.
Defined.

(** C6, as the specification states it, fails on the third generation:
    two responses sent on one cluster stream both carry the nonce "0". *)
Lemma constant_nonce_not_increasing :
  nonces (fst (GrpcServer.stream sample_server two_turns)) = ["0"; "0"] /\
  ~ strictly_increasing
      (nonces (fst (GrpcServer.stream sample_server two_turns))).
Proof.
  assert (nonces (fst (GrpcServer.stream sample_server two_turns))
          = ["0"; "0"]) as H by (vm_compute; reflexivity).
  split; [exact H|]. rewrite H. apply repeated_nonce.
Qed.

(* ===================================================================== *)
(** * The unary fetch *)
(* ===================================================================== *)

Section FetchFacts.

Context {Cluster ClusterLoadAssignment Listener VirtualHost : Type}.

Variable Cluster_Name : Cluster -> string.
Variable ClusterLoadAssignment_ClusterName : ClusterLoadAssignment -> string.
Variable Listener_Name : Listener -> string.
Variable VirtualHost_Name : VirtualHost -> string.
Variable Marshal :
  Message Cluster ClusterLoadAssignment Listener VirtualHost -> option string.

Lemma Grpc_marshal_all_serialises (typeurl : string)
  (v : list (Message Cluster ClusterLoadAssignment Listener VirtualHost)) :
  match Grpc.marshal_all Marshal typeurl v with
  | (resources, None) => serialises Marshal typeurl resources v
  | (resources, Some _) => resources = []
  end.
Proof.
  induction v as [|m v IH]; cbn [Grpc.marshal_all]; [constructor|].
  destruct (Marshal m) as [data|] eqn:E; [|reflexivity].
  destruct (Grpc.marshal_all Marshal typeurl v) as [resources [err|]];
    [reflexivity|].
  constructor; [split; [reflexivity|exact E]|exact IH].
Qed.

Lemma GrpcServer_marshal_all_serialises (typeurl : string)
  (v : list (Message Cluster ClusterLoadAssignment Listener VirtualHost)) :
  match GrpcServer.marshal_all Marshal typeurl v with
  | (resources, None) => serialises Marshal typeurl resources v
  | (resources, Some _) => resources = []
  end.
Proof.
  induction v as [|m v IH]; cbn [GrpcServer.marshal_all]; [constructor|].
  destruct (Marshal m) as [data|] eqn:E; [|reflexivity].
  destruct (GrpcServer.marshal_all Marshal typeurl v) as [resources [err|]];
    [reflexivity|].
  constructor; [split; [reflexivity|exact E]|exact IH].
Qed.

(** The snapshot that the resourcer registered for a type URL serves. *)
Lemma newgrpcServer_lookup (typeurl : string) :
  let s := GrpcServer.newgrpcServer Cluster_Name
             ClusterLoadAssignment_ClusterName Listener_Name
             VirtualHost_Name Marshal in
  match s !! typeurl with
  | Some r =>
      GrpcServer.TypeURL r = typeurl /\
      exists values,
        GrpcServer.Resources r =
          (fun t => GrpcServer.marshal_all Marshal typeurl (values t)) /\
        ((typeurl = GrpcServer.clusterType /\
          values = GrpcServer.CDS_Values Cluster_Name) \/
         (typeurl = GrpcServer.endpointType /\
          values = GrpcServer.EDS_Values ClusterLoadAssignment_ClusterName) \/
         (typeurl = GrpcServer.listenerType /\
          values = GrpcServer.LDS_Values Listener_Name) \/
         (typeurl = GrpcServer.routeType /\
          values = GrpcServer.RDS_Values VirtualHost_Name))
  | None =>
      typeurl <> GrpcServer.clusterType /\
      typeurl <> GrpcServer.endpointType /\
      typeurl <> GrpcServer.listenerType /\
      typeurl <> GrpcServer.routeType
  end.
Proof.
  cbn zeta. unfold GrpcServer.newgrpcServer.
  destruct (decide (GrpcServer.clusterType = typeurl)) as [<-|H1].
  { rewrite lookup_insert_eq. split; [reflexivity|].
    eexists. split; [reflexivity|]. left. split; reflexivity. }
  rewrite lookup_insert_ne by exact H1.
  destruct (decide (GrpcServer.endpointType = typeurl)) as [<-|H2].
  { rewrite lookup_insert_eq. split; [reflexivity|].
    eexists. split; [reflexivity|]. right. left. split; reflexivity. }
  rewrite lookup_insert_ne by exact H2.
  destruct (decide (GrpcServer.listenerType = typeurl)) as [<-|H3].
  { rewrite lookup_insert_eq. split; [reflexivity|].
    eexists. split; [reflexivity|]. right. right. left. split; reflexivity. }
  rewrite lookup_insert_ne by exact H3.
  destruct (decide (GrpcServer.routeType = typeurl)) as [<-|H4].
  { rewrite lookup_insert_eq. split; [reflexivity|].
    eexists. split; [reflexivity|]. right. right. right. split; reflexivity. }
  rewrite lookup_insert_ne by exact H4.
  rewrite lookup_empty. repeat split; congruence.
Qed.

End FetchFacts.

(** C9, as the code has it.  A fetch returns one response, whose
    [version_info] and [nonce] are the constant "0" whatever the version of
    the cache is, and whose resources, when serialisation succeeds, are the
    serialised entries of the current snapshot in its order: the cache
    values in the second generation (for routes, one configuration
    [ingress_http] holding them); in the third generation the values of
    the resourcer registered for the type URL of the request, sorted by
    name (for routes, the two configurations), and no response but an
    error for a type URL that is not registered.  In the first generation
    the four fetch operations are unimplemented and return an error. *)
Theorem fetch_serves_snapshot_at_version_zero
  {Cluster ClusterLoadAssignment Listener VirtualHost : Type}
  (Cluster_Name : Cluster -> string)
  (ClusterLoadAssignment_ClusterName : ClusterLoadAssignment -> string)
  (Listener_Name : Listener -> string)
  (VirtualHost_Name : VirtualHost -> string)
  (Marshal : Message Cluster ClusterLoadAssignment Listener VirtualHost
             -> option string) :
  (forall (c : Cache Cluster) (req : DiscoveryRequest),
     let '(resp, err) := Grpc.FetchClusters Marshal c req in
     VersionInfo resp = "0" /\ Nonce resp = "0" /\
     TypeUrl resp = ClusterType /\
     (err = None ->
      serialises Marshal ClusterType (Resources resp)
                 (map MsgCluster (cache_values c)))) /\
  (forall (c : Cache ClusterLoadAssignment) (req : DiscoveryRequest),
     let '(resp, err) := Grpc.FetchEndpoints Marshal c req in
     VersionInfo resp = "0" /\ Nonce resp = "0" /\
     TypeUrl resp = EndpointType /\
     (err = None ->
      serialises Marshal EndpointType (Resources resp)
                 (map MsgClusterLoadAssignment (cache_values c)))) /\
  (forall (c : Cache Listener) (req : DiscoveryRequest),
     let '(resp, err) := Grpc.FetchListeners Marshal c req in
     VersionInfo resp = "0" /\ Nonce resp = "0" /\
     TypeUrl resp = ListenerType /\
     (err = None ->
      serialises Marshal ListenerType (Resources resp)
                 (map MsgListener (cache_values c)))) /\
  (forall (c : Cache VirtualHost) (req : DiscoveryRequest),
     let '(resp, err) := Grpc.FetchRoutes Marshal c req in
     VersionInfo resp = "0" /\ Nonce resp = "0" /\
     TypeUrl resp = RouteType /\
     (err = None ->
      serialises Marshal RouteType (Resources resp)
                 [MsgRouteConfiguration "ingress_http" (cache_values c)])) /\
  (forall (t : GrpcServer.Translator) (req : DiscoveryRequest),
     match GrpcServer.fetch
             (GrpcServer.newgrpcServer Cluster_Name
                ClusterLoadAssignment_ClusterName Listener_Name
                VirtualHost_Name Marshal) t req with
     | (Some resp, err) =>
         VersionInfo resp = "0" /\ Nonce resp = "0" /\
         TypeUrl resp = req_TypeUrl req /\
         exists values,
           ((req_TypeUrl req = GrpcServer.clusterType /\
             values = GrpcServer.CDS_Values Cluster_Name) \/
            (req_TypeUrl req = GrpcServer.endpointType /\
             values =
               GrpcServer.EDS_Values ClusterLoadAssignment_ClusterName) \/
            (req_TypeUrl req = GrpcServer.listenerType /\
             values = GrpcServer.LDS_Values Listener_Name) \/
            (req_TypeUrl req = GrpcServer.routeType /\
             values = GrpcServer.RDS_Values VirtualHost_Name)) /\
           (err = None ->
            serialises Marshal (req_TypeUrl req) (Resources resp) (values t))
     | (None, err) =>
         err = Some (NoResourcer (req_TypeUrl req)) /\
         req_TypeUrl req <> GrpcServer.clusterType /\
         req_TypeUrl req <> GrpcServer.endpointType /\
         req_TypeUrl req <> GrpcServer.listenerType /\
         req_TypeUrl req <> GrpcServer.routeType
     end) /\
  (forall req : DiscoveryRequest,
     ContourGrpc.FetchClusters req =
       (None, Some (Unimplemented "FetchClusters Unimplemented")) /\
     ContourGrpc.FetchEndpoints req =
       (None, Some (Unimplemented "FetchEndpoints Unimplemented")) /\
     ContourGrpc.FetchListeners req =
       (None, Some (Unimplemented "FetchListeners Unimplemented")) /\
     ContourGrpc.FetchRoutes req =
       (None, Some (Unimplemented "FetchRoutes Unimplemented"))).
Proof.
  assert (forall typeurl v,
            let '(resp, err) :=
              Grpc.fetch {| Grpc.Resources :=
                              Grpc.marshal_all Marshal typeurl v;
                            Grpc.TypeURL := typeurl |} 0 0 in
            VersionInfo resp = "0" /\ Nonce resp = "0" /\
            TypeUrl resp = typeurl /\
            (err = None -> serialises Marshal typeurl (Resources resp) v))
    as Hfetch.
  { intros typeurl v. unfold Grpc.fetch. cbn [Grpc.Resources Grpc.TypeURL].
    pose proof (Grpc_marshal_all_serialises Marshal typeurl v) as Hs.
    destruct (Grpc.marshal_all Marshal typeurl v) as [resources [err|]];
      cbn [VersionInfo Nonce TypeUrl Resources];
      repeat (split; [reflexivity|]); [discriminate|].
    intros _. exact Hs. }
  split; [intros c req; apply Hfetch|].
  split; [intros c req; apply Hfetch|].
  split; [intros c req; apply Hfetch|].
  split; [|split].
  - intros c req. unfold Grpc.FetchRoutes, Grpc.fetch, Grpc.RDS.
    cbn [Grpc.Resources Grpc.TypeURL].
    destruct (Marshal (MsgRouteConfiguration "ingress_http" (cache_values c)))
      as [data|] eqn:E; cbn [VersionInfo Nonce TypeUrl Resources];
      repeat (split; [reflexivity|]); [|discriminate].
    intros _. constructor; [split; [reflexivity|exact E]|constructor].
  - intros t req. unfold GrpcServer.fetch.
    pose proof (newgrpcServer_lookup Cluster_Name
                  ClusterLoadAssignment_ClusterName Listener_Name
                  VirtualHost_Name Marshal (req_TypeUrl req)) as Hl.
    cbn zeta in Hl.
    destruct (GrpcServer.newgrpcServer _ _ _ _ _ !! req_TypeUrl req)
      as [r|]; [|split; [reflexivity|exact Hl]].
    destruct Hl as (Hurl & values & Hres & Hvalues). rewrite Hres.
    pose proof (GrpcServer_marshal_all_serialises Marshal (req_TypeUrl req)
                  (values t)) as Hs.
    destruct (GrpcServer.marshal_all Marshal (req_TypeUrl req) (values t))
      as [resources [err|]]; cbn [VersionInfo Nonce TypeUrl Resources];
      repeat (split; [try reflexivity; assumption|]);
      exists values; (split; [exact Hvalues|]); [discriminate|].
    intros _. exact Hs.
  - intros req. repeat split.
Qed.

Lemma fetch_serves_snapshot_at_version_zero_witness :
  let '(resp, err) :=
    Grpc.FetchClusters sample_Marshal sample_cache cluster_request in
  err = None /\
  serialises sample_Marshal ClusterType (Resources resp)
             (map MsgCluster (cache_values sample_cache)).
Proof.
  pose proof (proj1 (fetch_serves_snapshot_at_version_zero id id id id
                       sample_Marshal) sample_cache cluster_request) as H.
  destruct (Grpc.FetchClusters sample_Marshal sample_cache cluster_request)
    as [resp err] eqn:E.
  assert (err = None) as Herr by (vm_compute in E; congruence).
  split; [exact Herr|]. apply H, Herr.
Defined.

(** C9, as the specification states it, fails: the cluster cache is at
    version 3, and the response to a fetch says version 0. *)
Lemma fetch_ignores_the_version :
  cache_version sample_cache = 3 /\
  VersionInfo (fst (Grpc.FetchClusters sample_Marshal sample_cache
                      cluster_request)) = "0" /\
  VersionInfo (fst (Grpc.FetchClusters sample_Marshal sample_cache
                      cluster_request))
    <> Go.FormatInt (cache_version sample_cache) /\
  (exists resp,
     GrpcServer.fetch sample_server sample_translator cluster_request
       = (Some resp, None) /\
     VersionInfo resp = "0" /\
     VersionInfo resp
       <> Go.FormatInt
            (cache_version (GrpcServer.ClusterCache sample_translator))) /\
  fst (ContourGrpc.FetchClusters cluster_request) = None.
Proof.
  split; [reflexivity|]. split; [reflexivity|].
  split; [vm_compute; discriminate|]. split; [|reflexivity].
  eexists. split; [vm_compute; reflexivity|].
  split; [reflexivity|]. vm_compute. discriminate.
Qed.

(* ===================================================================== *)
(** * The resource caches as finite maps *)
(* ===================================================================== *)

Section CacheContents.

Context {T : Type} (Name : T -> string).

Lemma str_lt_neq (a b : string) : Go.str_lt a b = true -> a <> b.
Proof. intros H ->. rewrite str_lt_irrefl in H. discriminate. Qed.

Lemma sorted_NoDup_names (values : list T) :
  sorted_by_name Name values -> NoDup (map Name values).
Proof.
  induction 1 as [|a l Hl IH Ha]; [constructor|].
  cbn [map]. constructor; [|exact IH].
  intros Hin. apply list_elem_of_In, in_map_iff in Hin as (b & Hb & Hin).
  rewrite Forall_forall in Ha. apply list_elem_of_In, Ha in Hin.
  apply str_lt_neq in Hin. congruence.
Qed.

Lemma sorted_NoDup (values : list T) :
  sorted_by_name Name values -> NoDup values.
Proof.
  intros H. apply sorted_NoDup_names in H.
  eapply (NoDup_fmap_1 Name). exact H.
Qed.

Lemma In_without (name : string) (l2 : list T) (v : T) :
  sorted_by_name Name l2 ->
  Forall (fun v => Go.str_lt (Name v) name = false) l2 ->
  In v (without Name name l2) <-> In v l2 /\ Name v <> name.
Proof.
  intros Hs H2. destruct (without_above Name name l2 Hs H2) as [_ Hw].
  split.
  - intros Hin. split.
    + destruct l2 as [|u l2]; [exact Hin|]. cbn [without] in Hin.
      destruct (String.eqb (Name u) name); [right|]; exact Hin.
    + rewrite Forall_forall in Hw. apply list_elem_of_In, Hw in Hin.
      apply str_lt_neq in Hin. congruence.
  - intros [Hin Hne]. destruct l2 as [|u l2]; [exact Hin|]. cbn [without].
    destruct (String.eqb (Name u) name) eqn:E; [|exact Hin].
    apply String.eqb_eq in E. destruct Hin as [->|Hin]; [contradiction|].
    exact Hin.
Qed.

Lemma In_Add_sorted (c : T) (values : list T) (v : T) :
  sorted_by_name Name values ->
  In v (Cache.Add Name c values) <->
  v = c \/ (In v values /\ Name v <> Name c).
Proof.
  intros Hs. destruct (split_at_name Name (Name c) values Hs)
    as (l1 & l2 & -> & H1 & H2).
  rewrite Add_split by assumption.
  assert (sorted_by_name Name l2) as Hs2
    by (eapply StronglySorted_app_1_r, Hs).
  rewrite in_app_iff. cbn [In]. rewrite In_without by assumption.
  rewrite in_app_iff. rewrite Forall_forall in H1. split.
  - intros [Hin|[<-|[Hin Hne]]].
    + right. split; [left; exact Hin|].
      apply list_elem_of_In, H1, str_lt_neq in Hin. exact Hin.
    + left. reflexivity.
    + right. split; [right; exact Hin|exact Hne].
  - intros [->|[[Hin|Hin] Hne]].
    + right. left. reflexivity.
    + left. exact Hin.
    + right. right. split; assumption.
Qed.

Lemma In_Remove_sorted (name : string) (values : list T) (v : T) :
  sorted_by_name Name values ->
  In v (Cache.Remove Name name values) <-> In v values /\ Name v <> name.
Proof.
  intros Hs. destruct (split_at_name Name name values Hs)
    as (l1 & l2 & -> & H1 & H2).
  rewrite Remove_split by assumption.
  assert (sorted_by_name Name l2) as Hs2
    by (eapply StronglySorted_app_1_r, Hs).
  rewrite !in_app_iff. rewrite In_without by assumption.
  rewrite Forall_forall in H1. split.
  - intros [Hin|[Hin Hne]].
    + split; [left; exact Hin|].
      apply list_elem_of_In, H1, str_lt_neq in Hin. exact Hin.
    + split; [right; exact Hin|exact Hne].
  - intros [[Hin|Hin] Hne]; [left; exact Hin|right; split; assumption].
Qed.

(** A snapshot is determined by the entries it holds. *)
Lemma sorted_same_entries (a b : list T) :
  sorted_by_name Name a -> sorted_by_name Name b ->
  (forall v, In v a <-> In v b) -> a = b.
Proof.
  intros Ha Hb Hab.
  apply (StronglySorted_unique_strong
           (fun x y => Go.str_lt (Name x) (Name y) = true)); try assumption.
  - intros x1 x2 _ _ H12 H21. apply str_lt_asym in H12.
    unfold Cache.byName in H12. congruence.
  - apply NoDup_Permutation; [apply sorted_NoDup, Ha|apply sorted_NoDup, Hb|].
    intros v. rewrite !list_elem_of_In. apply Hab.
Qed.

Lemma In_entries (values : list T) (v : T) :
  sorted_by_name Name values ->
  entries Name values !! Name v = Some v <-> In v values.
Proof.
  intros Hs. unfold entries. rewrite <- elem_of_list_to_map.
  - rewrite list_elem_of_In, in_map_iff. split.
    + intros (u & Hu & Hin). congruence.
    + intros Hin. exists v. split; [reflexivity|exact Hin].
  - rewrite <- list_fmap_compose. apply sorted_NoDup_names, Hs.
Qed.

Lemma entries_Some_Name (values : list T) (name : string) (v : T) :
  entries Name values !! name = Some v -> Name v = name /\ In v values.
Proof.
  unfold entries. intros H. apply elem_of_list_to_map_2 in H.
  apply list_elem_of_In, in_map_iff in H as (u & Hu & Hin).
  injection Hu as <- <-. split; [reflexivity|exact Hin].
Qed.

Lemma Add_each_sorted (cs values : list T) :
  sorted_by_name Name values -> sorted_by_name Name (Add_each Name cs values).
Proof.
  revert values. induction cs as [|c cs IH]; intros values Hs; [exact Hs|].
  apply IH, Add_sorted, Hs.
Qed.

Lemma Remove_each_sorted (names : list string) (values : list T) :
  sorted_by_name Name values ->
  sorted_by_name Name (Remove_each Name names values).
Proof.
  revert values. induction names as [|n names IH]; intros values Hs;
    [exact Hs|].
  apply IH, Remove_sorted, Hs.
Qed.

Lemma In_Remove_each (names : list string) (values : list T) (v : T) :
  sorted_by_name Name values ->
  In v (Remove_each Name names values) <->
  In v values /\ ~ In (Name v) names.
Proof.
  revert values. induction names as [|n names IH]; intros values Hs.
  - cbn. tauto.
  - change (Remove_each Name (n :: names) values)
      with (Remove_each Name names (Cache.Remove Name n values)).
    rewrite IH by (apply Remove_sorted, Hs).
    rewrite In_Remove_sorted by exact Hs. cbn [In].
    split; [intros [[H1 H2] H3]|intros [H1 H2]].
    + split; [exact H1|]. intros [E|E]; [congruence|contradiction].
    + split; [split; [exact H1|]|]; intros E; apply H2; [left|right];
        congruence.
Qed.

Lemma In_Add_each_other (cs values : list T) (v : T) :
  sorted_by_name Name values ->
  ~ In (Name v) (map Name cs) ->
  In v (Add_each Name cs values) <-> In v values.
Proof.
  revert values. induction cs as [|c cs IH]; intros values Hs Hn.
  - reflexivity.
  - change (Add_each Name (c :: cs) values)
      with (Add_each Name cs (Cache.Add Name c values)).
    cbn [map In] in Hn.
    rewrite IH by (try apply Add_sorted; tauto).
    rewrite In_Add_sorted by exact Hs. split.
    + intros [->|[H _]]; [tauto|exact H].
    + intros H. right. split; [exact H|]. intros E. apply Hn. left.
      congruence.
Qed.

End CacheContents.

Lemma entries_lookup {T : Type} (Name : T -> string) (values : list T)
  (name : string) (v : T) :
  sorted_by_name Name values ->
  entries Name values !! name = Some v <-> Name v = name /\ In v values.
Proof.
  intros Hs. split.
  - apply entries_Some_Name.
  - intros [<- Hin]. apply In_entries; assumption.
Qed.

Create HintDb cache_sorted.

#[local] Hint Resolve Add_sorted Remove_sorted reachable_sorted
  Add_each_sorted Remove_each_sorted : cache_sorted.

(** Equality of two cache states, from the entries they hold. *)
Ltac same_entries Name :=
  apply (sorted_same_entries Name); [auto with cache_sorted..|];
  intros ?v;
  repeat first [ rewrite In_Add_sorted by auto with cache_sorted
               | rewrite In_Remove_sorted by auto with cache_sorted ].

(** X1. The slice of a cache is at all times in strictly increasing order
    of the names, whatever calls of [Add] and [Remove] have led to it; no
    two entries of a snapshot have the same name. *)
Theorem cache_names_strictly_increase {T : Type} (Name : T -> string)
  (values : list T) :
  Cache.reachable Name values ->
  sorted_by_name Name (Cache.Values values) /\
  NoDup (map Name (Cache.Values values)).
Proof.
  intros Hr. unfold Cache.Values. cbn [app].
  split; [|apply sorted_NoDup_names]; apply reachable_sorted, Hr.
Qed.

Lemma cache_names_strictly_increase_witness :
  NoDup (map fst (Cache.Values
                    (Cache.Add fst ("a", 1%nat)
                       (Cache.Add fst ("b", 2%nat) [])))).
Proof.
  apply (cache_names_strictly_increase fst).
  apply Cache.reachable_Add, Cache.reachable_Add, Cache.reachable_new.
Defined.

(** X2. After [Add(c)] the cache holds [c], and the entries it held
    before under other names; the entry that had the name of [c], if there
    was one, is gone.  Seen as a finite map from names to entries, [Add]
    is the insertion of [c] at its name. *)
Theorem Add_inserts_at_name {T : Type} (Name : T -> string) (c : T)
  (values : list T) :
  Cache.reachable Name values ->
  (forall v, In v (Cache.Add Name c values) <->
             v = c \/ (In v values /\ Name v <> Name c)) /\
  entries Name (Cache.Add Name c values) =
    <[Name c := c]> (entries Name values).
Proof.
  intros Hr. apply reachable_sorted in Hr. split.
  - intros v. apply In_Add_sorted, Hr.
  - apply map_eq. intros k. apply option_eq. intros x.
    rewrite entries_lookup by (apply Add_sorted, Hr).
    rewrite In_Add_sorted by exact Hr.
    rewrite lookup_insert_Some.
    rewrite entries_lookup by exact Hr. split.
    + intros [Hk [->|[Hin Hne]]]; [left; auto|right].
      split; [congruence|]. split; assumption.
    + intros [[Hk ->]|[Hk [Hx Hin]]]; [split; [congruence|left; auto]|].
      split; [exact Hx|]. right. split; [exact Hin|congruence].
Qed.

Lemma Add_inserts_at_name_witness :
  entries fst (Cache.Add fst ("a", 2%nat) (Cache.Add fst ("a", 1%nat) []))
    !! "a" = Some ("a", 2%nat).
Proof.
  rewrite (proj2 (Add_inserts_at_name fst ("a", 2%nat)
                    (Cache.Add fst ("a", 1%nat) [])
                    (Cache.reachable_Add fst _ _ (Cache.reachable_new fst)))).
  apply lookup_insert_eq.
Defined.

(** X3. After [Remove(name)] the cache holds the entries it held before
    under other names, and no entry of that name.  Seen as a finite map,
    [Remove] is the deletion of the name. *)
Theorem Remove_deletes_name {T : Type} (Name : T -> string) (name : string)
  (values : list T) :
  Cache.reachable Name values ->
  (forall v, In v (Cache.Remove Name name values) <->
             In v values /\ Name v <> name) /\
  entries Name (Cache.Remove Name name values) =
    delete name (entries Name values).
Proof.
  intros Hr. apply reachable_sorted in Hr. split.
  - intros v. apply In_Remove_sorted, Hr.
  - apply map_eq. intros k. apply option_eq. intros x.
    rewrite entries_lookup by (apply Remove_sorted, Hr).
    rewrite In_Remove_sorted by exact Hr.
    rewrite lookup_delete_Some.
    rewrite entries_lookup by exact Hr. split.
    + intros [Hk [Hin Hne]]. split; [congruence|]. split; assumption.
    + intros [Hk [Hx Hin]]. split; [exact Hx|].
      split; [exact Hin|congruence].
Qed.

Lemma Remove_deletes_name_witness :
  entries fst (Cache.Remove fst "a" (Cache.Add fst ("a", 1%nat) [])) !! "a"
    = None.
Proof.
  rewrite (proj2 (Remove_deletes_name fst "a"
                    (Cache.Add fst ("a", 1%nat) [])
                    (Cache.reachable_Add fst _ _ (Cache.reachable_new fst)))).
  apply lookup_delete_eq.
Defined.

(** X4. The snapshot of a cache is determined by the entries the cache
    holds: two caches with the same entries return the same slice from
    [Values], in whatever order their entries were added. *)
Theorem Values_determined_by_entries {T : Type} (Name : T -> string)
  (a b : list T) :
  Cache.reachable Name a -> Cache.reachable Name b ->
  (forall v, In v a <-> In v b) ->
  Cache.Values a = Cache.Values b.
Proof.
  intros Ha Hb Hab. unfold Cache.Values. cbn [app].
  apply (sorted_same_entries Name); auto with cache_sorted.
Qed.

Lemma Values_determined_by_entries_witness :
  Cache.Values (Cache.Add fst ("a", 1%nat) (Cache.Add fst ("b", 2%nat) [])) =
  Cache.Values (Cache.Add fst ("b", 2%nat) (Cache.Add fst ("a", 1%nat) [])).
Proof.
  apply (Values_determined_by_entries fst).
  - apply Cache.reachable_Add, Cache.reachable_Add, Cache.reachable_new.
  - apply Cache.reachable_Add, Cache.reachable_Add, Cache.reachable_new.
  - vm_compute. tauto.
Defined.

(** X5. Calls that concern different names commute: two [Add]s, an [Add]
    and a [Remove], and any two [Remove]s lead to the same cache in
    either order. *)
Theorem cache_calls_commute {T : Type} (Name : T -> string) (a b : T)
  (n m : string) (values : list T) :
  Cache.reachable Name values ->
  (Name a <> Name b ->
   Cache.Add Name a (Cache.Add Name b values) =
   Cache.Add Name b (Cache.Add Name a values)) /\
  (n <> Name a ->
   Cache.Remove Name n (Cache.Add Name a values) =
   Cache.Add Name a (Cache.Remove Name n values)) /\
  Cache.Remove Name n (Cache.Remove Name m values) =
  Cache.Remove Name m (Cache.Remove Name n values).
Proof.
  intros Hr. split; [|split].
  - intros Hne. same_entries Name. split.
    + intros [->|[[->|[H1 H2]] H3]]; auto 6.
    + intros [->|[[->|[H1 H2]] H3]]; auto 6.
  - intros Hne. same_entries Name. split.
    + intros [[->|[H1 H2]] H3]; auto.
    + intros [->|[[H1 H2] H3]]; auto.
  - same_entries Name. tauto.
Qed.

Lemma cache_calls_commute_witness :
  Cache.Add fst ("a", 1%nat) (Cache.Add fst ("b", 2%nat) []) =
  Cache.Add fst ("b", 2%nat) (Cache.Add fst ("a", 1%nat) []).
Proof.
  apply (proj1 (cache_calls_commute fst ("a", 1%nat) ("b", 2%nat) "" ""
                  [] (Cache.reachable_new fst))).
  vm_compute. discriminate.
Defined.

(** X6. The last call on a name decides: an [Add] undoes the effect of
    an earlier [Add] or [Remove] of the same name, and a repeated [Add] or
    [Remove] changes nothing. *)
Theorem cache_last_call_wins {T : Type} (Name : T -> string) (c c' : T)
  (n : string) (values : list T) :
  Cache.reachable Name values ->
  (Name c = Name c' ->
   Cache.Add Name c' (Cache.Add Name c values) = Cache.Add Name c' values) /\
  Cache.Add Name c (Cache.Remove Name (Name c) values) =
    Cache.Add Name c values /\
  Cache.Add Name c (Cache.Add Name c values) = Cache.Add Name c values /\
  Cache.Remove Name n (Cache.Remove Name n values) =
    Cache.Remove Name n values.
Proof.
  intros Hr. split; [|split; [|split]].
  - intros E. same_entries Name. rewrite E. split.
    + intros [->|[[->|[H1 H2]] H3]]; auto. congruence.
    + intros [->|[H1 H2]]; auto.
  - same_entries Name. tauto.
  - same_entries Name. split.
    + intros [->|[[->|[H1 H2]] H3]]; auto.
    + intros [->|[H1 H2]]; auto.
  - same_entries Name. tauto.
Qed.

Lemma cache_last_call_wins_witness :
  Cache.Add fst ("a", 2%nat) (Cache.Add fst ("a", 1%nat) []) =
  Cache.Add fst ("a", 2%nat) [].
Proof.
  apply (proj1 (cache_last_call_wins fst ("a", 1%nat) ("a", 2%nat) ""
                  [] (Cache.reachable_new fst))).
  reflexivity.
Defined.

(** X7. A batch of entries under names that the cache does not hold,
    added one by one, and then removed by name one by one, leaves the
    cache as it was. *)
Theorem Add_each_Remove_each_round_trip {T : Type} (Name : T -> string)
  (cs values : list T) :
  Cache.reachable Name values ->
  (forall c v, In c cs -> In v values -> Name v <> Name c) ->
  Remove_each Name (map Name cs) (Add_each Name cs values) = values.
Proof.
  intros Hr Hfresh. apply (sorted_same_entries Name);
    [auto with cache_sorted..|].
  intros v. rewrite In_Remove_each by auto with cache_sorted. split.
  - intros [Hin Hn]. apply In_Add_each_other in Hin;
      auto with cache_sorted.
  - intros Hin.
    assert (~ In (Name v) (map Name cs)) as Hn.
    { intros Hc. apply in_map_iff in Hc as (c & Hc & Hcs).
      apply (Hfresh c v); auto. }
    split; [|exact Hn]. apply In_Add_each_other; auto with cache_sorted.
Qed.

Lemma Add_each_Remove_each_round_trip_witness :
  Remove_each fst ["a"; "c"]
    (Add_each fst [("a", 1%nat); ("c", 3%nat)]
       (Cache.Add fst ("b", 2%nat) [])) =
  Cache.Add fst ("b", 2%nat) [].
Proof.
  apply (Add_each_Remove_each_round_trip fst [("a", 1%nat); ("c", 3%nat)]).
  - apply Cache.reachable_Add, Cache.reachable_new.
  - vm_compute. intros c v [<-|[<-|[]]] [<-|[]]; discriminate.
Defined.

(* ===================================================================== *)
(** * The event handlers on updates *)
(* ===================================================================== *)

(** X8. [OnUpdate] decides by the class filter on the old and on the new
    object.  A new object that passes is inserted after the old one has
    been removed, whether the old one passed or not; a new object that
    fails is never inserted, and the old one is then removed as by
    [OnDelete] if it passed, and left alone if it did not.  The handler
    of [k8s.go] makes the same calls as the one of [adapter.go]. *)
Theorem OnUpdate_by_class (d : Adapter.DAGAdapter) (oldObj newObj : Object) :
  (Adapter.validIngressClass d newObj = true ->
   Adapter.OnUpdate d oldObj newObj =
     [Remove oldObj; Insert newObj; update]) /\
  (Adapter.validIngressClass d newObj = false ->
   Adapter.validIngressClass d oldObj = true ->
   Adapter.OnUpdate d oldObj newObj = Adapter.OnDelete d oldObj /\
   Adapter.OnUpdate d oldObj newObj = [Remove oldObj; update]) /\
  (Adapter.validIngressClass d newObj = false ->
   Adapter.validIngressClass d oldObj = false ->
   Adapter.OnUpdate d oldObj newObj = []) /\
  K8s.OnUpdate {| K8s.IngressClass := Adapter.IngressClass d |}
               oldObj newObj =
  Adapter.OnUpdate d oldObj newObj.
Proof.
  split; [|split; [|split]].
  - intros Hn. unfold Adapter.OnUpdate. rewrite Hn.
    destruct (Adapter.validIngressClass d oldObj); reflexivity.
  - intros Hn Ho. unfold Adapter.OnUpdate. rewrite Hn, Ho.
    split; reflexivity.
  - intros Hn Ho. unfold Adapter.OnUpdate. rewrite Hn, Ho. reflexivity.
  - assert (forall obj,
              K8s.validIngressClass
                {| K8s.IngressClass := Adapter.IngressClass d |} obj =
              Adapter.validIngressClass d obj) as E.
    { intros [i| | | | |]; reflexivity. }
    unfold K8s.OnUpdate, Adapter.OnUpdate. rewrite !E. reflexivity.
Qed.

Lemma OnUpdate_by_class_witness :
  Adapter.OnUpdate {| Adapter.IngressClass := "" |}
    (ObjService (meta_with_class "nginx")) (ObjIngress nginx_ingress) =
  [Remove (ObjService (meta_with_class "nginx")); update].
Proof.
  apply (proj1 (proj2 (OnUpdate_by_class {| Adapter.IngressClass := "" |}
                  (ObjService (meta_with_class "nginx"))
                  (ObjIngress nginx_ingress)))); reflexivity.
Defined.

(** X9. Whatever event a handler receives, it inserts no object that the
    class filter rejects, and it either makes no call at all or ends with
    its one call of [update]: the caches are regenerated once after every
    change of the state, and never in the middle of one. *)
Theorem handlers_insert_admitted_only :
  (forall (d : Adapter.DAGAdapter) (calls : list Call),
     Adapter_trace d calls ->
     (forall obj, In (Insert obj) calls ->
                  Adapter.validIngressClass d obj = true) /\
     (calls = [] \/ ends_with_one_update calls)) /\
  (forall (reh : K8s.ResourceEventHandler) (calls : list Call),
     K8s_trace reh calls ->
     (forall obj, In (Insert obj) calls ->
                  K8s.validIngressClass reh obj = true) /\
     (calls = [] \/ ends_with_one_update calls)).
Proof.
  assert (forall o, ends_with_one_update [Remove o; update]) as E2.
  { intros o. exists [Remove o]. split; [reflexivity|].
    intros [H|[]]. discriminate. }
  assert (forall o, ends_with_one_update [Insert o; update]) as E2'.
  { intros o. exists [Insert o]. split; [reflexivity|].
    intros [H|[]]. discriminate. }
  assert (forall o n, ends_with_one_update [Remove o; Insert n; update])
    as E3.
  { intros o n. exists [Remove o; Insert n]. split; [reflexivity|].
    intros [H|[H|[]]]; discriminate. }
  split.
  - intros d calls [obj|oldObj newObj|obj].
    + unfold Adapter.OnAdd.
      destruct (Adapter.validIngressClass d obj) eqn:V; cbn [negb].
      * split; [|right; apply E2'].
        intros o [H|[H|[]]]; [|discriminate]. congruence.
      * split; [intros o []|left; reflexivity].
    + unfold Adapter.OnUpdate, Adapter.OnDelete.
      destruct (Adapter.validIngressClass d oldObj) eqn:Vo,
               (Adapter.validIngressClass d newObj) eqn:Vn;
        cbn [negb andb].
      * split; [|right; apply E3].
        intros o [H|[H|[H|[]]]]; try discriminate. congruence.
      * split; [|right; apply E2]. intros o [H|[H|[]]]; discriminate.
      * split; [|right; apply E3].
        intros o [H|[H|[H|[]]]]; try discriminate. congruence.
      * split; [intros o []|left; reflexivity].
    + unfold Adapter.OnDelete. split; [|right; apply E2].
      intros o [H|[H|[]]]; discriminate.
  - intros d calls [obj|oldObj newObj|obj].
    + unfold K8s.OnAdd.
      destruct (K8s.validIngressClass d obj) eqn:V; cbn [negb].
      * split; [|right; apply E2'].
        intros o [H|[H|[]]]; [|discriminate]. congruence.
      * split; [intros o []|left; reflexivity].
    + unfold K8s.OnUpdate, K8s.OnDelete.
      destruct (K8s.validIngressClass d oldObj) eqn:Vo,
               (K8s.validIngressClass d newObj) eqn:Vn;
        cbn [negb andb].
      * split; [|right; apply E3].
        intros o [H|[H|[H|[]]]]; try discriminate. congruence.
      * split; [|right; apply E2]. intros o [H|[H|[]]]; discriminate.
      * split; [|right; apply E3].
        intros o [H|[H|[H|[]]]]; try discriminate. congruence.
      * split; [intros o []|left; reflexivity].
    + unfold K8s.OnDelete. split; [|right; apply E2].
      intros o [H|[H|[]]]; discriminate.
Qed.

Lemma handlers_insert_admitted_only_witness :
  Adapter.OnUpdate {| Adapter.IngressClass := "" |}
    (ObjIngress nginx_ingress) (ObjService (meta_with_class "nginx")) = [] \/
  ends_with_one_update
    (Adapter.OnUpdate {| Adapter.IngressClass := "" |}
       (ObjIngress nginx_ingress) (ObjService (meta_with_class "nginx"))).
Proof.
  apply (proj1 handlers_insert_admitted_only
           {| Adapter.IngressClass := "" |}).
  apply Adapter_OnUpdate.
Defined.

(* ===================================================================== *)
(** * The streams, response by response *)
(* ===================================================================== *)

Import Xds.

Section StreamAnswers.

Context {Cluster ClusterLoadAssignment Listener VirtualHost : Type}.
Variable Marshal : Message Cluster ClusterLoadAssignment Listener VirtualHost
                   -> option string.

Lemma serialises_all_marshal (typeurl : string) (resources : list Any)
  (v : list (Message Cluster ClusterLoadAssignment Listener VirtualHost)) :
  serialises Marshal typeurl resources v ->
  forall m, In m v -> Marshal m <> None.
Proof.
  induction 1 as [|any m0 resources v [_ Hm] _ IH]; intros m; [intros []|].
  intros [<-|Hin]; [congruence|apply IH, Hin].
Qed.

Lemma marshal_each_cases (typeurl : string)
  (v : list (Message Cluster ClusterLoadAssignment Listener VirtualHost))
  (acc : list Any) :
  match ContourGrpc.marshal_each Marshal typeurl v acc with
  | inl resources =>
      exists r, resources = acc ++ r /\ serialises Marshal typeurl r v
  | inr err =>
      err = MarshalError /\ exists m, In m v /\ Marshal m = None
  end.
Proof.
  revert acc. induction v as [|m v IH]; intros acc.
  - exists []. rewrite app_nil_r. split; [reflexivity|constructor].
  - cbn [ContourGrpc.marshal_each]. destruct (Marshal m) as [data|] eqn:E.
    + specialize (IH (acc ++ [{| any_TypeUrl := typeurl; Value := data |}])).
      destruct (ContourGrpc.marshal_each Marshal typeurl v _) as [res|err].
      * destruct IH as (r & -> & Hr).
        exists ({| any_TypeUrl := typeurl; Value := data |} :: r).
        rewrite <- app_assoc. split; [reflexivity|].
        constructor; [split; [reflexivity|exact E]|exact Hr].
      * destruct IH as (-> & m' & Hin & Hm').
        split; [reflexivity|]. exists m'. split; [right; exact Hin|exact Hm'].
    + split; [reflexivity|]. exists m. split; [left; reflexivity|exact E].
Qed.

(** The loop of the first generation, for any way [messages] of listing
    the values of a snapshot. *)
Lemma ContourGrpc_stream_loop_answers {V : Type}
  (messages : V -> list (Message Cluster ClusterLoadAssignment Listener
                                 VirtualHost))
  (typeurl : string) (events : list (Select V)) (last nonce : Z) :
  let '(outs, err) :=
    ContourGrpc.stream_loop
      (fun v => ContourGrpc.marshal_each Marshal typeurl (messages v) [])
      typeurl events last nonce in
  exists served rest,
    events = served ++ rest /\
    Forall2 (answers Marshal messages typeurl) outs served /\
    stops_at Marshal messages rest err.
Proof.
  revert last nonce. induction events as [|e events IH]; intros last nonce.
  - exists [], []. repeat split; constructor.
  - cbn [ContourGrpc.stream_loop]. destruct e as [version v send_ok|].
    + pose proof (marshal_each_cases typeurl (messages v) []) as Hm.
      destruct (ContourGrpc.marshal_each Marshal typeurl (messages v) [])
        as [resources|err0].
      * destruct Hm as (r & -> & Hr). cbn [app] in *.
        destruct send_ok.
        -- specialize (IH version (Go.wrap64 (nonce + 1))).
           destruct (ContourGrpc.stream_loop _ typeurl events version
                       (Go.wrap64 (nonce + 1))) as [outs err].
           destruct IH as (served & rest & -> & Hf & Hs).
           exists (Notified version v true :: served), rest.
           split; [reflexivity|]. split; [|exact Hs].
           constructor; [|exact Hf].
           exists version, v. repeat split. exact Hr.
        -- exists [], (Notified version v false :: events).
           split; [reflexivity|]. split; [constructor|].
           right. repeat split.
           eapply serialises_all_marshal, Hr.
      * destruct Hm as (-> & Hm).
        exists [], (Notified version v send_ok :: events).
        split; [reflexivity|]. split; [constructor|].
        left. split; [reflexivity|exact Hm].
    + exists [], (Done :: events).
      split; [reflexivity|]. split; [constructor|reflexivity].
Qed.

End StreamAnswers.

(** X10. On a stream of the first generation ([StreamClusters],
    [StreamEndpoints], [StreamRoutes]) the responses answer the
    notifications one by one, in order: each carries the version that was
    notified and the snapshot of that moment, serialised in its order
    under the type URL of the stream.  The stream goes on until the first
    event that is the end of the context, a snapshot that does not
    serialise or a failing [Send]; it returns with that error and answers
    nothing after it. *)
Theorem first_generation_streams_answer_in_order
  {Cluster ClusterLoadAssignment Listener VirtualHost : Type}
  (Marshal : Message Cluster ClusterLoadAssignment Listener VirtualHost
             -> option string) :
  (forall events : list (Select (list Cluster)),
     let '(outs, err) := ContourGrpc.StreamClusters Marshal events in
     exists served rest,
       events = served ++ rest /\
       Forall2 (answers Marshal (map MsgCluster) ClusterType) outs served /\
       stops_at Marshal (map MsgCluster) rest err) /\
  (forall events : list (Select (list ClusterLoadAssignment)),
     let '(outs, err) := ContourGrpc.StreamEndpoints Marshal events in
     exists served rest,
       events = served ++ rest /\
       Forall2 (answers Marshal (map MsgClusterLoadAssignment) EndpointType)
               outs served /\
       stops_at Marshal (map MsgClusterLoadAssignment) rest err) /\
  (forall events : list (Select (list VirtualHost)),
     let '(outs, err) := ContourGrpc.StreamRoutes Marshal events in
     exists served rest,
       events = served ++ rest /\
       Forall2 (answers Marshal
                  (fun v => [MsgRouteConfiguration "ingress_http" v])
                  RouteType) outs served /\
       stops_at Marshal (fun v => [MsgRouteConfiguration "ingress_http" v])
                rest err).
Proof.
  split; [|split]; intros events.
  - apply (ContourGrpc_stream_loop_answers Marshal (map MsgCluster)).
  - apply (ContourGrpc_stream_loop_answers Marshal
             (map MsgClusterLoadAssignment)).
  - apply (ContourGrpc_stream_loop_answers Marshal
             (fun v => [MsgRouteConfiguration "ingress_http" v])).
Qed.

Lemma Grpc_stream_loop_answers (events : list (Select Grpc.resourcer))
  (last nonce : Z) :
  let '(outs, err) := Grpc.stream_loop events last nonce in
  exists served rest,
    events = served ++ rest /\
    Forall2 resourcer_answers outs served /\
    resourcer_stops_at rest err.
Proof.
  revert last nonce. induction events as [|e events IH]; intros last nonce.
  - exists [], []. repeat split; constructor.
  - cbn [Grpc.stream_loop]. destruct e as [version n send_ok|].
    + unfold Grpc.fetch.
      destruct (Grpc.Resources n) as [resources [err0|]] eqn:E.
      * exists [], (Notified version n send_ok :: events).
        split; [reflexivity|]. split; [constructor|].
        left. rewrite E. split; [discriminate|reflexivity].
      * destruct send_ok.
        -- specialize (IH version (Go.wrap64 (nonce + 1))).
           destruct (Grpc.stream_loop events version (Go.wrap64 (nonce + 1)))
             as [outs err].
           destruct IH as (served & rest & -> & Hf & Hs).
           exists (Notified version n true :: served), rest.
           split; [reflexivity|]. split; [|exact Hs].
           constructor; [|exact Hf].
           exists version, n. repeat split. exact E.
        -- exists [], (Notified version n false :: events).
           split; [reflexivity|]. split; [constructor|].
           right. rewrite E. repeat split.
    + exists [], (Done :: events).
      split; [reflexivity|]. split; [constructor|reflexivity].
Qed.

(** X11. On a stream of [internal/grpc/grpc.go] the responses answer the
    notifications one by one, in order: each carries the version that was
    notified, the type URL of the notifier and the resources that the
    notifier returned at that moment.  The stream goes on until the first
    event that is the end of the context, an error of [Resources] or a
    failing [Send]; it returns with that error and answers nothing after
    it, and while no event is of this kind it keeps waiting. *)
Theorem second_generation_stream_answers_in_order
  (events : list (Select Grpc.resourcer)) :
  let '(outs, err) := Grpc.stream events in
  exists served rest,
    events = served ++ rest /\
    Forall2 resourcer_answers outs served /\
    resourcer_stops_at rest err /\
    (err = None <-> rest = []).
Proof.
  pose proof (Grpc_stream_loop_answers events 0 0) as H.
  unfold Grpc.stream. destruct (Grpc.stream_loop events 0 0) as [outs err].
  destruct H as (served & rest & He & Hf & Hs).
  exists served, rest. repeat split; try assumption.
  - intros ->. destruct rest as [|[version n send_ok|] rest];
      [reflexivity|..]; cbn in Hs.
    + destruct Hs as [[Hs _]|[Hs _]]; congruence.
    + discriminate.
  - intros ->. exact Hs.
Qed.

Section ServerStream.

Context {Cluster ClusterLoadAssignment Listener VirtualHost : Type}.

Variable Cluster_Name : Cluster -> string.
Variable ClusterLoadAssignment_ClusterName : ClusterLoadAssignment -> string.
Variable Listener_Name : Listener -> string.
Variable VirtualHost_Name : VirtualHost -> string.
Variable Marshal :
  Message Cluster ClusterLoadAssignment Listener VirtualHost -> option string.

Lemma serialises_type_urls (typeurl : string) (resources : list Any)
  (v : list (Message Cluster ClusterLoadAssignment Listener VirtualHost)) :
  serialises Marshal typeurl resources v ->
  Forall (fun any => any_TypeUrl any = typeurl) resources.
Proof.
  induction 1 as [|any m resources v [Ht _] _ IH]; constructor; assumption.
Qed.

Lemma GrpcServer_marshal_all_error (typeurl : string)
  (v : list (Message Cluster ClusterLoadAssignment Listener VirtualHost))
  (resources : list Any) (err : error) :
  GrpcServer.marshal_all Marshal typeurl v = (resources, Some err) ->
  err = MarshalError.
Proof.
  revert resources. induction v as [|m v IH]; intros resources;
    cbn [GrpcServer.marshal_all].
  - discriminate.
  - destruct (Marshal m); [|congruence].
    destruct (GrpcServer.marshal_all Marshal typeurl v) as [rs [e|]].
    + intros [= _ <-]. eapply IH. reflexivity.
    + discriminate.
Qed.

Lemma GrpcServer_stream_loop_answers (turns : list GrpcServer.Turn)
  (last : Z) :
  let '(outs, err) :=
    GrpcServer.stream_loop
      (GrpcServer.newgrpcServer Cluster_Name
         ClusterLoadAssignment_ClusterName Listener_Name VirtualHost_Name
         Marshal) turns last in
  exists served rest,
    turns = served ++ rest /\
    Forall2 turn_answered outs served /\
    turns_stop_at rest err.
Proof.
  revert last. induction turns as [|turn turns IH]; intros last.
  - exists [], []. repeat split; constructor.
  - cbn [GrpcServer.stream_loop]. destruct turn as [|req sel].
    { exists [], (GrpcServer.RecvFails :: turns).
      split; [reflexivity|]. split; [constructor|reflexivity]. }
    pose proof (newgrpcServer_lookup Cluster_Name
                  ClusterLoadAssignment_ClusterName Listener_Name
                  VirtualHost_Name Marshal (req_TypeUrl req)) as Hl.
    cbn zeta in Hl.
    destruct (GrpcServer.newgrpcServer _ _ _ _ _ !! req_TypeUrl req)
      as [r|].
    + destruct Hl as (Hurl & values & Hres & Hreg).
      assert (registered (req_TypeUrl req)) as Hr.
      { unfold registered. destruct Hreg as [[H _]|[[H _]|[[H _]|[H _]]]];
          auto. }
      destruct sel as [version t send_ok|].
      * rewrite Hres.
        pose proof (GrpcServer_marshal_all_serialises Marshal
                      (req_TypeUrl req) (values t)) as Hm.
        destruct (GrpcServer.marshal_all Marshal (req_TypeUrl req) (values t))
          as [resources [err0|]] eqn:E.
        -- apply GrpcServer_marshal_all_error in E. subst err0.
           exists [], (GrpcServer.Received req (Notified version t send_ok)
                         :: turns).
           split; [reflexivity|]. split; [constructor|].
           right. split; [exact Hr|]. left. reflexivity.
        -- destruct send_ok.
           ++ specialize (IH version).
              destruct (GrpcServer.stream_loop _ turns version)
                as [outs err].
              destruct IH as (served & rest & -> & Hf & Hs).
              exists (GrpcServer.Received req (Notified version t true)
                        :: served), rest.
              split; [reflexivity|]. split; [|exact Hs].
              constructor; [|exact Hf].
              exists req, version, t. split; [reflexivity|].
              split; [exact Hr|]. split; [exact Hurl|].
              eapply serialises_type_urls, Hm.
           ++ exists [], (GrpcServer.Received req (Notified version t false)
                            :: turns).
              split; [reflexivity|]. split; [constructor|].
              right. split; [exact Hr|]. right. split; reflexivity.
      * exists [], (GrpcServer.Received req Done :: turns).
        split; [reflexivity|]. split; [constructor|].
        right. split; [exact Hr|reflexivity].
    + exists [], (GrpcServer.Received req sel :: turns).
      split; [reflexivity|]. split; [constructor|].
      left. split; [|reflexivity].
      unfold registered. tauto.
Qed.

End ServerStream.

(** X12. On a stream of the [grpcServer] each response answers the request
    of its turn: it has the type URL of the request, on itself and on each
    of its resources.  A request for a type URL that has no resourcer
    registered (any but the four of clusters, endpoints, listeners and
    routes) ends the stream with an error before anything is sent for it,
    as do a failing [Recv], the end of the context, a value that does not
    serialise and a failing [Send]. *)
Theorem server_stream_answers_by_type
  {Cluster ClusterLoadAssignment Listener VirtualHost : Type}
  (Cluster_Name : Cluster -> string)
  (ClusterLoadAssignment_ClusterName : ClusterLoadAssignment -> string)
  (Listener_Name : Listener -> string)
  (VirtualHost_Name : VirtualHost -> string)
  (Marshal : Message Cluster ClusterLoadAssignment Listener VirtualHost
             -> option string)
  (turns : list GrpcServer.Turn) :
  let '(outs, err) :=
    GrpcServer.stream
      (GrpcServer.newgrpcServer Cluster_Name
         ClusterLoadAssignment_ClusterName Listener_Name VirtualHost_Name
         Marshal) turns in
  exists served rest,
    turns = served ++ rest /\
    Forall2 turn_answered outs served /\
    turns_stop_at rest err /\
    (err = None <-> rest = []).
Proof.
  pose proof (GrpcServer_stream_loop_answers Cluster_Name
                ClusterLoadAssignment_ClusterName Listener_Name
                VirtualHost_Name Marshal turns 0) as H.
  unfold GrpcServer.stream.
  destruct (GrpcServer.stream_loop _ turns 0) as [outs err].
  destruct H as (served & rest & He & Hf & Hs).
  exists served, rest. repeat split; try assumption.
  - intros ->. destruct rest as [|[|req sel] rest]; [reflexivity|..];
      cbn in Hs.
    + discriminate.
    + destruct Hs as [[_ Hs]|[_ Hs]]; [discriminate|].
      destruct sel as [version t send_ok|];
        [destruct Hs as [Hs|[_ Hs]]|]; discriminate.
  - intros ->. exact Hs.
Qed.

(** X30. [StreamListeners] of the first generation streams once: it sends
    at most one response, which carries the version ["0"], the listener
    type URL and the listeners of the cache serialised in order, and then
    waits for the end of the context.  It sends nothing when a listener
    does not serialise or [Send] fails, and returns that error; otherwise
    it returns only when the context ends. *)
Theorem StreamListeners_streams_once
  {Cluster ClusterLoadAssignment Listener VirtualHost : Type}
  (Marshal : Message Cluster ClusterLoadAssignment Listener VirtualHost
             -> option string)
  (v : list Listener) (send_ok done : bool) :
  let '(outs, err) :=
    ContourGrpc.StreamListeners Marshal v send_ok done in
  (outs = [] \/
   exists out,
     outs = [out] /\ VersionInfo out = "0" /\ TypeUrl out = ListenerType /\
     serialises Marshal ListenerType (Resources out) (map MsgListener v)) /\
  (outs = [] <->
   send_ok = false \/ exists l, In l v /\ Marshal (MsgListener l) = None) /\
  (outs = [] -> err = Some MarshalError \/ err = Some SendError) /\
  (outs <> [] -> err = if done then Some Canceled else None).
Proof.
  unfold ContourGrpc.StreamListeners.
  pose proof (marshal_each_cases Marshal ListenerType (map MsgListener v) [])
    as Hm.
  destruct (ContourGrpc.marshal_each Marshal ListenerType
              (map MsgListener v) []) as [resources|err0].
  - destruct Hm as (r & -> & Hr). cbn [app].
    pose proof (serialises_all_marshal Marshal _ _ _ Hr) as Hall.
    destruct send_ok.
    + split; [right; eexists; repeat split; exact Hr|].
      split; [|split; [discriminate|reflexivity]].
      split; [discriminate|].
      intros [H|(l & Hl & Hn)]; [discriminate|].
      destruct (Hall (MsgListener l)); [apply in_map, Hl|exact Hn].
    + split; [left; reflexivity|].
      split; [tauto|]. split; [right; reflexivity|contradiction].
  - destruct Hm as (-> & m & Hin & Hn).
    split; [left; reflexivity|]. split; [|split; [auto|contradiction]].
    split; [|reflexivity]. intros _. right.
    apply in_map_iff in Hin as (l & <- & Hl). exists l. tauto.
Qed.

(* ===================================================================== *)
(** * Sorted values, and more on the route visitor *)
(* ===================================================================== *)

Lemma StronglySorted_weaken {A : Type} (R R' : A -> A -> Prop) (l : list A) :
  (forall a b, R a b -> R' a b) -> StronglySorted R l -> StronglySorted R' l.
Proof.
  intros HR. induction 1 as [|a l Hl IH Ha]; constructor; [exact IH|].
  eapply Forall_impl; [exact Ha|]. intros b. apply HR.
Qed.

Lemma Stable_by_name_sorted_copy {T : Type} (Name : T -> string)
  (values : list T) :
  sorted_copy Name
    (Go.Stable (fun a b => Go.str_lt (Name a) (Name b)) values) values.
Proof.
  unfold Go.Stable. split; [apply insertionSort_Permutation|]. split.
  - eapply StronglySorted_weaken;
      [|apply (insertionSort_sorted
                 (fun a b => Go.str_lt (Name a) (Name b)))].
    + intros a b H. apply str_lt_false_le. exact H.
    + intros x y. apply str_lt_asym.
    + intros x y z Hxy Hyz. apply str_lt_false_le.
      apply str_lt_false_le in Hxy, Hyz. etrans; eassumption.
  - intros name. apply insertionSort_stable.
    intros x y Hx Hy. apply String.eqb_eq in Hx, Hy. subst name.
    rewrite Hy. apply str_lt_irrefl.
Qed.

(** X13. [Values] of the resourcers of [resources.go] returns the values
    of the cache sorted by name: the same entries, in non-decreasing order
    of their names, entries of one name in the order of the cache.  For
    routes it returns the two route configurations [ingress_http] and
    [ingress_https], in this order and also when a cache is empty, each
    with the virtual hosts of its cache sorted so. *)
Theorem Values_sorted_by_name
  {Cluster ClusterLoadAssignment Listener VirtualHost : Type}
  (Cluster_Name : Cluster -> string)
  (ClusterLoadAssignment_ClusterName : ClusterLoadAssignment -> string)
  (Listener_Name : Listener -> string)
  (VirtualHost_Name : VirtualHost -> string)
  (t : GrpcServer.Translator) :
  (exists sorted,
     GrpcServer.CDS_Values Cluster_Name t = map MsgCluster sorted /\
     sorted_copy Cluster_Name sorted
       (cache_values (GrpcServer.ClusterCache t))) /\
  (exists sorted,
     GrpcServer.EDS_Values ClusterLoadAssignment_ClusterName t =
       map MsgClusterLoadAssignment sorted /\
     sorted_copy ClusterLoadAssignment_ClusterName sorted
       (cache_values (GrpcServer.ClusterLoadAssignmentCache t))) /\
  (exists sorted,
     GrpcServer.LDS_Values Listener_Name t = map MsgListener sorted /\
     sorted_copy Listener_Name sorted
       (cache_values (GrpcServer.ListenerCache t))) /\
  (exists http https,
     GrpcServer.RDS_Values VirtualHost_Name t =
       [ @MsgRouteConfiguration Cluster ClusterLoadAssignment Listener
           VirtualHost "ingress_http" http;
         MsgRouteConfiguration "ingress_https" https ] /\
     sorted_copy VirtualHost_Name http (GrpcServer.VirtualHostCache_HTTP t) /\
     sorted_copy VirtualHost_Name https
       (GrpcServer.VirtualHostCache_HTTPS t)).
Proof.
  split; [|split; [|split]].
  - eexists. split; [reflexivity|]. apply Stable_by_name_sorted_copy.
  - eexists. split; [reflexivity|]. apply Stable_by_name_sorted_copy.
  - eexists. split; [reflexivity|]. apply Stable_by_name_sorted_copy.
  - eexists _, _. split; [reflexivity|].
    split; apply Stable_by_name_sorted_copy.
Qed.

(** X14. No name in the output of the route visitor is longer than 60
    bytes: not the name of a virtual host, and not the name of the cluster
    of a route, however long the host name, the namespace and the name of
    the service are. *)
Theorem visitor_names_fit (dag : Dag.DAG) :
  exists m http https,
    Route.Visit dag = Some m /\
    m !! "ingress_http" =
      Some {| rc_Name := "ingress_http"; VirtualHosts := http |} /\
    m !! "ingress_https" =
      Some {| rc_Name := "ingress_https"; VirtualHosts := https |} /\
    forall vh, In vh (http ++ https) ->
      Go.len (vh_Name vh) <= 60 /\
      forall rr a, In rr (Routes vh) -> Action_of rr = Route_Route a ->
                   Go.len (Cluster a) <= 60.
Proof.
  destruct (Visit_spec dag) as (m & http & https & Hv & Hh & Hs & Fh & Fs).
  exists m, http, https. repeat split; try assumption.
  - apply in_app_or in H as [H|H];
      [destruct (Forall2_In_l _ _ _ _ Fh H) as (v & _ & Hn & _)
      |destruct (Forall2_In_l _ _ _ _ Fs H) as (v & _ & Hn & _)];
      rewrite hashname_copies in Hn; apply hashname_bound in Hn; exact Hn.
  - intros rr a Hrr Ha.
    assert (exists secure rv, built_from secure rr rv)
      as (secure & rv & r & children & svc & svcs & _ & _ & _ & Hb).
    { apply in_app_or in H as [H|H].
      - destruct (emitted_route_origin false _ _ _ _ _ Fh H Hrr)
          as (v & rv & _ & _ & Hb). eauto.
      - destruct (emitted_route_origin true _ _ _ _ _ Fs H Hrr)
          as (v & rv & _ & _ & Hb). eauto. }
    destruct (Dag.HTTPSUpgrade r && negb secure); [congruence|].
    destruct Hb as (a' & Ha' & Hc & _).
    assert (a' = a) as -> by congruence.
    rewrite hashname_copies in Hc. apply hashname_bound in Hc. exact Hc.
Qed.

Lemma visitVertex_domains (v : Dag.Vertex) (c : Route.configs) :
  exists http https,
    Route.visitVertex v c =
      Some {| Route.ingress_http := Route.ingress_http c ++ http;
              Route.ingress_https := Route.ingress_https c ++ https |} /\
    Forall2 (has_domains ":80") http (List.filter plain_with_routes [v]) /\
    Forall2 (has_domains ":443") https (List.filter secure_with_routes [v]).
Proof.
  destruct c as [ch cs].
  destruct v as [h children|h children|r children|s|ns n];
    cbn [Route.visitVertex List.filter plain_with_routes secure_with_routes];
    try (exists [], []; rewrite !app_nil_r; repeat split; constructor).
  - destruct (hashname_total 60 [h]) as (name & Hn & _); [lia|].
    rewrite hashname_copies, Hn.
    destruct (foldM_routes false Route.visitRoute visitRoute_spec children [])
      as (out & -> & Hp).
    rewrite existsb_filter. cbn [app].
    destruct out as [|r0 out].
    + cbn [length Nat.ltb Nat.leb]. inversion Hp.
      exists [], []. rewrite !app_nil_r. repeat split; constructor.
    + cbn [length Nat.ltb Nat.leb].
      destruct (List.filter serviced children) as [|s0 ss] eqn:E;
        [inversion Hp|].
      eexists [_], []. rewrite app_nil_r. split; [reflexivity|].
      split; [|constructor]. constructor; [|constructor].
      unfold has_domains, domains_for. cbn [Domains vertex_host].
      destruct (String.eqb h "*") eqn:Eh; [|reflexivity].
      apply String.eqb_eq in Eh. subst h. reflexivity.
  - destruct (hashname_total 60 [h]) as (name & Hn & _); [lia|].
    rewrite hashname_copies, Hn.
    destruct (foldM_routes true Route.visitSecureRoute visitSecureRoute_spec
                children []) as (out & -> & Hp).
    rewrite existsb_filter. cbn [app].
    destruct out as [|r0 out].
    + cbn [length Nat.ltb Nat.leb]. inversion Hp.
      exists [], []. rewrite !app_nil_r. repeat split; constructor.
    + cbn [length Nat.ltb Nat.leb].
      destruct (List.filter serviced children) as [|s0 ss] eqn:E;
        [inversion Hp|].
      eexists [], [_]. rewrite app_nil_r. split; [reflexivity|].
      split; [constructor|]. constructor; [|constructor].
      unfold has_domains, domains_for. cbn [Domains vertex_host].
      destruct (String.eqb h "*") eqn:Eh; [|reflexivity].
      apply String.eqb_eq in Eh. subst h. reflexivity.
Qed.

Lemma foldM_visitVertex_domains (dag : Dag.DAG) (c : Route.configs) :
  exists http https,
    Go.foldM Route.visitVertex dag c =
      Some {| Route.ingress_http := Route.ingress_http c ++ http;
              Route.ingress_https := Route.ingress_https c ++ https |} /\
    Forall2 (has_domains ":80") http (List.filter plain_with_routes dag) /\
    Forall2 (has_domains ":443") https (List.filter secure_with_routes dag).
Proof.
  revert c. induction dag as [|v dag IH]; intros c.
  - exists [], []. rewrite !app_nil_r. destruct c.
    repeat split; constructor.
  - cbn [Go.foldM].
    destruct (visitVertex_domains v c) as (h1 & s1 & -> & Hh1 & Hs1).
    destruct (IH {| Route.ingress_http := Route.ingress_http c ++ h1;
                    Route.ingress_https := Route.ingress_https c ++ s1 |})
      as (h2 & s2 & -> & Hh2 & Hs2).
    exists (h1 ++ h2), (s1 ++ s2). cbn [Route.ingress_http Route.ingress_https].
    rewrite !app_assoc. split; [reflexivity|].
    change (v :: dag) with ([v] ++ dag). rewrite !List.filter_app.
    split; apply Forall2_app; assumption.
Qed.

(** X15. The domains of an emitted virtual host are the host name of its
    vertex and the host name with the port of the listener, [:80] in
    [ingress_http] and [:443] in [ingress_https]; for the wildcard host
    ["*"] the one domain is the wildcard, without a port.  The virtual
    hosts come in the order in which the DAG hands out its vertices. *)
Theorem visitor_domains (dag : Dag.DAG) :
  exists m http https,
    Route.Visit dag = Some m /\
    m !! "ingress_http" =
      Some {| rc_Name := "ingress_http"; VirtualHosts := http |} /\
    m !! "ingress_https" =
      Some {| rc_Name := "ingress_https"; VirtualHosts := https |} /\
    map Domains http =
      map (fun v => domains_for ":80" (vertex_host v))
          (List.filter plain_with_routes dag) /\
    map Domains https =
      map (fun v => domains_for ":443" (vertex_host v))
          (List.filter secure_with_routes dag).
Proof.
  unfold Route.Visit.
  destruct (foldM_visitVertex_domains dag
              {| Route.ingress_http := []; Route.ingress_https := [] |})
    as (http & https & -> & Hh & Hs).
  cbn [Route.ingress_http Route.ingress_https app].
  eexists _, http, https. split; [reflexivity|].
  split; [apply lookup_insert_eq|].
  split; [rewrite lookup_insert_ne by discriminate; apply lookup_insert_eq|].
  split.
  - clear Hs. induction Hh as [|vh v http l H _ IH]; [reflexivity|].
    cbn [map]. rewrite IH. f_equal. exact H.
  - clear Hh. induction Hs as [|vh v https l H _ IH]; [reflexivity|].
    cbn [map]. rewrite IH. f_equal. exact H.
Qed.

(* ===================================================================== *)
(** * The translator *)
(* ===================================================================== *)

Lemma hashname_60 (s : list string) :
  exists name, Envoy.hashname 60 s = Some name /\ Go.len name <= 60.
Proof. apply hashname_total. lia. Qed.

Section TranslatorServices.

Import Core Clusterapi.

Variable svc : Service.

Lemma cluster_of_port_cluster (p : ServicePort) (name : string) :
  cluster_of_port svc p name
    (Translator.cluster name
       {| EdsConfig := {| ApiType := ApiConfigSource_GRPC;
                          acs_ClusterName := ["xds_cluster"] |};
          ServiceName := Kube.Namespace (svc_Meta svc) +:+ "/" +:+
                         Kube.Name (svc_Meta svc) +:+ "/" +:+
                         Kube.IntOrString_String (TargetPort p) |}).
Proof. repeat split. Qed.

Lemma cluster_of_port_inv (p : ServicePort) (name : string) (c : Cluster) :
  cluster_of_port svc p name c ->
  c = Translator.cluster name
        {| EdsConfig := {| ApiType := ApiConfigSource_GRPC;
                           acs_ClusterName := ["xds_cluster"] |};
           ServiceName := Kube.Namespace (svc_Meta svc) +:+ "/" +:+
                          Kube.Name (svc_Meta svc) +:+ "/" +:+
                          Kube.IntOrString_String (TargetPort p) |}.
Proof.
  destruct c as [n t [cfg sn] ct lb].
  intros (H1 & H2 & H3 & H4 & H5 & H6). cbn in H1, H2, H3, H4, H5, H6.
  subst. reflexivity.
Qed.

(** One turn of the loops of [addService] and [removeService]. *)
Lemma addService_port_spec (p : ServicePort) (adds : list Cluster)
  (removes : list string) :
  exists out,
    Translator.addService_port svc p adds = Some (adds ++ out) /\
    Translator.removeService_port svc p removes =
      Some (removes ++ map cl_Name out) /\
    Forall (fun c => Go.len (cl_Name c) <= 60) out /\
    forall c, In c out <->
      Protocol p = "TCP" /\ port_names svc p (cl_Name c) /\
      cluster_of_port svc p (cl_Name c) c.
Proof.
  unfold Translator.addService_port, Translator.removeService_port,
    port_names.
  destruct (String.eqb (Protocol p) "TCP") eqn:Ep.
  2:{ exists []. rewrite !app_nil_r.
      split; [reflexivity|]. split; [reflexivity|]. split; [constructor|].
      intros c. split; [intros []|]. intros [H _].
      rewrite H in Ep. discriminate. }
  apply String.eqb_eq in Ep.
  destruct (hashname_60 [Kube.Namespace (svc_Meta svc);
                         Kube.Name (svc_Meta svc); Go.Itoa (Port p)])
    as (num & Hnum & Bnum).
  destruct (hashname_60 [Kube.Namespace (svc_Meta svc);
                         Kube.Name (svc_Meta svc); sp_Name p])
    as (nam & Hnam & Bnam).
  rewrite Hnum, Hnam.
  destruct (String.eqb (sp_Name p) "") eqn:En; cbn [negb].
  - apply String.eqb_eq in En. eexists [_].
    split; [reflexivity|]. split; [reflexivity|].
    split; [repeat constructor; exact Bnum|].
    intros c. cbn [In]. split.
    + intros [<-|[]]. split; [exact Ep|].
      split; [left; reflexivity|apply cluster_of_port_cluster].
    + intros (_ & [Hn|[Hn _]] & Hc); [|destruct (Hn En)].
      left. apply cluster_of_port_inv in Hc. rewrite Hc.
      cbn [cl_Name Translator.cluster] in Hn. congruence.
  - apply String.eqb_neq in En. eexists [_; _].
    rewrite <- !app_assoc. cbn [app map].
    split; [reflexivity|]. split; [reflexivity|].
    split; [repeat constructor; assumption|].
    intros c. cbn [In]. split.
    + intros [<-|[<-|[]]]; (split; [exact Ep|]).
      * split; [right; split; [exact En|reflexivity]
               |apply cluster_of_port_cluster].
      * split; [left; reflexivity|apply cluster_of_port_cluster].
    + intros (_ & Hn & Hc).
      assert (c = Translator.cluster (cl_Name c)
                    {| EdsConfig := {| ApiType := ApiConfigSource_GRPC;
                                       acs_ClusterName := ["xds_cluster"] |};
                       ServiceName :=
                         Kube.Namespace (svc_Meta svc) +:+ "/" +:+
                         Kube.Name (svc_Meta svc) +:+ "/" +:+
                         Kube.IntOrString_String (TargetPort p) |}) as ->.
      { apply cluster_of_port_inv, Hc. }
      cbn [cl_Name Translator.cluster] in Hn.
      destruct Hn as [Hn|[_ Hn]]; [right; left|left]; congruence.
Qed.

Lemma addService_ports_spec (ports : list ServicePort) (adds : list Cluster)
  (removes : list string) :
  exists out,
    Go.foldM (Translator.addService_port svc) ports adds
      = Some (adds ++ out) /\
    Go.foldM (Translator.removeService_port svc) ports removes
      = Some (removes ++ map cl_Name out) /\
    Forall (fun c => Go.len (cl_Name c) <= 60) out /\
    forall c, In c out <->
      exists p, In p ports /\ Protocol p = "TCP" /\
                port_names svc p (cl_Name c) /\
                cluster_of_port svc p (cl_Name c) c.
Proof.
  revert adds removes. induction ports as [|p ports IH]; intros adds removes.
  - exists []. rewrite !app_nil_r.
    split; [reflexivity|]. split; [reflexivity|]. split; [constructor|].
    intros c. split; [intros []|intros (p & [] & _)].
  - cbn [Go.foldM].
    destruct (addService_port_spec p adds removes)
      as (o1 & -> & -> & B1 & H1).
    destruct (IH (adds ++ o1) (removes ++ map cl_Name o1))
      as (o2 & -> & -> & B2 & H2).
    exists (o1 ++ o2). rewrite map_app, !app_assoc.
    split; [reflexivity|]. split; [reflexivity|].
    split; [apply Forall_app; split; assumption|].
    intros c. rewrite in_app_iff, H1, H2. cbn [In]. split.
    + intros [H|(q & Hq & H)]; [exists p|exists q]; tauto.
    + intros (q & [<-|Hq] & H); [left; exact H|right; exists q; tauto].
Qed.

End TranslatorServices.

(** X16. [removeService] removes exactly what [addService] adds: the
    names it hands to the cluster cache are the names of the clusters
    that [addService] hands to it for the same service, in the same
    order.  Both return for every service, and no cluster name is longer
    than 60 bytes. *)
Theorem removeService_undoes_addService (svc : Core.Service) :
  exists adds,
    Translator.addService svc = Some adds /\
    Translator.removeService svc = Some (map Clusterapi.cl_Name adds) /\
    Forall (fun c => Go.len (Clusterapi.cl_Name c) <= 60) adds.
Proof.
  destruct (addService_ports_spec svc (Core.Ports svc) [] [])
    as (out & Ha & Hr & Hb & _).
  exists out. repeat split; assumption.
Qed.

(** X17. [addService] adds one cluster for each port of the service
    whose protocol is TCP, under the number of the port, and a second one
    under the name of the port if it has a name; ports of other protocols
    add nothing.  Each cluster is an EDS cluster with round-robin
    balancing and a connect timeout of 250 ms whose endpoints are looked
    up under namespace, name and target port of the service port. *)
Theorem addService_clusters (svc : Core.Service) :
  exists adds,
    Translator.addService svc = Some adds /\
    (forall c, In c adds <->
       exists p, In p (Core.Ports svc) /\ Core.Protocol p = "TCP" /\
                 port_names svc p (Clusterapi.cl_Name c) /\
                 cluster_of_port svc p (Clusterapi.cl_Name c) c) /\
    (Forall (fun p => Core.Protocol p <> "TCP") (Core.Ports svc) ->
     adds = []).
Proof.
  destruct (addService_ports_spec svc (Core.Ports svc) [] [])
    as (out & Ha & _ & _ & Hc).
  exists out. split; [exact Ha|]. split; [exact Hc|].
  intros Hn. destruct out as [|c out]; [reflexivity|].
  destruct (proj1 (Hc c) (or_introl eq_refl)) as (p & Hp & Htcp & _).
  rewrite Forall_forall in Hn. apply list_elem_of_In, Hn in Hp.
  contradiction.
Qed.

Lemma addService_clusters_witness :
  Translator.addService
    {| Core.svc_Meta := Core.svc_Meta kuard_service;
       Core.Ports := [ {| Core.sp_Name := "dns"; Core.Protocol := "UDP";
                          Core.Port := 53;
                          Core.TargetPort := Kube.FromInt 53 |} ] |} =
  Some [].
Proof.
  destruct (addService_clusters
              {| Core.svc_Meta := Core.svc_Meta kuard_service;
                 Core.Ports := [ {| Core.sp_Name := "dns";
                                    Core.Protocol := "UDP";
                                    Core.Port := 53;
                                    Core.TargetPort := Kube.FromInt 53 |} ] |})
    as (adds & Ha & _ & Hn).
  rewrite Ha. f_equal. apply Hn. repeat constructor. discriminate.
Defined.

(** X18. A backend of an Ingress that refers to a TCP port of a service
    in the namespace of the Ingress, by the number of the port or by its
    name, gets from [ingressBackendToClusterName] the name of a cluster
    that [addService] adds for that service: the routes that [addIngress]
    builds point at clusters that exist. *)
Theorem backend_names_a_cluster_of_the_service (i : Kube.Ingress)
  (b : Kube.IngressBackend) (svc : Core.Service) (p : Core.ServicePort) :
  Kube.Namespace (Core.svc_Meta svc) = Kube.Namespace (Kube.ing_Meta i) ->
  Kube.Name (Core.svc_Meta svc) = Kube.ServiceName b ->
  In p (Core.Ports svc) -> Core.Protocol p = "TCP" ->
  Kube.ServicePort b = Kube.FromInt (Core.Port p) \/
  (Kube.ServicePort b = Kube.FromString (Core.sp_Name p) /\
   Core.sp_Name p <> "") ->
  exists name adds c,
    Envoy.ingressBackendToClusterName i b = Some name /\
    Translator.addService svc = Some adds /\
    In c adds /\ Clusterapi.cl_Name c = name /\
    Clusterapi.cl_Type c = Clusterapi.Cluster_EDS.
Proof.
  intros Hns Hname Hp Htcp Hport.
  destruct (addService_ports_spec svc (Core.Ports svc) [] [])
    as (out & Ha & _ & _ & Hc).
  unfold Envoy.ingressBackendToClusterName. rewrite <- Hns, <- Hname.
  destruct (hashname_60 [Kube.Namespace (Core.svc_Meta svc);
                         Kube.Name (Core.svc_Meta svc);
                         Kube.IntOrString_String (Kube.ServicePort b)])
    as (name & Hn & _).
  pose (c := Translator.cluster name
        {| Clusterapi.EdsConfig :=
             {| Clusterapi.ApiType := Clusterapi.ApiConfigSource_GRPC;
                Clusterapi.acs_ClusterName := ["xds_cluster"] |};
           Clusterapi.ServiceName :=
             Kube.Namespace (Core.svc_Meta svc) +:+ "/" +:+
             Kube.Name (Core.svc_Meta svc) +:+ "/" +:+
             Kube.IntOrString_String (Core.TargetPort p) |}).
  exists name, out, c. split; [exact Hn|]. split; [exact Ha|].
  split; [|split; reflexivity].
  apply Hc. exists p. split; [exact Hp|]. split; [exact Htcp|].
  split; [|apply cluster_of_port_cluster].
  cbn [Clusterapi.cl_Name c Translator.cluster].
  destruct Hport as [E|[E Hne]]; rewrite E in Hn; cbn in Hn.
  - left. exact Hn.
  - right. split; [exact Hne|exact Hn].
Qed.

Lemma backend_names_a_cluster_of_the_service_witness :
  exists name adds c,
    Envoy.ingressBackendToClusterName kuard_ingress
      {| Kube.ServiceName := "kuard";
         Kube.ServicePort := Kube.FromString "http" |} = Some name /\
    Translator.addService kuard_service = Some adds /\
    In c adds /\ Clusterapi.cl_Name c = name /\
    Clusterapi.cl_Type c = Clusterapi.Cluster_EDS.
Proof.
  apply (backend_names_a_cluster_of_the_service kuard_ingress _ kuard_service
           {| Core.sp_Name := "http"; Core.Protocol := "TCP"; Core.Port := 80;
              Core.TargetPort := Kube.FromInt 8080 |}).
  - reflexivity.
  - reflexivity.
  - left. reflexivity.
  - reflexivity.
  - right. split; [reflexivity|discriminate].
Defined.

Section TranslatorEndpoints.

Import Core Clusterapi.

Variable e : Endpoints.

Lemma addEndpoints_addresses (p : EndpointPort) (l : list EndpointAddress)
  (lb : list LbEndpoint) :
  fold_left (fun lb a => Translator.addEndpoints_address p a lb) l lb =
  lb ++ map (fun a => {| sa_Protocol := SocketAddress_TCP;
                         Address := IP a;
                         PortValue := ep_Port p mod 2 ^ 32 |}) l.
Proof.
  revert lb. induction l as [|a l IH]; intros lb.
  - rewrite app_nil_r. reflexivity.
  - cbn [fold_left map]. rewrite IH.
    unfold Translator.addEndpoints_address, Translator.uint32.
    rewrite <- app_assoc. reflexivity.
Qed.

Lemma addEndpoints_ports_spec (s : EndpointSubset) (ports : list EndpointPort)
  (adds : list ClusterLoadAssignment) :
  exists out,
    Go.foldM (Translator.addEndpoints_port e s) ports adds
      = Some (adds ++ out) /\
    Forall2 (fun cla sp => assignment_of_port e (fst sp) (snd sp) cla)
            out (map (pair s) ports) /\
    Forall (fun cla => Go.len (cla_ClusterName cla) <= 60) out.
Proof.
  revert adds. induction ports as [|p ports IH]; intros adds.
  - exists []. rewrite app_nil_r. repeat split; constructor.
  - cbn [Go.foldM]. unfold Translator.addEndpoints_port at 1.
    destruct (hashname_60 [Kube.Namespace (ep_Meta e); Kube.Name (ep_Meta e);
                           Go.Itoa (ep_Port p)]) as (name & Hn & Bn).
    rewrite Hn. rewrite addEndpoints_addresses. cbn [app].
    match goal with
    | |- context [Go.foldM _ ports (adds ++ [?cla])] =>
        destruct (IH (adds ++ [cla])) as (out & -> & Hf & Hb);
        exists (cla :: out)
    end.
    rewrite <- app_assoc. split; [reflexivity|]. split.
    + cbn [map]. constructor; [|exact Hf]. split; [exact Hn|reflexivity].
    + constructor; [exact Bn|exact Hb].
Qed.

Lemma addEndpoints_subsets_spec (subsets : list EndpointSubset)
  (adds : list ClusterLoadAssignment) :
  exists out,
    Go.foldM (Translator.addEndpoints_subset e) subsets adds
      = Some (adds ++ out) /\
    Forall2 (fun cla sp => assignment_of_port e (fst sp) (snd sp) cla) out
      (flat_map (fun s => match Addresses s with
                          | [] => []
                          | _ => map (pair s) (sub_Ports s)
                          end) subsets) /\
    Forall (fun cla => Go.len (cla_ClusterName cla) <= 60) out.
Proof.
  revert adds. induction subsets as [|s subsets IH]; intros adds.
  - exists []. rewrite app_nil_r. repeat split; constructor.
  - cbn [Go.foldM flat_map]. unfold Translator.addEndpoints_subset at 1.
    destruct (Addresses s) as [|a l] eqn:Ea.
    + cbn [length Nat.eqb orb app]. apply IH.
    + cbn [length Nat.eqb orb].
      destruct (sub_Ports s) as [|p ports] eqn:Ep.
      * cbn [length Nat.eqb map app Go.foldM]. apply IH.
      * cbn [length Nat.eqb]. cbn beta iota.
        destruct (addEndpoints_ports_spec s (p :: ports) adds)
          as (o1 & -> & F1 & B1).
        destruct (IH (adds ++ o1)) as (o2 & -> & F2 & B2).
        exists (o1 ++ o2). rewrite app_assoc. split; [reflexivity|].
        split; [apply Forall2_app; assumption
               |apply Forall_app; split; assumption].
Qed.

Lemma removeEndpoints_ports_spec (ports : list EndpointPort)
  (removes : list string) :
  exists out,
    Go.foldM (Translator.removeEndpoints_port e) ports removes
      = Some (removes ++ out) /\
    forall p name,
      In p ports ->
      Envoy.hashname 60 [Kube.Namespace (ep_Meta e); Kube.Name (ep_Meta e);
                         Go.Itoa (ep_Port p)] = Some name ->
      In name out.
Proof.
  revert removes. induction ports as [|p ports IH]; intros removes.
  - exists []. rewrite app_nil_r. split; [reflexivity|]. intros p name [].
  - cbn [Go.foldM]. unfold Translator.removeEndpoints_port at 1.
    destruct (hashname_60 [Kube.Namespace (ep_Meta e); Kube.Name (ep_Meta e);
                           Go.Itoa (ep_Port p)]) as (num & Hnum & _).
    destruct (hashname_60 [Kube.Namespace (ep_Meta e); Kube.Name (ep_Meta e);
                           ep_Name p]) as (nam & Hnam & _).
    rewrite Hnum, Hnam.
    destruct (negb (String.eqb (ep_Name p) "")).
    + destruct (IH ((removes ++ [nam]) ++ [num])) as (out & -> & Hout).
      exists (nam :: num :: out). rewrite <- !app_assoc.
      split; [reflexivity|].
      intros q name [<-|Hq] Hname.
      * right. left. congruence.
      * right. right. eapply Hout; eassumption.
    + destruct (IH (removes ++ [num])) as (out & -> & Hout).
      exists (num :: out). rewrite <- !app_assoc.
      split; [reflexivity|].
      intros q name [<-|Hq] Hname.
      * left. congruence.
      * right. eapply Hout; eassumption.
Qed.

Lemma removeEndpoints_subsets_spec (subsets : list EndpointSubset)
  (removes : list string) :
  exists out,
    Go.foldM (Translator.removeEndpoints_subset e) subsets removes
      = Some (removes ++ out) /\
    forall s p name,
      In s subsets -> In p (sub_Ports s) ->
      Envoy.hashname 60 [Kube.Namespace (ep_Meta e); Kube.Name (ep_Meta e);
                         Go.Itoa (ep_Port p)] = Some name ->
      In name out.
Proof.
  revert removes. induction subsets as [|s subsets IH]; intros removes.
  - exists []. rewrite app_nil_r. split; [reflexivity|]. intros s p name [].
  - cbn [Go.foldM]. unfold Translator.removeEndpoints_subset at 1.
    destruct (removeEndpoints_ports_spec (sub_Ports s) removes)
      as (o1 & -> & H1).
    destruct (IH (removes ++ o1)) as (o2 & -> & H2).
    exists (o1 ++ o2). rewrite app_assoc. split; [reflexivity|].
    intros s' p name [<-|Hs] Hp Hname; apply in_or_app.
    + left. eapply H1; eassumption.
    + right. eapply H2; eassumption.
Qed.

End TranslatorEndpoints.

(** X19. [addEndpoints] adds one load assignment for each port of each
    subset that has an address, in order, and none for a subset without
    addresses.  The assignment is named by namespace, name and port
    number, and has one locality with one TCP endpoint for each address
    of the subset, in the order of the addresses, at the port number
    taken as a [uint32]. *)
Theorem addEndpoints_assignments (e : Core.Endpoints) :
  exists adds,
    Translator.addEndpoints e = Some adds /\
    Forall2 (fun cla sp => assignment_of_port e (fst sp) (snd sp) cla)
            adds (ready_ports e) /\
    Forall (fun cla => Go.len (Clusterapi.cla_ClusterName cla) <= 60) adds.
Proof.
  destruct (addEndpoints_subsets_spec e (Core.Subsets e) [])
    as (out & Ha & Hf & Hb).
  exists out. repeat split; assumption.
Qed.

Lemma addEndpoints_covered (e : Core.Endpoints) :
  exists adds removes,
    Translator.addEndpoints e = Some adds /\
    Translator.removeEndpoints e = Some removes /\
    incl (map Clusterapi.cla_ClusterName adds) removes.
Proof.
  destruct (addEndpoints_subsets_spec e (Core.Subsets e) [])
    as (adds & Ha & Hf & _).
  destruct (removeEndpoints_subsets_spec e (Core.Subsets e) [])
    as (removes & Hr & Hall).
  exists adds, removes. split; [exact Ha|]. split; [exact Hr|].
  intros name Hin. apply in_map_iff in Hin as (cla & <- & Hin).
  destruct (Forall2_In_l _ _ _ _ Hf Hin) as ([s p] & Hsp & Hn & _).
  cbn [fst snd] in Hn.
  apply in_flat_map in Hsp as (s' & Hs' & Hsp).
  destruct (Core.Addresses s'); [destruct Hsp|].
  apply in_map_iff in Hsp as (p' & [= <- <-] & Hp).
  eapply Hall; eassumption.
Qed.

(** X20. [removeEndpoints] removes every load assignment that
    [addEndpoints] adds for the same object: each name that [addEndpoints]
    hands to the cache is among the names that [removeEndpoints] hands to
    it, which are the names by port number and by port name of every
    port of every subset, with or without addresses.  Both return for
    every object. *)
Theorem removeEndpoints_covers_addEndpoints (e : Core.Endpoints) :
  exists adds removes,
    Translator.addEndpoints e = Some adds /\
    Translator.removeEndpoints e = Some removes /\
    incl (map Clusterapi.cla_ClusterName adds) removes /\
    forall s p name,
      In s (Core.Subsets e) -> In p (Core.sub_Ports s) ->
      Envoy.hashname 60 [Kube.Namespace (Core.ep_Meta e);
                         Kube.Name (Core.ep_Meta e);
                         Go.Itoa (Core.ep_Port p)] = Some name ->
      In name removes.
Proof.
  destruct (addEndpoints_covered e) as (adds & removes & Ha & Hr & Hi).
  destruct (removeEndpoints_subsets_spec e (Core.Subsets e) [])
    as (removes' & Hr' & Hall).
  exists adds, removes. split; [exact Ha|]. split; [exact Hr|].
  split; [exact Hi|].
  assert (removes' = removes) as <-.
  { unfold Translator.removeEndpoints in Hr. cbn [app] in Hr'. congruence. }
  exact Hall.
Qed.

(** X21. Where namespace, name and port number joined by slashes are
    shorter than 60 bytes, the load assignment that [addEndpoints] builds
    for a port number has as its name the EDS service name of the cluster
    that [addService] builds for a service port with that number as its
    target port: Envoy finds the endpoints of the cluster. *)
Theorem assignment_named_as_cluster_expects (svc : Core.Service)
  (p : Core.ServicePort) (e : Core.Endpoints) (s : Core.EndpointSubset)
  (q : Core.EndpointPort) (name : string) (c : Clusterapi.Cluster)
  (cla : Clusterapi.ClusterLoadAssignment) :
  Kube.Namespace (Core.ep_Meta e) = Kube.Namespace (Core.svc_Meta svc) ->
  Kube.Name (Core.ep_Meta e) = Kube.Name (Core.svc_Meta svc) ->
  Core.TargetPort p = Kube.FromInt (Core.ep_Port q) ->
  Go.len (Kube.Namespace (Core.svc_Meta svc) +:+ "/" +:+
          Kube.Name (Core.svc_Meta svc) +:+ "/" +:+
          Go.Itoa (Core.ep_Port q)) < 60 ->
  cluster_of_port svc p name c ->
  assignment_of_port e s q cla ->
  Clusterapi.cla_ClusterName cla =
    Clusterapi.ServiceName (Clusterapi.EdsClusterConfig c).
Proof.
  intros Hns Hname Htp Hlen (_ & _ & _ & _ & _ & Hsn) (Hcla & _).
  rewrite Hsn, Htp. cbn [Kube.IntOrString_String].
  rewrite Hns, Hname in Hcla. unfold Envoy.hashname in Hcla.
  cbn [Go.Join String.concat] in Hcla.
  apply Z.gtb_lt in Hlen. rewrite Hlen in Hcla. congruence.
Qed.

Lemma assignment_named_as_cluster_expects_witness :
  Clusterapi.cla_ClusterName kuard_assignment =
  Clusterapi.ServiceName (Clusterapi.EdsClusterConfig kuard_cluster).
Proof.
  apply (assignment_named_as_cluster_expects kuard_service
           {| Core.sp_Name := "http"; Core.Protocol := "TCP"; Core.Port := 80;
              Core.TargetPort := Kube.FromInt 8080 |}
           kuard_endpoints
           {| Core.Addresses := [ {| Core.IP := "10.0.0.1" |};
                                  {| Core.IP := "10.0.0.2" |} ];
              Core.sub_Ports := [ {| Core.ep_Name := "http";
                                     Core.ep_Port := 8080 |} ] |}
           {| Core.ep_Name := "http"; Core.ep_Port := 8080 |}
           "default/kuard/80").
  - reflexivity.
  - reflexivity.
  - reflexivity.
  - vm_compute. reflexivity.
  - repeat split.
  - split; reflexivity.
Defined.

Section TranslatorIngress.

Import Kube.

Variable i : Ingress.

Lemma addIngress_paths_spec (paths : list HTTPIngressPath)
  (routes : list Route) :
  exists out,
    Go.foldM (Envoy.addIngress_path i) paths routes = Some (routes ++ out) /\
    Forall2 (route_of_path i) out paths.
Proof.
  revert routes. induction paths as [|p paths IH]; intros routes.
  - exists []. rewrite app_nil_r. split; [reflexivity|constructor].
  - cbn [Go.foldM]. unfold Envoy.addIngress_path at 1.
    destruct (hashname_60 [Namespace (ing_Meta i); ServiceName (Backend p);
                           IntOrString_String (ServicePort (Backend p))])
      as (cl & Hcl & _).
    unfold Envoy.ingressBackendToClusterName at 1. rewrite Hcl.
    match goal with
    | |- context [Go.foldM _ paths (routes ++ [?r])] =>
        destruct (IH (routes ++ [r])) as (out & -> & Hf); exists (r :: out)
    end.
    rewrite <- app_assoc. split; [reflexivity|].
    constructor; [|exact Hf]. split; [reflexivity|].
    exists cl. split; [exact Hcl|reflexivity].
Qed.

Lemma addIngress_rules_spec (rules : list IngressRule)
  (adds : list VirtualHost) :
  exists out,
    Envoy.addIngress_rules i rules adds = Some (adds ++ out) /\
    Forall2 (vhost_of_rule i) out (leading_rules rules).
Proof.
  revert adds. induction rules as [|rule rules IH]; intros adds.
  - exists []. rewrite app_nil_r. split; [reflexivity|constructor].
  - cbn [Envoy.addIngress_rules leading_rules].
    destruct (hashname_60 [Namespace (ing_Meta i); Name (ing_Meta i);
                           Host rule]) as (name & Hn & _).
    rewrite Hn. destruct (HTTP rule) as [paths|] eqn:Eh.
    + destruct (addIngress_paths_spec paths []) as (routes & -> & Hr).
      cbn [app].
      match goal with
      | |- context [Envoy.addIngress_rules i rules (adds ++ [?vh])] =>
          destruct (IH (adds ++ [vh])) as (out & -> & Hf); exists (vh :: out)
      end.
      rewrite <- app_assoc. split; [reflexivity|].
      constructor; [|exact Hf].
      split; [exact Hn|]. split; [reflexivity|].
      exists paths. split; [exact Eh|exact Hr].
    + exists []. rewrite app_nil_r. split; [reflexivity|constructor].
Qed.

Lemma removeIngress_rules_spec (rules : list IngressRule)
  (removes : list string) :
  exists out,
    Go.foldM (Translator.removeIngress_rule i) rules removes
      = Some (removes ++ out) /\
    Forall2 (fun name rule =>
               Envoy.hashname 60 [Namespace (ing_Meta i); Name (ing_Meta i);
                                  Host rule] = Some name) out rules.
Proof.
  revert removes. induction rules as [|rule rules IH]; intros removes.
  - exists []. rewrite app_nil_r. split; [reflexivity|constructor].
  - cbn [Go.foldM]. unfold Translator.removeIngress_rule at 1.
    destruct (hashname_60 [Namespace (ing_Meta i); Name (ing_Meta i);
                           Host rule]) as (name & Hn & _).
    rewrite Hn. destruct (IH (removes ++ [name])) as (out & -> & Hf).
    exists (name :: out). rewrite <- app_assoc. split; [reflexivity|].
    constructor; assumption.
Qed.

Lemma leading_rules_all (rules : list IngressRule) :
  Forall (fun rule => HTTP rule <> None) rules -> leading_rules rules = rules.
Proof.
  induction 1 as [|rule rules Hr _ IH]; [reflexivity|].
  cbn [leading_rules]. destruct (HTTP rule); [|contradiction].
  rewrite IH. reflexivity.
Qed.

Lemma leading_rules_prefix (rules : list IngressRule) :
  exists rest, rules = leading_rules rules ++ rest.
Proof.
  induction rules as [|rule rules [rest IH]]; [exists []; reflexivity|].
  cbn [leading_rules]. destruct (HTTP rule).
  - exists rest. cbn [app]. rewrite <- IH. reflexivity.
  - exists (rule :: rules). reflexivity.
Qed.

End TranslatorIngress.

(** X22. For an Ingress without a default backend that the translator
    admits, [addIngress] adds one virtual host for each rule up to the
    first rule whose [HTTP] is nil, where it stops: named by namespace,
    name and host, for the one domain that is the host, with one route for
    each path of the rule, in order, whose match is [pathToRouteMatch] of
    the path and whose cluster is named after its backend.  The rules
    after a rule without [HTTP] add nothing. *)
Theorem addIngress_virtual_hosts (i : Kube.Ingress) :
  admitted_by_translator i ->
  Kube.spec_Backend (Kube.Spec i) = None ->
  exists adds,
    Envoy.addIngress i = Some adds /\
    Forall2 (vhost_of_rule i) adds
            (leading_rules (Kube.Rules (Kube.Spec i))).
Proof.
  intros Hadm Hb.
  destruct (addIngress_rules_spec i (Kube.Rules (Kube.Spec i)) [])
    as (out & Ha & Hf).
  exists out. split; [|exact Hf].
  unfold Envoy.addIngress, Envoy.addIngress_admitted. rewrite Hb.
  destruct Hadm as [-> | ->]; exact Ha.
Qed.

Lemma addIngress_virtual_hosts_witness :
  exists adds,
    Envoy.addIngress three_rules_ingress = Some adds /\
    Forall2 (vhost_of_rule three_rules_ingress) adds
            (leading_rules (Kube.Rules (Kube.Spec three_rules_ingress))).
Proof.
  apply (addIngress_virtual_hosts three_rules_ingress).
  - left. reflexivity.
  - reflexivity.
Defined.

Lemma addIngress_covered (i : Kube.Ingress) :
  exists adds removes,
    Envoy.addIngress i = Some adds /\
    Translator.removeIngress i = Some removes /\
    incl (map vh_Name adds) removes /\
    Forall (fun vh => Go.len (vh_Name vh) <= 60) adds /\
    (admitted_by_translator i ->
     Kube.spec_Backend (Kube.Spec i) <> None \/
     Forall (fun rule => Kube.HTTP rule <> None) (Kube.Rules (Kube.Spec i)) ->
     map vh_Name adds = removes).
Proof.
  assert (exists adds removes,
            Envoy.addIngress_admitted i = Some adds /\
            Translator.removeIngress i = Some removes /\
            incl (map vh_Name adds) removes /\
            Forall (fun vh => Go.len (vh_Name vh) <= 60) adds /\
            (Kube.spec_Backend (Kube.Spec i) <> None \/
             Forall (fun rule => Kube.HTTP rule <> None)
                    (Kube.Rules (Kube.Spec i)) ->
             map vh_Name adds = removes))
    as (adds & removes & Ha & Hr & Hi & Hb & He).
  { unfold Envoy.addIngress_admitted, Translator.removeIngress.
    destruct (Kube.spec_Backend (Kube.Spec i)) as [backend|] eqn:Eb.
    - destruct (hashname_60 [Kube.Namespace (Kube.ing_Meta i);
                             Kube.Name (Kube.ing_Meta i)])
        as (name & Hn & Bn).
      destruct (hashname_60 [Kube.Namespace (Kube.ing_Meta i);
                             Kube.ServiceName backend;
                             Kube.IntOrString_String
                               (Kube.ServicePort backend)])
        as (cl & Hcl & _).
      unfold Envoy.ingressBackendToClusterName. rewrite Hn, Hcl.
      eexists _, _. split; [reflexivity|]. split; [reflexivity|].
      split; [apply incl_refl|]. split; [|reflexivity].
      repeat constructor. exact Bn.
    - destruct (addIngress_rules_spec i (Kube.Rules (Kube.Spec i)) [])
        as (adds & Ha & Hf).
      destruct (removeIngress_rules_spec i (Kube.Rules (Kube.Spec i)) [])
        as (removes & Hr & Hg).
      exists adds, removes. cbn [app] in Ha, Hr.
      split; [exact Ha|]. split; [exact Hr|].
      assert (forall rules names vhs,
                Forall2 (fun name rule =>
                           Envoy.hashname 60
                             [Kube.Namespace (Kube.ing_Meta i);
                              Kube.Name (Kube.ing_Meta i); Kube.Host rule]
                           = Some name) names rules ->
                Forall2 (vhost_of_rule i) vhs (leading_rules rules) ->
                (exists rest, names = map vh_Name vhs ++ rest) /\
                (leading_rules rules = rules -> map vh_Name vhs = names) /\
                Forall (fun vh => Go.len (vh_Name vh) <= 60) vhs) as Hgen.
      { induction rules as [|rule rules IH]; intros names vhs Hnames Hvhs.
        - inversion Hnames; subst. inversion Hvhs; subst.
          split; [exists []; reflexivity|]. split; [reflexivity|constructor].
        - inversion Hnames as [|name rule' names' rules' Hname Hnames'];
            subst. cbn [leading_rules] in Hvhs |- *.
          destruct (Kube.HTTP rule) eqn:Eh.
          + inversion Hvhs as [|vh rule' vhs' rules' Hvh Hvhs']; subst.
            destruct (IH names' vhs' Hnames' Hvhs')
              as ((rest & Hrest) & He & Hb).
            destruct Hvh as (Hvn & _).
            assert (vh_Name vh = name) as Hnm by congruence.
            split; [exists rest; cbn [map app]; congruence|].
            split.
            * intros [= E]. cbn [map]. rewrite (He E), Hnm. reflexivity.
            * constructor; [|exact Hb]. apply hashname_bound in Hvn.
              exact Hvn.
          + inversion Hvhs; subst.
            split; [eexists; reflexivity|].
            split; [discriminate|constructor]. }
      destruct (Hgen _ _ _ Hg Hf) as ((rest & Hrest) & Heq & Hb).
      split; [rewrite Hrest; apply incl_appl, incl_refl|].
      split; [exact Hb|].
      intros [H|H]; [congruence|]. apply Heq, leading_rules_all, H. }
  unfold Envoy.addIngress.
  destruct (Kube.Annotations (Kube.ing_Meta i)
              !! "kubernetes.io/ingress.class") as [class|] eqn:Ec.
  - destruct (String.eqb class "contour") eqn:E; cbn [negb].
    + exists adds, removes. repeat split; try assumption.
      intros _. exact He.
    + exists [], removes. split; [reflexivity|]. split; [exact Hr|].
      split; [intros x []|]. split; [constructor|].
      apply String.eqb_neq in E. unfold admitted_by_translator. rewrite Ec.
      intros [Hc|Hc]; [discriminate|]. congruence.
  - exists adds, removes. repeat split; try assumption. intros _. exact He.
Qed.

(** X23. [removeIngress] removes every virtual host that [addIngress]
    adds for the same Ingress: each name that [addIngress] hands to the
    cache is among the names that [removeIngress] hands to it, and none
    is longer than 60 bytes.  For an admitted Ingress with a default
    backend, or whose rules all have [HTTP], the names removed are exactly
    the names added, in order.  Both return for every Ingress. *)
Theorem removeIngress_covers_addIngress (i : Kube.Ingress) :
  exists adds removes,
    Envoy.addIngress i = Some adds /\
    Translator.removeIngress i = Some removes /\
    incl (map vh_Name adds) removes /\
    Forall (fun vh => Go.len (vh_Name vh) <= 60) adds /\
    (admitted_by_translator i ->
     Kube.spec_Backend (Kube.Spec i) <> None \/
     Forall (fun rule => Kube.HTTP rule <> None) (Kube.Rules (Kube.Spec i)) ->
     map vh_Name adds = removes).
Proof. exact (addIngress_covered i). Qed.

Lemma removeIngress_covers_addIngress_witness :
  exists adds removes,
    Envoy.addIngress kuard_ingress = Some adds /\
    Translator.removeIngress kuard_ingress = Some removes /\
    map vh_Name adds = removes.
Proof.
  destruct (removeIngress_covers_addIngress kuard_ingress)
    as (adds & removes & Ha & Hr & _ & _ & He).
  exists adds, removes. split; [exact Ha|]. split; [exact Hr|].
  apply He.
  - left. reflexivity.
  - left. discriminate.
Defined.

Lemma calls_Forall {A : Type} (call : A -> Translator.Call)
  (P : Translator.Call -> Prop) (l : list A) :
  (forall a, P (call a)) -> Forall P (map call l).
Proof.
  intros H. induction l; constructor; [apply H|assumption].
Qed.

(** X24. The three handlers of the translator return for every object.
    [OnAdd] and [OnUpdate] only add to the caches and [OnDelete] only
    removes from them; [OnUpdate] makes the calls of [OnAdd] on the new
    object, whatever the old object is, so it removes nothing of the old
    one; [OnDelete] of a tombstone makes the calls of [OnDelete] on the
    object in it; and whatever [OnAdd] adds for an object, [OnDelete] of
    the object removes from the same cache. *)
Theorem translator_events (obj : Translator.Object) :
  exists adds removes,
    Translator.OnAdd obj = Some adds /\
    Translator.OnDelete obj = Some removes /\
    (forall oldObj, Translator.OnUpdate oldObj obj = Some adds) /\
    Translator.OnDelete (Translator.DeletedFinalStateUnknown obj)
      = Some removes /\
    Forall is_Add adds /\ Forall is_Remove removes /\
    forall c, In c adds -> In (removal_of c) removes.
Proof.
  induction obj as [svc|e|i|obj IH|].
  - destruct (addService_ports_spec svc (Core.Ports svc) [] [])
      as (out & Ha & Hr & _ & _).
    cbn [Translator.OnAdd Translator.OnDelete Translator.OnUpdate].
    unfold Translator.addService, Translator.removeService.
    rewrite Ha, Hr. cbn [app Translator.calls].
    eexists _, _. split; [reflexivity|]. split; [reflexivity|].
    split; [reflexivity|]. split; [reflexivity|].
    split; [apply calls_Forall; intros; exact I|].
    split; [apply calls_Forall; intros; exact I|].
    intros c Hc. apply in_map_iff in Hc as (cl & <- & Hcl).
    cbn [removal_of]. rewrite map_map. apply in_map_iff.
    exists cl. split; [reflexivity|exact Hcl].
  - destruct (addEndpoints_covered e) as (adds & removes & Ha & Hr & Hi).
    cbn [Translator.OnAdd Translator.OnDelete Translator.OnUpdate].
    rewrite Ha, Hr. cbn [Translator.calls].
    eexists _, _. split; [reflexivity|]. split; [reflexivity|].
    split; [reflexivity|]. split; [reflexivity|].
    split; [apply calls_Forall; intros; exact I|].
    split; [apply calls_Forall; intros; exact I|].
    intros c Hc. apply in_map_iff in Hc as (cla & <- & Hcla).
    cbn [removal_of]. apply in_map, Hi, in_map, Hcla.
  - destruct (addIngress_covered i) as (adds & removes & Ha & Hr & Hi & _).
    cbn [Translator.OnAdd Translator.OnDelete Translator.OnUpdate].
    rewrite Ha, Hr. cbn [Translator.calls].
    eexists _, _. split; [reflexivity|]. split; [reflexivity|].
    split; [reflexivity|]. split; [reflexivity|].
    split; [apply calls_Forall; intros; exact I|].
    split; [apply calls_Forall; intros; exact I|].
    intros c Hc. apply in_map_iff in Hc as (vh & <- & Hvh).
    cbn [removal_of]. apply in_map, Hi, in_map, Hvh.
  - destruct IH as (_ & removes & _ & Hr & _ & _ & _ & Hf & _).
    exists [], removes.
    cbn [Translator.OnAdd Translator.OnDelete Translator.OnUpdate].
    rewrite Hr. repeat split; try constructor; try assumption.
    intros c [].
  - exists [], []. repeat split; try constructor. intros c [].
Qed.

(* ===================================================================== *)
(** * [recomputevhost] *)
(* ===================================================================== *)




Section RecomputeFacts.

Variable hashname : Z -> list string -> option string.
Variable ParseDuration : string -> option Duration.

Hypothesis hashname_returns : forall s, hashname 60 s <> None.
















End RecomputeFacts.









(* ===================================================================== *)
(** * The IngressRoute metrics *)
(* ===================================================================== *)

Lemma tally_cons (P : Metrics.Status -> bool)
  (key : Metrics.Status -> Metrics.Meta) (v : Metrics.Status)
  (statuses : list Metrics.Status) (k : Metrics.Meta) :
  tally P key (v :: statuses) k =
  (if P v && bool_decide (key v = k) then 1 else 0) + tally P key statuses k.
Proof.
  unfold tally. cbn [List.filter].
  destruct (P v && bool_decide (key v = k)); cbn [length]; lia.
Qed.

Lemma tally_nonneg (P : Metrics.Status -> bool)
  (key : Metrics.Status -> Metrics.Meta) (statuses : list Metrics.Status)
  (k : Metrics.Meta) : 0 <= tally P key statuses k.
Proof. unfold tally. lia. Qed.

Lemma tally_Permutation (P : Metrics.Status -> bool)
  (key : Metrics.Status -> Metrics.Meta) (l l' : list Metrics.Status)
  (k : Metrics.Meta) :
  Permutation l l' -> tally P key l k = tally P key l' k.
Proof.
  intros H. unfold tally. f_equal. apply Permutation_length.
  induction H as [|x l l' H IH|x y l|l l' l'' H1 IH1 H2 IH2];
    cbn [List.filter]; [constructor| | |etrans; eassumption].
  - destruct (P x && bool_decide (key x = k)); [constructor|]; exact IH.
  - destruct (P x && bool_decide (key x = k)),
             (P y && bool_decide (key y = k));
      try reflexivity. constructor.
Qed.

(** A counter map after the loop: under each key, the number counted on
    top of what the map held. *)
Lemma tally_map_lookup (P : Metrics.Status -> bool)
  (key : Metrics.Status -> Metrics.Meta) (k : Metrics.Meta)
  (statuses : list Metrics.Status) (m : gmap Metrics.Meta Z) :
  0 <= default 0 (m !! k) ->
  default 0 (m !! k) + Z.of_nat (length statuses) < 2 ^ 63 ->
  tally_map P key statuses m !! k =
  if tally P key statuses k =? 0 then m !! k
  else Some (default 0 (m !! k) + tally P key statuses k).
Proof.
  revert m. induction statuses as [|v statuses IH]; intros m H0 Hb.
  - reflexivity.
  - change (tally_map P key (v :: statuses) m)
      with (tally_map P key statuses
              (if P v then Metrics.incr m (key v) else m)).
    rewrite tally_cons. pose proof (tally_nonneg P key statuses k) as Ht.
    cbn [length] in Hb. destruct (P v) eqn:Ep; cbn [andb].
    + destruct (bool_decide (key v = k)) eqn:Ek.
      * apply bool_decide_eq_true in Ek. subst k.
        remember (default 0 (m !! key v)) as d eqn:Ed.
        assert (Metrics.incr m (key v) !! key v = Some (d + 1)) as Hl.
        { unfold Metrics.incr. rewrite lookup_insert_eq. f_equal.
          replace (match m !! key v with Some n => n | None => 0 end)
            with d by (subst d; destruct (m !! key v); reflexivity).
          apply wrap64_small. lia. }
        assert (default 0 (Metrics.incr m (key v) !! key v) = d + 1) as Hd
          by (rewrite Hl; reflexivity).
        rewrite IH; rewrite Hd; [|lia|lia]. rewrite Hl.
        destruct (tally P key statuses (key v) =? 0) eqn:E0.
        -- apply Z.eqb_eq in E0. rewrite E0.
           replace (1 + 0 =? 0) with false by reflexivity.
           f_equal.
        -- apply Z.eqb_neq in E0.
           replace (1 + tally P key statuses (key v) =? 0) with false
             by (symmetry; apply Z.eqb_neq; lia).
           f_equal. lia.
      * apply bool_decide_eq_false in Ek.
        assert (Metrics.incr m (key v) !! k = m !! k) as Hl
          by (unfold Metrics.incr; apply lookup_insert_ne; exact Ek).
        rewrite IH; rewrite Hl; [|lia|lia]. rewrite Z.add_0_l. reflexivity.
    + rewrite IH by lia. rewrite Z.add_0_l. reflexivity.
Qed.

Section MetricsFacts.

Variable StatusValid StatusInvalid StatusOrphaned : string.

(** The loop, map by map. *)
Lemma count_maps (statuses : list Metrics.Status)
  (m : Metrics.IngressRouteMetric) :
  fold_left (fun m v => Metrics.count StatusValid StatusInvalid
                          StatusOrphaned v m) statuses m =
  {| Metrics.Invalid :=
       tally_map (is_invalid StatusValid StatusInvalid) by_vhost statuses
                 (Metrics.Invalid m);
     Metrics.Valid :=
       tally_map (is_valid StatusValid) by_vhost statuses (Metrics.Valid m);
     Metrics.Orphaned :=
       tally_map (is_orphaned StatusValid StatusInvalid StatusOrphaned)
                 by_namespace statuses (Metrics.Orphaned m);
     Metrics.Total :=
       tally_map (fun _ => true) by_namespace statuses (Metrics.Total m);
     Metrics.Root :=
       tally_map Metrics.Object_VirtualHost by_namespace statuses
                 (Metrics.Root m) |}.
Proof.
  revert m. induction statuses as [|v statuses IH]; intros m.
  - destruct m. reflexivity.
  - cbn [fold_left tally_map]. rewrite IH. clear IH.
    unfold Metrics.count, is_orphaned, is_invalid, is_valid,
      by_vhost, by_namespace.
    destruct (String.eqb (Metrics.Status_of v) StatusValid),
             (String.eqb (Metrics.Status_of v) StatusInvalid),
             (String.eqb (Metrics.Status_of v) StatusOrphaned),
             (Metrics.Object_VirtualHost v); reflexivity.
Qed.

Lemma calculate_lookups (statuses : list Metrics.Status) (k : Metrics.Meta) :
  Z.of_nat (length statuses) < 2 ^ 63 ->
  forall m,
    m = Metrics.calculateIngressRouteMetric StatusValid StatusInvalid
          StatusOrphaned statuses ->
    Metrics.Valid m !! k
      = counted (tally (is_valid StatusValid) by_vhost statuses k) /\
    Metrics.Invalid m !! k
      = counted (tally (is_invalid StatusValid StatusInvalid) by_vhost
                       statuses k) /\
    Metrics.Orphaned m !! k
      = counted (tally (is_orphaned StatusValid StatusInvalid StatusOrphaned)
                       by_namespace statuses k) /\
    Metrics.Total m !! k
      = counted (tally (fun _ => true) by_namespace statuses k) /\
    Metrics.Root m !! k
      = counted (tally Metrics.Object_VirtualHost by_namespace statuses k).
Proof.
  intros Hb m ->. unfold Metrics.calculateIngressRouteMetric.
  rewrite count_maps.
  cbn [Metrics.Valid Metrics.Invalid Metrics.Orphaned Metrics.Total
       Metrics.Root].
  rewrite !tally_map_lookup by (rewrite lookup_empty; cbn [default]; lia).
  rewrite lookup_empty. cbn [default]. unfold counted.
  repeat split.
Qed.

End MetricsFacts.

Lemma tally_by_namespace_vhost (P : Metrics.Status -> bool)
  (statuses : list Metrics.Status) (k : Metrics.Meta) :
  Metrics.VHost k <> "" -> tally P by_namespace statuses k = 0.
Proof.
  intros Hk. unfold tally.
  replace (List.filter _ statuses) with (@nil Metrics.Status);
    [reflexivity|].
  symmetry. induction statuses as [|v l IH]; [reflexivity|].
  cbn [List.filter]. rewrite IH.
  replace (bool_decide (by_namespace v = k)) with false;
    [rewrite andb_false_r; reflexivity|].
  symmetry. apply bool_decide_eq_false. intros <-. apply Hk. reflexivity.
Qed.

(** X27. [calculateIngressRouteMetric] counts the statuses: under each
    key, [Total] holds the number of statuses of the namespace, [Root]
    the number of those whose object has a virtual host, [Orphaned] the
    number of those with the orphaned status, and [Valid] and [Invalid]
    the number of those with the valid and with the invalid status of the
    virtual host and namespace of the key; a key that no status counts
    for is absent from the map.  [Total], [Root] and [Orphaned] have keys
    without a virtual host only. *)
Theorem metrics_count_statuses
  (StatusValid StatusInvalid StatusOrphaned : string)
  (statuses : list Metrics.Status) (k : Metrics.Meta) :
  Z.of_nat (length statuses) < 2 ^ 63 ->
  let m := Metrics.calculateIngressRouteMetric StatusValid StatusInvalid
             StatusOrphaned statuses in
  Metrics.Valid m !! k
    = counted (tally (is_valid StatusValid) by_vhost statuses k) /\
  Metrics.Invalid m !! k
    = counted (tally (is_invalid StatusValid StatusInvalid) by_vhost
                     statuses k) /\
  Metrics.Orphaned m !! k
    = counted (tally (is_orphaned StatusValid StatusInvalid StatusOrphaned)
                     by_namespace statuses k) /\
  Metrics.Total m !! k
    = counted (tally (fun _ => true) by_namespace statuses k) /\
  Metrics.Root m !! k
    = counted (tally Metrics.Object_VirtualHost by_namespace statuses k) /\
  (Metrics.VHost k <> "" ->
   Metrics.Orphaned m !! k = None /\ Metrics.Total m !! k = None /\
   Metrics.Root m !! k = None).
Proof.
  intros Hb m.
  destruct (calculate_lookups StatusValid StatusInvalid StatusOrphaned
              statuses k Hb m eq_refl) as (Hv & Hi & Ho & Ht & Hr).
  repeat (split; [assumption|]).
  intros Hk.
  rewrite Ho, Ht, Hr, !tally_by_namespace_vhost by exact Hk.
  repeat split.
Qed.

Lemma metrics_count_statuses_witness :
  Metrics.Total
    (Metrics.calculateIngressRouteMetric "valid" "invalid" "orphaned"
       three_statuses)
    !! {| Metrics.VHost := ""; Metrics.Namespace := "default" |} = Some 3.
Proof.
  rewrite (proj1 (proj2 (proj2 (proj2
             (metrics_count_statuses "valid" "invalid" "orphaned"
                three_statuses
                {| Metrics.VHost := ""; Metrics.Namespace := "default" |}
                eq_refl))))).
  reflexivity.
Defined.

(** X28. The metrics do not depend on the order in which the statuses
    are visited: any two orders of the same statuses give the same five
    maps. *)
Theorem metrics_independent_of_order
  (StatusValid StatusInvalid StatusOrphaned : string)
  (statuses statuses' : list Metrics.Status) :
  Z.of_nat (length statuses) < 2 ^ 63 ->
  Permutation statuses statuses' ->
  Metrics.calculateIngressRouteMetric StatusValid StatusInvalid
    StatusOrphaned statuses' =
  Metrics.calculateIngressRouteMetric StatusValid StatusInvalid
    StatusOrphaned statuses.
Proof.
  intros Hb Hp.
  assert (Z.of_nat (length statuses') < 2 ^ 63) as Hb'
    by (rewrite <- (Permutation_length Hp); exact Hb).
  assert (forall P key,
            tally_map P key statuses' ∅ = tally_map P key statuses ∅) as E.
  { intros P key. apply map_eq. intros k.
    rewrite !tally_map_lookup
      by (rewrite lookup_empty; cbn [default]; lia).
    rewrite (tally_Permutation P key statuses statuses' k Hp).
    reflexivity. }
  unfold Metrics.calculateIngressRouteMetric. rewrite !count_maps.
  cbn [Metrics.Valid Metrics.Invalid Metrics.Orphaned Metrics.Total
       Metrics.Root].
  rewrite !E. reflexivity.
Qed.

Lemma metrics_independent_of_order_witness :
  Metrics.calculateIngressRouteMetric "valid" "invalid" "orphaned"
    (rev three_statuses) =
  Metrics.calculateIngressRouteMetric "valid" "invalid" "orphaned"
    three_statuses.
Proof.
  apply (metrics_independent_of_order "valid" "invalid" "orphaned"
           three_statuses (rev three_statuses)).
  - reflexivity.
  - apply Permutation_rev.
Defined.

(* ===================================================================== *)
(** * Paths *)
(* ===================================================================== *)

Lemma IndexAny_none_iff (s : string) (chars : list ascii) :
  Go.IndexAny_none s chars = true <->
  forall c, In c (list_ascii_of_string s) -> ~ In c chars.
Proof.
  unfold Go.IndexAny_none. rewrite forallb_forall. split.
  - intros H c Hc Hin. specialize (H c Hc).
    apply negb_true_iff in H.
    assert (existsb (Ascii.eqb c) chars = true) as E; [|congruence].
    apply existsb_exists. exists c. split; [exact Hin|apply Ascii.eqb_refl].
  - intros H c Hc. apply negb_true_iff.
    destruct (existsb (Ascii.eqb c) chars) eqn:E; [|reflexivity].
    apply existsb_exists in E as (c' & Hin & Heq).
    apply Ascii.eqb_eq in Heq. subst c'. destruct (H c Hc Hin).
Qed.

(** X29. [pathToRouteMatch] turns the empty path into the prefix match
    of [/], a path that holds none of the four bytes [ ( * \ into the
    prefix match of the path, and a path that holds one of them into the
    regex match of the path; so a path with other regex syntax, a dot or
    a question mark, is matched as a prefix.  The copy of the virtual host
    file and the copy of the translator are the same function. *)
Theorem pathToRouteMatch_cases (p : Kube.HTTPIngressPath) :
  Recompute.pathToRouteMatch p = Envoy.pathToRouteMatch p /\
  Envoy.regex_bytes = regex_metacharacters /\
  (Kube.Path p = "" -> Envoy.pathToRouteMatch p = Envoy.prefixmatch "/") /\
  (Kube.Path p <> "" ->
   (forall c, In c (list_ascii_of_string (Kube.Path p)) ->
              ~ In c regex_metacharacters) ->
   Envoy.pathToRouteMatch p = Envoy.prefixmatch (Kube.Path p)) /\
  (forall c, In c (list_ascii_of_string (Kube.Path p)) ->
             In c regex_metacharacters ->
   Envoy.pathToRouteMatch p = Envoy.regexmatch (Kube.Path p)).
Proof.
  split; [reflexivity|]. split; [reflexivity|].
  unfold Envoy.pathToRouteMatch.
  change Envoy.regex_bytes with regex_metacharacters.
  pose proof (IndexAny_none_iff (Kube.Path p) regex_metacharacters) as Hi.
  split; [|split].
  - intros ->. reflexivity.
  - intros Hne Hnone. apply String.eqb_neq in Hne. rewrite Hne.
    rewrite (proj2 Hi Hnone). reflexivity.
  - intros c Hc Hin.
    destruct (String.eqb (Kube.Path p) "") eqn:E.
    + apply String.eqb_eq in E. rewrite E in Hc. destruct Hc.
    + destruct (Go.IndexAny_none (Kube.Path p) regex_metacharacters);
        [|reflexivity].
      destruct (proj1 Hi eq_refl c Hc Hin).
Qed.

Lemma pathToRouteMatch_cases_witness :
  Envoy.pathToRouteMatch
    {| Kube.Path := "/api/v.";
       Kube.Backend := {| Kube.ServiceName := "kuard";
                          Kube.ServicePort := Kube.FromInt 80 |} |} =
  Envoy.prefixmatch "/api/v.".
Proof.
  apply (proj1 (proj2 (proj2 (proj2
           (pathToRouteMatch_cases
              {| Kube.Path := "/api/v.";
                 Kube.Backend :=
                   {| Kube.ServiceName := "kuard";
                      Kube.ServicePort := Kube.FromInt 80 |} |}))))).
  - discriminate.
  - cbn. intros c H.
    repeat (destruct H as [<-|H];
            [intros [E|[E|[E|[E|[]]]]]; discriminate|]).
    destruct H.
Defined.

